(** * PycellID, [pycellid/io.py]: the table-merging pipeline

    A shallow embedding of [read_df], [_create_ucid], [_decod_chanel],
    [_make_cols_chan], [make_df] and [merge_tables], with the Python and
    pandas operations they call, and the properties of the pipeline that
    its specification states.

    Conventions of the embedding.
    - A Python [str] is a [string]; a character is a code point below 256.
    - A Python [int] is a [Z].  A Python [float] is a [spec_float] at
      precision 53 and maximal exponent 1024 (binary64), computed with the
      operations of [SpecFloat]: products, sums and conversions round to
      nearest, ties to even.
    - A compiled pattern of [re] is a [regex] run by a backtracking
      matcher: alternatives from the left, greedy repetitions.
    - A raised exception is [Error e]; a returned value is [Ok v].
    - A [pandas.DataFrame] is a list of column labels and a list of rows;
      a label is looked up at its first occurrence.  Integer cells hold
      Python-int values: numpy's 64-bit storage of a column is not part of
      the model.
    - The file system is a record: which paths exist, what a recursive glob
      yields, and what [pandas.read_table] returns for a path. *)

From Stdlib Require Import ZArith List String Ascii Bool Lia Arith.
From Stdlib Require Import Floats.SpecFloat.
Import ListNotations.

Local Open Scope string_scope.
Local Open Scope list_scope.
Local Open Scope Z_scope.

(** ** Python strings *)

Definition code (c : ascii) : nat := nat_of_ascii c.

Definition between (lo hi : nat) (c : ascii) : bool :=
  (Nat.leb lo (code c) && Nat.leb (code c) hi)%bool.

(** [str.isspace] on one character. *)
Definition isspace (c : ascii) : bool :=
  (between 9 13 c || between 28 32 c || Nat.eqb (code c) 133
   || Nat.eqb (code c) 160)%bool.

Fixpoint lstrip (s : string) : string :=
  match s with
  | String c s' => if isspace c then lstrip s' else s
  | EmptyString => EmptyString
  end.

Fixpoint rev_string (acc s : string) : string :=
  match s with
  | String c s' => rev_string (String c acc) s'
  | EmptyString => acc
  end.

Definition rstrip (s : string) : string :=
  rev_string "" (lstrip (rev_string "" s)).

(** [str.strip()]. *)
Definition strip (s : string) : string := rstrip (lstrip s).

Fixpoint take (n : nat) (s : string) : string :=
  match n, s with
  | S n', String c s' => String c (take n' s')
  | _, _ => EmptyString
  end.

(** The character [c] occurs in [s]. *)
Fixpoint occurs (c : ascii) (s : string) : bool :=
  match s with
  | String c' s' => (Ascii.eqb c c' || occurs c s')%bool
  | EmptyString => false
  end.

(** Every character of [s] satisfies [p]. *)
Fixpoint all_chars (p : ascii -> bool) (s : string) : bool :=
  match s with
  | String c s' => (p c && all_chars p s')%bool
  | EmptyString => true
  end.

(** [s] with [f] applied to each of its characters. *)
Fixpoint map_chars (f : ascii -> ascii) (s : string) : string :=
  match s with
  | String c s' => String (f c) (map_chars f s')
  | EmptyString => EmptyString
  end.

(** The rewrite of one character of a header. *)
Definition dot_to_underscore (c : ascii) : ascii :=
  if Ascii.eqb c "." then "_"%char else c.

(** [s.startswith(pre)]. *)
Definition startswith (pre s : string) : bool := String.prefix pre s.

(** [sub in s] for strings. *)
Fixpoint str_in (sub s : string) : bool :=
  match s with
  | String _ s' => (startswith sub s || str_in sub s')%bool
  | EmptyString => startswith sub s
  end.

(** [s.replace(old, new)] for a non-empty [old]: occurrences are replaced
    from the left and do not overlap.  [skip] counts the characters of an
    occurrence that are still to be dropped. *)
Fixpoint replace_from (old new : string) (skip : nat) (s : string) : string :=
  match s with
  | EmptyString => EmptyString
  | String c s' =>
      match skip with
      | S k => replace_from old new k s'
      | O =>
          if startswith old s
          then (new ++ replace_from old new (String.length old - 1) s')%string
          else String c (replace_from old new 0 s')
      end
  end.

(** With an empty [old], Python puts [new] around every character. *)
Fixpoint intersperse (new s : string) : string :=
  match s with
  | EmptyString => new
  | String c s' => (new ++ String c (intersperse new s'))%string
  end.

Definition str_replace (old new s : string) : string :=
  match old with
  | EmptyString => intersperse new s
  | _ => replace_from old new 0 s
  end.

(** [s.split(sep)] for a non-empty [sep]; [cur] is the piece being read,
    reversed. *)
Fixpoint split_from (sep : string) (skip : nat) (cur : string) (s : string)
  : list string :=
  match s with
  | EmptyString => [rev_string "" cur]
  | String c s' =>
      match skip with
      | S k => split_from sep k cur s'
      | O =>
          if startswith sep s
          then rev_string "" cur :: split_from sep (String.length sep - 1) "" s'
          else split_from sep 0 (String c cur) s'
      end
  end.

Definition str_split (sep s : string) : list string := split_from sep 0 "" s.

(** [str.lower] on one character: A-Z, and the upper-case letters of the
    Latin-1 block. *)
Definition lower_char (c : ascii) : ascii :=
  if (between 65 90 c
      || (between 192 222 c && negb (Nat.eqb (code c) 215)))%bool
  then ascii_of_nat (code c + 32) else c.

Fixpoint lower (s : string) : string :=
  match s with
  | String c s' => String (lower_char c) (lower s')
  | EmptyString => EmptyString
  end.

(** ** Regular expressions, as the [re] module matches them

    A backtracking matcher in continuation-passing style: alternatives
    are tried from the left, repetitions are greedy, and the first
    successful path is the match.  The continuation receives what is left
    of the subject. *)

Inductive regex : Type :=
| Eps
| Chr (p : ascii -> bool)
| Seq (r1 r2 : regex)
| Alt (r1 r2 : regex)
| Star (r : regex).

Definition Plus (r : regex) : regex := Seq r (Star r).
Definition Opt (r : regex) : regex := Alt r Eps.

Definition orelse {A : Type} (x y : option A) : option A :=
  match x with Some _ => x | None => y end.

(** A greedy repetition: one more round of [m] when it consumes
    something, else the continuation.  [n] bounds the rounds; a round
    consumes at least one character, so the length of the subject is
    enough. *)
Fixpoint star_loop {A : Type} (m : string -> (string -> option A) -> option A)
  (k : string -> option A) (n : nat) (s : string) {struct n} : option A :=
  match n with
  | O => k s
  | S n' =>
      orelse
        (m s (fun s1 =>
           if Nat.ltb (String.length s1) (String.length s)
           then star_loop m k n' s1 else None))
        (k s)
  end.

Fixpoint rmatch {A : Type} (r : regex) (s : string)
  (k : string -> option A) {struct r} : option A :=
  match r with
  | Eps => k s
  | Chr p =>
      match s with
      | String c s' => if p c then k s' else None
      | EmptyString => None
      end
  | Seq r1 r2 => rmatch r1 s (fun s1 => rmatch r2 s1 k)
  | Alt r1 r2 => orelse (rmatch r1 s k) (rmatch r2 s k)
  | Star r1 => star_loop (rmatch r1) k (String.length s) s
  end.

(** The strings a pattern matches in full. *)
Inductive matches : regex -> string -> Prop :=
| M_Eps : matches Eps ""
| M_Chr (p : ascii -> bool) (c : ascii) :
    p c = true -> matches (Chr p) (String c "")
| M_Seq (r1 r2 : regex) (a b : string) :
    matches r1 a -> matches r2 b -> matches (Seq r1 r2) (a ++ b)
| M_AltL (r1 r2 : regex) (a : string) :
    matches r1 a -> matches (Alt r1 r2) a
| M_AltR (r1 r2 : regex) (a : string) :
    matches r2 a -> matches (Alt r1 r2) a
| M_Star0 (r : regex) : matches (Star r) ""
| M_StarS (r : regex) (a b : string) :
    matches r a -> matches (Star r) b -> matches (Star r) (a ++ b).

(** A matcher [m] is sound for [r]: what it consumes before it calls its
    continuation is a string of [r]. *)
Definition sound {A : Type} (m : string -> (string -> option A) -> option A)
  (r : regex) : Prop :=
  forall s k x, m s k = Some x ->
  exists a s', s = (a ++ s')%string /\ matches r a /\ k s' = Some x.

(** No character class of the pattern accepts [c]. *)
Fixpoint rejects (c : ascii) (r : regex) : bool :=
  match r with
  | Eps => true
  | Chr p => negb (p c)
  | Seq r1 r2 | Alt r1 r2 => (rejects c r1 && rejects c r2)%bool
  | Star r1 => rejects c r1
  end.

(** Character classes of the patterns. *)
Definition char c0 (c : ascii) : bool := Ascii.eqb c c0.
Definition digit (c : ascii) : bool := between 48 57 c.          (* \d *)
Definition nondigit (c : ascii) : bool := negb (digit c).        (* \D *)
Definition letter (c : ascii) : bool :=                          (* a-zA-Z *)
  (between 97 122 c || between 65 90 c)%bool.
Definition word (c : ascii) : bool :=                            (* \w *)
  (letter c || digit c || char "_" c
   || Nat.eqb (code c) 170 || between 178 179 c || Nat.eqb (code c) 181
   || between 185 186 c || between 188 190 c || between 192 214 c
   || between 216 246 c || between 248 255 c)%bool.
Definition cls_p (c : ascii) : bool :=                           (* [p|P] *)
  (char "p" c || char "|" c || char "P" c)%bool.
Definition cls_f (c : ascii) : bool :=                           (* [f|F] *)
  (char "f" c || char "|" c || char "F" c)%bool.
Definition cls_dash (c : ascii) : bool :=                        (* [-|_] *)
  (char "-" c || char "|" c || char "_" c)%bool.
Definition cls_us_nondigit (c : ascii) : bool :=                 (* [_|\D] *)
  (char "_" c || char "|" c || nondigit c)%bool.
Definition digit_or_dot (c : ascii) : bool :=                    (* [\d.] *)
  (digit c || char "." c)%bool.

(** [POS]: one of p, |, P; then letters; then characters among -, |, _. *)
Definition POS : regex :=
  Seq (Chr cls_p) (Seq (Star (Chr letter)) (Star (Chr cls_dash))).

(** [SC_NOTATION]: an optional minus, one or more digits or dots, one or
    more exponents (e, optional minus, digits), and an optional offset
    (+, optional minus, digits). *)
Definition SC_NOTATION : regex :=
  Seq (Opt (Chr (char "-")))
   (Seq (Plus (Chr digit_or_dot))
    (Seq (Plus (Seq (Chr (char "e")) (Seq (Opt (Chr (char "-"))) (Plus (Chr digit)))))
         (Opt (Seq (Chr (char "+")) (Seq (Opt (Chr (char "-"))) (Plus (Chr digit))))))).

(** Group 1 of [POSITION_REX], the pattern [POS] followed by the group
    [SC_NOTATION] or else one or more digits. *)
Definition POSITION_GROUP : regex := Alt SC_NOTATION (Plus (Chr digit)).

(** The two groups of [CHANNEL_REX]: a word character, one of f, |, F and
    at most one more word character; then a character that is not a digit,
    one of p, |, P, and characters that are not digits. *)
Definition CHANNEL_GROUP1 : regex :=
  Seq (Chr word) (Seq (Chr cls_f) (Opt (Chr word))).
Definition CHANNEL_GROUP2 : regex :=
  Seq (Chr cls_us_nondigit) (Seq (Chr cls_p) (Star (Chr nondigit))).

(** A match of [POSITION_REX] that starts at the head of [s]: the text of
    group 1 and what follows the match. *)
Definition POSITION_REX_match (s : string) : option (string * string) :=
  rmatch POS s (fun s1 =>
    rmatch POSITION_GROUP s1 (fun s2 =>
      Some (take (String.length s1 - String.length s2) s1, s2))).

(** A match of [CHANNEL_REX] at the head of [s]: group 1, group 2, rest. *)
Definition CHANNEL_REX_match (s : string) : option ((string * string) * string) :=
  rmatch CHANNEL_GROUP1 s (fun s1 =>
    rmatch CHANNEL_GROUP2 s1 (fun s2 =>
      Some (take (String.length s - String.length s1) s,
            take (String.length s1 - String.length s2) s1, s2))).

(** The leftmost match: [re.search]. *)
Fixpoint search {G : Type} (m : string -> option (G * string)) (s : string)
  : option (G * string) :=
  orelse (m s)
    match s with
    | String _ s' => search m s'
    | EmptyString => None
    end.

(** [pattern.findall(s)]: the groups of the successive matches, none
    overlapping another.  Both patterns match at least one character, so
    the length of the subject bounds the number of matches. *)
Fixpoint findall_fuel {G : Type} (m : string -> option (G * string))
  (fuel : nat) (s : string) : list G :=
  match fuel with
  | O => []
  | S fuel' =>
      match search m s with
      | Some (g, rest) => g :: findall_fuel m fuel' rest
      | None => []
      end
  end.

Definition findall {G : Type} (m : string -> option (G * string)) (s : string)
  : list G :=
  findall_fuel m (S (String.length s)) s.

Definition POSITION_REX_findall : string -> list string :=
  findall POSITION_REX_match.

Definition CHANNEL_REX_findall : string -> list (string * string) :=
  findall CHANNEL_REX_match.

(** ** Python numbers *)

Definition prec : Z := 53.
Definition emax : Z := 1024.

Definition nan : spec_float := S754_nan.

(** The value of an int as a binary64 number, rounded to nearest even. *)
Definition b64_of_Z (z : Z) : spec_float := binary_normalize prec emax z 0 false.

(** The float literal [1e11]; 10^11 is below 2^53, so it is exact. *)
Definition float_1e11 : spec_float := b64_of_Z 100000000000.

(** The decimal [m * 10^k] ([m] positive) rounded to nearest even: a
    product for a non-negative [k], one correctly rounded division of two
    integers otherwise. *)
Definition b64_of_decimal (neg : bool) (m : positive) (k : Z) : spec_float :=
  if 0 <=? k
  then binary_round prec emax neg (Z.to_pos (Zpos m * 10 ^ k)) 0
  else SFdiv prec emax (S754_finite neg m 0)
                       (S754_finite false (Z.to_pos (10 ^ (- k))) 0).

(** The state of a right shift that has lost nothing. *)
Definition exact_record (m : Z) : shr_record :=
  {| shr_m := m; shr_r := false; shr_s := false |}.

(** Truncation toward zero of [m * 2^e]. *)
Definition trunc_pos (m : positive) (e : Z) : Z :=
  if 0 <=? e then Z.shiftl (Zpos m) e else Z.shiftr (Zpos m) (- e).

(** ** Cells, tables and exceptions *)

(** A cell of a table, a flag, a dictionary key. *)
Inductive value : Type :=
| VInt (z : Z)
| VFloat (x : spec_float)
| VStr (s : string).

(** A missing cell. *)
Definition NaN : value := VFloat nan.

(** A table with the default row numbering: [rows] are aligned with
    [columns]. *)
Record DataFrame : Type := mkDF {
  columns : list string;
  rows : list (list value)
}.

(** A table with an index: each row carries its index tuple.  The column
    labels are tuples after a pivot and strings otherwise. *)
Record Frame (L : Type) : Type := mkFrame {
  index_names : list string;
  labels : list L;
  entries : list (list value * list value)
}.
Arguments mkFrame {L} _ _ _.
Arguments index_names {L} _.
Arguments labels {L} _.
Arguments entries {L} _.

Inductive exn : Type :=
| KeyError (key : value)
| IndexError
| TypeError
| AttributeError (name : string)
| OverflowError
| StopIteration
| FloatValueError (literal : string)     (* could not convert string to float *)
| UnpackValueError                        (* wrong number of values to unpack *)
| NotEncodingValueError (flag : value) (df_mapping : DataFrame)
| DuplicateValueError                     (* Index contains duplicate entries *)
| InsertValueError (label : string)       (* cannot insert, already exists *)
| InvalidIndexError
| FileNotFoundError (path_file : string)  (* ... does not encode valid position *)
| FileExistsError (path : string)         (* invalid path: ... *)
| ReadError (path_file : string).         (* raised by pandas.read_table *)

Inductive result (A : Type) : Type :=
| Ok (a : A)
| Error (e : exn).
Arguments Ok {A} a.
Arguments Error {A} e.

Definition bind {A B : Type} (x : result A) (f : A -> result B) : result B :=
  match x with
  | Ok a => f a
  | Error e => Error e
  end.

Notation "x <- e1 ;; e2" := (bind e1 (fun x => e2))
  (at level 61, e1 at next level, right associativity).

(** A loop that stops at the first exception. *)
Fixpoint mapM {A B : Type} (f : A -> result B) (l : list A) : result (list B) :=
  match l with
  | [] => Ok []
  | a :: l' => b <- f a ;; bs <- mapM f l' ;; Ok (b :: bs)
  end.

(** The file system seen by one call of [merge_tables]. *)
Record FileSystem : Type := mkFS {
  path_exists : string -> bool;                 (* Path(path).exists() *)
  rglob : string -> string -> list string;      (* Path(path).rglob(pattern) *)
  read_table : string -> result DataFrame       (* pd.read_table(path_file) *)
}.

(** *** Comparing cells *)

(** What a cell is as an index key or a dictionary key: a number is its
    value [m * 2^e] with [m] odd (an int and a float of the same value are
    the same key), a string is itself. *)
Inductive key : Type :=
| KNegInf
| KNum (m e : Z)
| KPosInf
| KStr (s : string)
| KNaN.

Fixpoint odd_part (p : positive) : positive * Z :=
  match p with
  | xO p' => let '(q, t) := odd_part p' in (q, t + 1)
  | _ => (p, 0)
  end.

Definition dyadic (m e : Z) : key :=
  match m with
  | Z0 => KNum 0 0
  | Zpos p => let '(q, t) := odd_part p in KNum (Zpos q) (e + t)
  | Zneg p => let '(q, t) := odd_part p in KNum (Zneg q) (e + t)
  end.

Definition key_of (v : value) : key :=
  match v with
  | VInt z => dyadic z 0
  | VFloat (S754_zero _) => KNum 0 0
  | VFloat (S754_finite s m e) => dyadic (cond_Zopp s (Zpos m)) e
  | VFloat (S754_infinity true) => KNegInf
  | VFloat (S754_infinity false) => KPosInf
  | VFloat S754_nan => KNaN
  | VStr s => KStr s
  end.

Definition key_eqb (a b : key) : bool :=
  match a, b with
  | KNum m1 e1, KNum m2 e2 => ((m1 =? m2) && (e1 =? e2))%bool
  | KStr s1, KStr s2 => String.eqb s1 s2
  | KNegInf, KNegInf | KPosInf, KPosInf | KNaN, KNaN => true
  | _, _ => false
  end.

Definition key_level (k : key) : Z :=
  match k with
  | KNegInf => 0 | KNum _ _ => 1 | KPosInf => 2 | KStr _ => 3 | KNaN => 4
  end.

(** The order that sorts index keys: numbers by value, then strings, then
    the missing value. *)
Definition key_cmp (a b : key) : comparison :=
  match a, b with
  | KNum m1 e1, KNum m2 e2 =>
      let e := Z.min e1 e2 in
      Z.compare (m1 * 2 ^ (e1 - e)) (m2 * 2 ^ (e2 - e))
  | KStr s1, KStr s2 => String.compare s1 s2
  | _, _ => Z.compare (key_level a) (key_level b)
  end.

Definition is_nan (v : value) : bool :=
  match v with VFloat S754_nan => true | _ => false end.

(** Two cells are the same key. *)
Definition same_key (a b : value) : bool := key_eqb (key_of a) (key_of b).

(** Python's [a == b]: as [same_key], but a NaN equals nothing. *)
Definition py_eq (a b : value) : bool :=
  (same_key a b && negb (is_nan a))%bool.

(** Python's truth value of a cell: [not v] holds for an empty string and
    for a zero. *)
Definition truthy (v : value) : bool :=
  match v with
  | VInt z => negb (z =? 0)
  | VFloat (S754_zero _) => false
  | VFloat _ => true
  | VStr s => negb (String.eqb s "")
  end.

Fixpoint tuple_cmp (a b : list value) : comparison :=
  match a, b with
  | [], [] => Eq
  | [], _ :: _ => Lt
  | _ :: _, [] => Gt
  | x :: a', y :: b' =>
      match key_cmp (key_of x) (key_of y) with
      | Eq => tuple_cmp a' b'
      | c => c
      end
  end.

Fixpoint same_tuple (a b : list value) : bool :=
  match a, b with
  | [], [] => true
  | x :: a', y :: b' => (same_key x y && same_tuple a' b')%bool
  | _, _ => false
  end.

Fixpoint insert_sorted (k : list value) (l : list (list value))
  : list (list value) :=
  match l with
  | [] => [k]
  | x :: l' =>
      match tuple_cmp k x with
      | Gt => x :: insert_sorted k l'
      | _ => k :: l
      end
  end.

Definition sort_keys (l : list (list value)) : list (list value) :=
  fold_right insert_sorted [] l.

(** The distinct elements of a list, in the order of their first
    occurrence. *)
Fixpoint unique_by {A : Type} (eqb : A -> A -> bool) (l : list A) : list A :=
  match l with
  | [] => []
  | x :: l' => x :: filter (fun y => negb (eqb x y)) (unique_by eqb l')
  end.

Fixpoint has_duplicate {A : Type} (eqb : A -> A -> bool) (l : list A) : bool :=
  match l with
  | [] => false
  | x :: l' => (existsb (eqb x) l' || has_duplicate eqb l')%bool
  end.

Notation "' p <- e1 ;; e2" := (bind e1 (fun p => e2))
  (at level 61, p pattern, e1 at next level, right associativity).

(** *** Conversions between numbers *)

(** [float(z)] for an int: too large a value raises. *)
Definition float_of_int (z : Z) : result spec_float :=
  match b64_of_Z z with
  | S754_infinity _ => Error OverflowError
  | x => Ok x
  end.

(** [int(x)] for a float: truncation toward zero. *)
Definition int_of_float (x : spec_float) : result Z :=
  match x with
  | S754_zero _ => Ok 0
  | S754_finite s m e => Ok (cond_Zopp s (trunc_pos m e))
  | S754_infinity _ => Error OverflowError
  | S754_nan => Error (FloatValueError "nan")
  end.

(** [z * x] for an int and a float. *)
Definition int_times_float (z : Z) (x : spec_float) : result spec_float :=
  y <- float_of_int z ;; Ok (SFmul prec emax y x).

(** [z + x] for an int and a float. *)
Definition int_plus_float (z : Z) (x : spec_float) : result spec_float :=
  y <- float_of_int z ;; Ok (SFadd prec emax y x).

(** Reading a run of decimal digits: the number read so far, how many
    digits were read, and what follows. *)
Fixpoint read_digits (acc : Z) (n : nat) (s : string) : Z * nat * string :=
  match s with
  | String c s' =>
      if digit c
      then read_digits (10 * acc + Z.of_nat (code c - 48)) (S n) s'
      else (acc, n, s)
  | EmptyString => (acc, n, s)
  end.

Definition read_sign (s : string) : bool * string :=
  match s with
  | String "-" s' => (true, s')
  | String "+" s' => (false, s')
  | _ => (false, s)
  end.

(** The exponent part of a float literal: [None] when it is malformed. *)
Definition read_exponent (s : string) : option (Z * string) :=
  match s with
  | String c s' =>
      if (char "e" c || char "E" c)%bool
      then
        let '(neg, s1) := read_sign s' in
        let '(e, n, s2) := read_digits 0 0 s1 in
        match n with
        | O => None
        | _ => Some (cond_Zopp neg e, s2)
        end
      else Some (0, s)
  | EmptyString => Some (0, s)
  end.

(** [float(s)] on the strings made of digits, dots, signs and the letter
    e: a sign, digits with at most one dot and at least one digit, and an
    exponent; anything else raises.  The value is rounded to nearest. *)
Definition float_of_str (s : string) : result spec_float :=
  let '(neg, s1) := read_sign s in
  let '(m1, n1, s2) := read_digits 0 0 s1 in
  let '(m, n2, s3) :=
    match s2 with
    | String "." s2' => read_digits m1 0 s2'
    | _ => (m1, O, s2)
    end in
  match (n1 + n2)%nat, read_exponent s3 with
  | S _, Some (e, EmptyString) =>
      match m with
      | Zpos p => Ok (b64_of_decimal neg p (e - Z.of_nat n2))
      | _ => Ok (S754_zero neg)
      end
  | _, _ => Error (FloatValueError s)
  end.

(** [int(float(s))]. *)
Definition int_float (s : string) : result Z :=
  x <- float_of_str s ;; int_of_float x.

(** *** Columns and rows *)

Fixpoint position (c : string) (cols : list string) : option nat :=
  match cols with
  | [] => None
  | c' :: cols' =>
      if String.eqb c c' then Some O
      else option_map S (position c cols')
  end.

Definition mem (c : string) (cols : list string) : bool :=
  existsb (String.eqb c) cols.

Definition cell (i : nat) (row : list value) : value := nth i row NaN.

(** The position of a column, or the [KeyError] of [df[c]]. *)
Definition pos_of (df : DataFrame) (c : string) : result nat :=
  match position c (columns df) with
  | Some i => Ok i
  | None => Error (KeyError (VStr c))
  end.

(** [df[c]]. *)
Definition getcol (df : DataFrame) (c : string) : result (list value) :=
  i <- pos_of df c ;; Ok (map (cell i) (rows df)).

Fixpoint set_nth (i : nat) (v : value) (row : list value) : list value :=
  match i, row with
  | O, _ :: row' => v :: row'
  | O, [] => [v]
  | S i', x :: row' => x :: set_nth i' v row'
  | S i', [] => NaN :: set_nth i' v []
  end.

(** [df[c] = vals], with one value per row: an existing column is
    overwritten in place, a new one is added on the right. *)
Definition setcol (df : DataFrame) (c : string) (vals : list value) : DataFrame :=
  match position c (columns df) with
  | Some i =>
      mkDF (columns df)
           (map (fun rv => set_nth i (snd rv) (fst rv)) (combine (rows df) vals))
  | None =>
      mkDF (columns df ++ [c])
           (map (fun rv => set_nth (List.length (columns df)) (snd rv) (fst rv))
                (combine (rows df) vals))
  end.

(** [df[cs]] for a list of labels. *)
Definition select (df : DataFrame) (cs : list string) : result DataFrame :=
  ps <- mapM (pos_of df) cs ;;
  Ok (mkDF cs (map (fun row => map (fun i => cell i row) ps) (rows df))).

(** The positions of the columns whose label is not in [cs]. *)
Definition positions_without (cs : list string) (cols : list string) : list nat :=
  map fst
    (filter (fun ic => negb (mem (snd ic) cs))
            (combine (seq 0 (List.length cols)) cols)).

(** [df.drop(cs, axis=1)]. *)
Definition drop_columns (df : DataFrame) (cs : list string) : result DataFrame :=
  _ <- mapM (pos_of df) cs ;;
  let ps := positions_without cs (columns df) in
  Ok (mkDF (filter (fun c => negb (mem c cs)) (columns df))
           (map (fun row => map (fun i => cell i row) ps) (rows df))).

(** *** pandas operations *)

(** One row of the table seen by [pivot]: index tuple, flag, values. *)
Definition pivot_record : Type := (list value * value * list value)%type.

Definition same_record (a b : pivot_record) : bool :=
  (same_tuple (fst (fst a)) (fst (fst b)) && same_key (snd (fst a)) (snd (fst b)))%bool.

(** The [j]-th value recorded for index [k] and flag [f], or NaN. *)
Definition pivot_cell (recs : list pivot_record) (k : list value) (f : value)
  (j : nat) : value :=
  match find (fun r => same_record r (k, f, [])) recs with
  | Some r => cell j (snd r)
  | None => NaN
  end.

(** [df.pivot(index=index, columns=col, values=values)]: the rows are
    the distinct index tuples, sorted; there is one column for each
    label of [values] and each distinct value of [col], sorted; a cell
    without a source row is NaN.  Two source rows with the same index
    tuple and the same value of [col] raise. *)
Definition pivot (df : DataFrame) (index : list string) (col : string)
  (values : list string) : result (Frame (string * value)) :=
  ipos <- mapM (pos_of df) index ;;
  fpos <- pos_of df col ;;
  vpos <- mapM (pos_of df) values ;;
  let recs : list pivot_record :=
    map (fun row => (map (fun i => cell i row) ipos, cell fpos row,
                     map (fun i => cell i row) vpos)) (rows df) in
  if has_duplicate same_record recs then Error DuplicateValueError
  else
    let keys := sort_keys (unique_by same_tuple (map (fun r => fst (fst r)) recs)) in
    let flags :=
      map (fun t => hd NaN t)
          (sort_keys (unique_by same_tuple (map (fun r => [snd (fst r)]) recs))) in
    Ok (mkFrame index
          (flat_map (fun v => map (fun f => (v, f)) flags) values)
          (map (fun k =>
                  (k, flat_map (fun j => map (fun f => pivot_cell recs k f j) flags)
                               (seq 0 (List.length values))))
               keys)).

(** [df.set_index(keys)]: the key columns leave the columns. *)
Definition set_index (df : DataFrame) (keys : list string) : result (Frame string) :=
  kpos <- mapM (pos_of df) keys ;;
  let ps := positions_without keys (columns df) in
  Ok (mkFrame keys
        (filter (fun c => negb (mem c keys)) (columns df))
        (map (fun row => (map (fun i => cell i row) kpos,
                          map (fun i => cell i row) ps)) (rows df))).

(** The labels of a merge: a label of both sides gets a suffix. *)
Definition merge_labels (l r : list string) : list string :=
  map (fun c => if mem c r then (c ++ "_x")%string else c) l
  ++ map (fun c => if mem c l then (c ++ "_y")%string else c) r.

Definition nan_row (n : nat) : list value := repeat NaN n.

(** [pd.merge(left, right, on=index names, how="outer")] for two tables
    indexed by the same names: the keys of both sides, sorted; a key of
    both sides gives every pair of its rows, a key of one side gives its
    rows completed with NaN. *)
Definition merge_outer (left right : Frame string) : Frame string :=
  let keys :=
    sort_keys (unique_by same_tuple (map fst (entries left) ++ map fst (entries right))) in
  let with_key k (f : Frame string) :=
    map snd (filter (fun e => same_tuple (fst e) k) (entries f)) in
  mkFrame (index_names left)
    (merge_labels (labels left) (labels right))
    (flat_map (fun k =>
       match with_key k left, with_key k right with
       | [], rs => map (fun r => (k, nan_row (List.length (labels left)) ++ r)) rs
       | ls, [] => map (fun l => (k, l ++ nan_row (List.length (labels right)))) ls
       | ls, rs => flat_map (fun l => map (fun r => (k, l ++ r)) rs) ls
       end) keys).

(** [df.reset_index()]: the index levels come back as the first columns. *)
Definition reset_index (f : Frame string) : result DataFrame :=
  match filter (fun c => mem c (labels f)) (index_names f) with
  | c :: _ => Error (InsertValueError c)
  | [] => Ok (mkDF (index_names f ++ labels f)
                   (map (fun e => fst e ++ snd e) (entries f)))
  end.

(** [pd.concat([a, b], axis=1)] for two tables with the same rows. *)
Definition concat_columns (a b : DataFrame) : DataFrame :=
  mkDF (columns a ++ columns b)
       (map (fun ab => fst ab ++ snd ab) (combine (rows a) (rows b))).

Definition reindex (cols : list string) (df : DataFrame) : list (list value) :=
  map (fun row =>
         map (fun c => match position c (columns df) with
                       | Some i => cell i row
                       | None => NaN
                       end) cols)
      (rows df).

(** [pd.concat([a, b], ignore_index=True)]: the rows of [a], then the
    rows of [b]; the columns are those of [a], then those only [b] has,
    and a cell of a column a table lacks is NaN.  When the two tables
    have the same columns nothing is realigned; otherwise a repeated
    label raises. *)
Definition pd_concat (a b : DataFrame) : result DataFrame :=
  if list_eq_dec string_dec (columns a) (columns b)
  then Ok (mkDF (columns a) (rows a ++ rows b))
  else if (has_duplicate String.eqb (columns a)
           || has_duplicate String.eqb (columns b))%bool
  then Error InvalidIndexError
  else
    let cols := columns a ++ filter (fun c => negb (mem c (columns a))) (columns b) in
    Ok (mkDF cols (reindex cols a ++ reindex cols b)).

(** [next(g)] on a generator: its first element and the generator
    advanced. *)
Definition next {A : Type} (g : list A) : result (A * list A) :=
  match g with
  | [] => Error StopIteration
  | x :: g' => Ok (x, g')
  end.

(** ** The functions of [io.py] *)

(** The two rewrites of a header:
    [df.columns.str.strip()], then
    [df.columns.str.replace(".", "_", regex=True)].  The pattern has one
    character: pandas 1.x, which the project was written for, replaces
    such a pattern as a literal string also when [regex] is true (the
    accessor says so and sets [regex] to false), as the comment of the
    source has it: change the name delimiter "." to "_".  Were the dot
    read as a regular expression, every header would consist of
    underscores and no column cellID, flag or t_frame would be left for
    the rest of [io.py]. *)
Definition normalize_header (h : string) : string :=
  str_replace "." "_" (strip h).

Definition read_df (fs : FileSystem) (path_file : string) : result DataFrame :=
  df <- read_table fs path_file ;;
  Ok (mkDF (map normalize_header (columns df)) (rows df)).

(** [calc + cellid]. *)
Definition add_calc (calc : Z) (cellid : value) : result value :=
  match cellid with
  | VInt z => Ok (VInt (calc + z))
  | VFloat x => y <- int_plus_float calc x ;; Ok (VFloat y)
  | VStr _ => Error TypeError
  end.

(** [calc = int(pos * 1e11)]. *)
Definition ucid_base (pos : Z) : result Z :=
  x <- int_times_float pos float_1e11 ;; int_of_float x.

Definition _create_ucid (df : DataFrame) (pos : Z) : result DataFrame :=
  calc <- ucid_base pos ;;
  cellID <- getcol df "cellID" ;;
  ucid <- mapM (add_calc calc) cellID ;;
  Ok (setcol df "ucid" ucid).

(** [df_mapping[df_mapping["flag"] == flag]["fluor"].values[0]]. *)
Definition descriptor (df_mapping : DataFrame) (flag : value) : result value :=
  fpos <- pos_of df_mapping "flag" ;;
  let selected :=
    mkDF (columns df_mapping)
         (filter (fun row => py_eq (cell fpos row) flag) (rows df_mapping)) in
  fluor <- getcol selected "fluor" ;;
  match fluor with
  | [] => Error IndexError
  | v :: _ => Ok v
  end.

Definition _decod_chanel (df_mapping : DataFrame) (flag : value) : result string :=
  path <- descriptor df_mapping flag ;;
  if negb (truthy path) then Error (NotEncodingValueError flag df_mapping)
  else
    match path with
    | VStr s =>
        match CHANNEL_REX_findall s with
        | [] => Error IndexError
        | g :: _ => Ok (lower (fst g))
        end
    | _ => Error TypeError
    end.

(** [chanels[fg]] in the dictionary built by [_make_cols_chan]. *)
Fixpoint dict_get (d : list (value * string)) (fg : value) : result string :=
  match d with
  | [] => Error (KeyError fg)
  | (k, c) :: d' => if py_eq k fg then Ok c else dict_get d' fg
  end.

Definition is_fluor (name : string) : bool := startswith "f_" name.

Definition relevant : list string := ["pos"; "t_frame"; "ucid"; "cellID"].

(** The dictionary of [_make_cols_chan]: the channel of every distinct
    flag of the metadata table. *)
Definition chanels_of (df_map : DataFrame) : result (list (value * string)) :=
  flags <- getcol df_map "flag" ;;
  mapM (fun fg => c <- _decod_chanel df_map fg ;; Ok (fg, c))
       (unique_by same_key flags).

Definition _make_cols_chan (df df_map : DataFrame) : result DataFrame :=
  let fluor := filter is_fluor (columns df) in
  df_flag <- pivot df ["ucid"; "t_frame"] "flag" fluor ;;
  chanels <- chanels_of df_map ;;
  names <- mapM (fun n => c <- dict_get chanels (snd n) ;; Ok (fst n ++ "_" ++ c)%string)
                (labels df_flag) ;;
  let df_flag := mkFrame (index_names df_flag) names (entries df_flag) in
  let morf := filter (fun name => negb (is_fluor name)) (columns df) in
  fpos <- match position "flag" (columns df) with
          | Some i => Ok i
          | None => Error (AttributeError "flag")
          end ;;
  df_morf <- select (mkDF (columns df)
                          (filter (fun row => py_eq (cell fpos row) (VInt 0)) (rows df)))
                    morf ;;
  df_morf <- set_index df_morf ["ucid"; "t_frame"] ;;
  df <- reset_index (merge_outer df_morf df_flag) ;;
  left <- select df relevant ;;
  rest <- drop_columns df relevant ;;
  Ok (concat_columns left rest).

(** The position encoded in a path: the first match of [POSITION_REX]. *)
Definition position_of_path (path_file : string) : result Z :=
  match POSITION_REX_findall path_file with
  | [] => Error (FileNotFoundError path_file)
  | lit :: _ =>
      if str_in "+" lit
      then
        match str_split "+" lit with
        | [sc_num; num] => a <- int_float sc_num ;; b <- int_float num ;; Ok (a + b)
        | _ => Error UnpackValueError
        end
      else int_float lit
  end.

(** [np.linspace(pos, pos, n, dtype=int)]: [n] times the float of [pos],
    cast to an integer. *)
Definition linspace_int (pos : Z) (n : nat) : result (list value) :=
  match n with
  | O => Ok []
  | _ => x <- float_of_int pos ;; z <- int_of_float x ;; Ok (repeat (VInt z) n)
  end.

Definition make_df (fs : FileSystem) (path_file : string) : result DataFrame :=
  df <- read_df fs path_file ;;
  pos <- position_of_path path_file ;;
  df <- _create_ucid df pos ;;
  col <- linspace_int pos (List.length (rows df)) ;;
  Ok (setcol df "pos" col).

(** One turn of [merge_tables]: a data file and the next metadata file. *)
Definition merge_one (fs : FileSystem) (data_table : string)
  (file_mapping : list string) : result (DataFrame * list string) :=
  df <- make_df fs data_table ;;
  ' (mapping, file_mapping) <- next file_mapping ;;
  df_map <- read_table fs mapping ;;
  df <- _make_cols_chan df df_map ;;
  Ok (df, file_mapping).

Fixpoint merge_loop (fs : FileSystem) (data_tables file_mapping : list string)
  (df : DataFrame) : result DataFrame :=
  match data_tables with
  | [] => Ok df
  | data_table :: data_tables' =>
      ' (df_i, file_mapping) <- merge_one fs data_table file_mapping ;;
      df <- pd_concat df df_i ;;
      merge_loop fs data_tables' file_mapping df
  end.

Definition merge_tables (fs : FileSystem) (path n_data n_mdata : string)
  : result DataFrame :=
  if negb (path_exists fs path) then Error (FileExistsError path)
  else
    let data_tables := rglob fs path n_data in
    let file_mapping := rglob fs path n_mdata in
    ' (table, data_tables) <- next data_tables ;;
    ' (df, file_mapping) <- merge_one fs table file_mapping ;;
    merge_loop fs data_tables file_mapping df.

(** [merge_tables] also stores [path] in the attributes of the returned
    table ([vars(df)["_path"] = path]); tables carry no attributes here. *)

(** ** Tables and directories used in the examples *)

(** A data table as [pandas.read_table] returns it: cell 0 and cell 1 have
    a record for flag 0 and for flag 1, cell 2 only for flag 1. *)
Definition out_all_table : DataFrame :=
  mkDF [" cellID "; " t.frame "; "flag"; "f.tot"; "a.tot"]
    [ [VInt 0; VInt 0; VInt 0; VInt 10; VInt 5];
      [VInt 0; VInt 0; VInt 1; VInt 20; VInt 5];
      [VInt 1; VInt 0; VInt 0; VInt 11; VInt 6];
      [VInt 1; VInt 0; VInt 1; VInt 21; VInt 6];
      [VInt 2; VInt 0; VInt 1; VInt 22; VInt 7] ].

Definition mapping_table : DataFrame :=
  mkDF ["fluor"; "flag"]
    [ [VStr "BFP_Position1"; VInt 0]; [VStr "YFP_Position1"; VInt 1] ].

(** The mapping of the end-to-end scenario: flag 0 is described by
    "cellID". *)
Definition cellID_mapping_table : DataFrame :=
  mkDF ["fluor"; "flag"]
    [ [VStr "cellID"; VInt 0]; [VStr "yfp_Position"; VInt 1] ].

(** A mapping with an empty descriptor for flag 1, and one without flag 1. *)
Definition empty_descriptor_table : DataFrame :=
  mkDF ["fluor"; "flag"] [ [VStr "BFP_Position1"; VInt 0]; [VStr ""; VInt 1] ].

Definition flag0_only_table : DataFrame :=
  mkDF ["fluor"; "flag"] [ [VStr "BFP_Position1"; VInt 0] ].

(** A directory tree given by its data files, its metadata files and the
    two tables every one of them holds. *)
Definition tree (data_files mapping_files : list string)
  (data mapping : DataFrame) : FileSystem :=
  mkFS (fun _ => true)
       (fun _ pattern => if String.eqb pattern "out_all" then data_files
                         else mapping_files)
       (fun path_file => if mem path_file data_files then Ok data
                         else if mem path_file mapping_files then Ok mapping
                         else Error (ReadError path_file)).

Definition one_position : FileSystem :=
  tree ["exp/Position001/out_all"] ["exp/Position001/out_bf_fl_mapping"]
       out_all_table mapping_table.

Definition same_position_twice : FileSystem :=
  tree ["exp/Position001/out_all"; "exp/Position001/out_all"]
       ["exp/Position001/out_bf_fl_mapping"; "exp/Position001/out_bf_fl_mapping"]
       out_all_table mapping_table.

Definition far_position : FileSystem :=
  tree ["exp/Position184467441/out_all"] ["exp/Position184467441/out_bf_fl_mapping"]
       out_all_table mapping_table.

(** A data file whose path encodes no position, and no metadata file. *)
Definition unnamed_position : FileSystem :=
  tree ["exp/out_all"] [] out_all_table mapping_table.

(** Two data files and one metadata file. *)
Definition one_mapping_missing : FileSystem :=
  tree ["exp/Position001/out_all"; "exp/Position002/out_all"]
       ["exp/Position001/out_bf_fl_mapping"]
       out_all_table mapping_table.

(** The file system in which the pattern [n_data] finds the files
    [data_files] and nothing else differs. *)
Definition only_data_files (fs : FileSystem) (n_data : string)
  (data_files : list string) : FileSystem :=
  mkFS (path_exists fs)
       (fun path pattern => if String.eqb pattern n_data then data_files
                            else rglob fs path pattern)
       (read_table fs).

(** The table [make_df] returns for [one_position]. *)
Definition made_table : DataFrame :=
  mkDF ["cellID"; "t_frame"; "flag"; "f_tot"; "a_tot"; "ucid"; "pos"]
    [ [VInt 0; VInt 0; VInt 0; VInt 10; VInt 5; VInt 100000000000; VInt 1];
      [VInt 0; VInt 0; VInt 1; VInt 20; VInt 5; VInt 100000000000; VInt 1];
      [VInt 1; VInt 0; VInt 0; VInt 11; VInt 6; VInt 100000000001; VInt 1];
      [VInt 1; VInt 0; VInt 1; VInt 21; VInt 6; VInt 100000000001; VInt 1];
      [VInt 2; VInt 0; VInt 1; VInt 22; VInt 7; VInt 100000000002; VInt 1] ].

(** The table [make_df] returns for the second file of
    [one_mapping_missing]. *)
Definition made_table_002 : DataFrame :=
  mkDF ["cellID"; "t_frame"; "flag"; "f_tot"; "a_tot"; "ucid"; "pos"]
    [ [VInt 0; VInt 0; VInt 0; VInt 10; VInt 5; VInt 200000000000; VInt 2];
      [VInt 0; VInt 0; VInt 1; VInt 20; VInt 5; VInt 200000000000; VInt 2];
      [VInt 1; VInt 0; VInt 0; VInt 11; VInt 6; VInt 200000000001; VInt 2];
      [VInt 1; VInt 0; VInt 1; VInt 21; VInt 6; VInt 200000000001; VInt 2];
      [VInt 2; VInt 0; VInt 1; VInt 22; VInt 7; VInt 200000000002; VInt 2] ].

(** The same table without its [t_frame] column. *)
Definition no_frame_table : DataFrame :=
  mkDF ["cellID"; "flag"; "f_tot"; "ucid"; "pos"]
    [ [VInt 0; VInt 0; VInt 10; VInt 100000000000; VInt 1];
      [VInt 0; VInt 1; VInt 20; VInt 100000000000; VInt 1] ].

(** The table [merge_tables] returns for [one_position]. *)
Definition merged_table : DataFrame :=
  mkDF ["pos"; "t_frame"; "ucid"; "cellID"; "flag"; "a_tot"; "f_tot_bfp"; "f_tot_yfp"]
    [ [VInt 1; VInt 0; VInt 100000000000; VInt 0; VInt 0; VInt 5; VInt 10; VInt 20];
      [VInt 1; VInt 0; VInt 100000000001; VInt 1; VInt 0; VInt 6; VInt 11; VInt 21];
      [NaN; VInt 0; VInt 100000000002; NaN; NaN; NaN; NaN; VInt 22] ].

(** The directory of [one_position] with one more metadata file, which
    cannot be read. *)
Definition one_mapping_in_excess : FileSystem :=
  mkFS (path_exists one_position)
       (fun path pattern =>
          if String.eqb pattern "out_all" then rglob one_position path pattern
          else rglob one_position path pattern ++ ["exp/notes_mapping"])
       (read_table one_position).




(** A table in which the record of cell 0 for flag 1 is written twice. *)
Definition repeated_record_table : DataFrame :=
  mkDF ["cellID"; "t_frame"; "flag"; "f_tot"; "a_tot"; "ucid"; "pos"]
    [ [VInt 0; VInt 0; VInt 0; VInt 10; VInt 5; VInt 100000000000; VInt 1];
      [VInt 0; VInt 0; VInt 1; VInt 20; VInt 5; VInt 100000000000; VInt 1];
      [VInt 0; VInt 0; VInt 1; VInt 21; VInt 5; VInt 100000000000; VInt 1] ].

(** What may follow the digits of a plain position: the end of the path,
    or a character that is no digit, no dot and not the letter e. *)
Definition ends_number (rest : string) : bool :=
  match rest with
  | String c _ => negb (digit_or_dot c || char "e" c)
  | EmptyString => true
  end.

(** ** [core.py]: the class [CellData]

    An object is its three attributes and, once the table has been built,
    the entry [_df] of its dictionary.  A method returns its outcome and
    the object as the call leaves it; the file system is the one of the
    moment of the call. *)

Module core.

Inductive core_exn : Type :=
| PathNotExistError (value : string)   (* FileNotFoundError: Path < value > not exist *)
| Raised (e : exn).                    (* raised by [merge_tables] or by pandas *)

Inductive outcome (A : Type) : Type :=
| Returns (a : A)
| Raises (e : core_exn).
Arguments Returns {A} a.
Arguments Raises {A} e.

Record CellData : Type := mkCellData {
  path : string;
  name_data : string;
  name_meta_data : string;
  _df : option DataFrame
}.

(** [CellData(path, name_data, name_meta_data)]: the validator
    [_check_path] of the attribute [path]. *)
Definition __init__ (fs : FileSystem) (path name_data name_meta_data : string)
  : outcome CellData :=
  if negb (path_exists fs path) then Raises (PathNotExistError path)
  else Returns (mkCellData path name_data name_meta_data None).

(** The property [df]: the table is built when the object has no [_df];
    a copy of [_df] is returned. *)
Definition df (fs : FileSystem) (self : CellData) : outcome DataFrame * CellData :=
  match _df self with
  | Some t => (Returns t, self)
  | None =>
      match merge_tables fs (path self) (name_data self) (name_meta_data self) with
      | Ok t =>
          (Returns t,
           mkCellData (path self) (name_data self) (name_meta_data self) (Some t))
      | Error e => (Raises (Raised e), self)
      end
  end.

(** [self[k]] for a label [k]: [self.df.__getitem__(k)]. *)
Definition __getitem__ (fs : FileSystem) (self : CellData) (k : string)
  : outcome (list value) * CellData :=
  match df fs self with
  | (Returns t, self') =>
      (match getcol t k with
       | Ok v => Returns v
       | Error e => Raises (Raised e)
       end, self')
  | (Raises e, self') => (Raises e, self')
  end.

(** [iter(self)]: [iter(self.df)], which runs over the column labels. *)
Definition __iter__ (fs : FileSystem) (self : CellData)
  : outcome (list string) * CellData :=
  match df fs self with
  | (Returns t, self') => (Returns (columns t), self')
  | (Raises e, self') => (Raises e, self')
  end.

(** [len(self)]: [len(self.df)], the number of rows. *)
Definition __len__ (fs : FileSystem) (self : CellData) : outcome nat * CellData :=
  match df fs self with
  | (Returns t, self') => (Returns (List.length (rows t)), self')
  | (Raises e, self') => (Raises e, self')
  end.

End core.

(** The directory of [one_position] after its files have been removed. *)
Definition emptied_directory : FileSystem :=
  mkFS (fun _ => false) (fun _ _ => []) (fun path_file => Error (ReadError path_file)).

(** ** Results *)

(** *** The error monad *)

Lemma bind_Ok {A B : Type} (x : result A) (f : A -> result B) (b : B) :
  bind x f = Ok b -> exists a, x = Ok a /\ f a = Ok b.
Proof.
  destruct x as [a | e]; simpl; intros H.
  - exists a. split; [reflexivity | exact H].
  - discriminate H.
Qed.

Tactic Notation "inv_bind" hyp(H) "as" ident(a) ident(Ha) :=
  apply bind_Ok in H; destruct H as [a [Ha H]].

Tactic Notation "inv_bind" hyp(H) :=
  let a := fresh "a" in
  let Ha := fresh "Ha" in
  apply bind_Ok in H; destruct H as [a [Ha H]].

Lemma mapM_Ok_Forall2 {A B : Type} (f : A -> result B) (l : list A) (bs : list B) :
  mapM f l = Ok bs -> Forall2 (fun a b => f a = Ok b) l bs.
Proof.
  revert bs. induction l as [| a l IH]; simpl; intros bs H.
  - inversion H. constructor.
  - inv_bind H. inv_bind H. inversion H; subst. constructor; auto.
Qed.

(** A loop over a list that holds a failing element fails. *)
Lemma mapM_fails {A B : Type} (f : A -> result B) (l : list A) (a : A) (e : exn) :
  In a l -> f a = Error e -> exists e', mapM f l = Error e'.
Proof.
  induction l as [| x l IH]; simpl; intros Hin Hf.
  - contradiction.
  - destruct (f x) as [b | e0] eqn:Hx; simpl.
    + destruct Hin as [-> | Hin]; [congruence |].
      destruct (IH Hin Hf) as [e' ->]. exists e'. reflexivity.
    + exists e0. reflexivity.
Qed.

(** *** Columns *)

Lemma position_Some_In (c : string) (cols : list string) (i : nat) :
  position c cols = Some i -> In c cols.
Proof.
  revert i. induction cols as [| c' cols IH]; simpl; intros i H.
  - discriminate.
  - destruct (String.eqb c c') eqn:E.
    + apply String.eqb_eq in E. left. congruence.
    + destruct (position c cols); [| discriminate]. right. eapply IH. reflexivity.
Qed.

Lemma position_None_not_In (c : string) (cols : list string) :
  ~ In c cols -> position c cols = None.
Proof.
  induction cols as [| c' cols IH]; simpl; intros H.
  - reflexivity.
  - destruct (String.eqb c c') eqn:E.
    + apply String.eqb_eq in E. exfalso. apply H. left. congruence.
    + rewrite IH; [reflexivity |]. intros Hin. apply H. right. exact Hin.
Qed.

Lemma position_In_Some (c : string) (cols : list string) :
  In c cols -> exists i, position c cols = Some i.
Proof.
  induction cols as [| c' cols IH]; simpl; intros H.
  - contradiction.
  - destruct (String.eqb c c') eqn:E.
    + exists O. reflexivity.
    + destruct H as [H | H].
      * subst. rewrite String.eqb_refl in E. discriminate.
      * destruct (IH H) as [i ->]. exists (S i). reflexivity.
Qed.

Lemma mem_In (c : string) (cols : list string) : mem c cols = true <-> In c cols.
Proof.
  unfold mem. rewrite existsb_exists. split.
  - intros [x [Hx E]]. apply String.eqb_eq in E. subst. exact Hx.
  - intros H. exists c. split; [exact H | apply String.eqb_refl].
Qed.

Lemma pos_of_Ok_In (df : DataFrame) (c : string) (i : nat) :
  pos_of df c = Ok i -> In c (columns df).
Proof.
  unfold pos_of. destruct (position c (columns df)) eqn:E; [| discriminate].
  intros _. eapply position_Some_In, E.
Qed.

Lemma pos_of_missing (df : DataFrame) (c : string) :
  ~ In c (columns df) -> pos_of df c = Error (KeyError (VStr c)).
Proof.
  intros H. unfold pos_of. rewrite position_None_not_In by exact H. reflexivity.
Qed.

Lemma pos_of_present (df : DataFrame) (c : string) :
  In c (columns df) -> exists i, pos_of df c = Ok i.
Proof.
  intros H. unfold pos_of. destruct (position_In_Some _ _ H) as [i ->].
  exists i. reflexivity.
Qed.

(** *** The reshaped table *)

Example make_df_one_position :
  make_df one_position "exp/Position001/out_all" = Ok made_table.
Proof. vm_compute. reflexivity. Qed.

Example make_cols_chan_made_table :
  _make_cols_chan made_table mapping_table = Ok merged_table.
Proof. vm_compute. reflexivity. Qed.

Example merge_tables_one_position :
  merge_tables one_position "exp" "out_all" "*mapping" = Ok merged_table.
Proof. vm_compute. reflexivity. Qed.

Lemma startswith_app (pre s t : string) :
  startswith pre s = true -> startswith pre (s ++ t)%string = true.
Proof.
  unfold startswith. revert s. induction pre as [| c pre IH]; intros s H.
  - destruct (s ++ t)%string; reflexivity.
  - destruct s as [| c' s]; simpl in *; [discriminate |].
    destruct (ascii_dec c c'); [apply IH, H | discriminate].
Qed.

(** The label of a pivoted column starts with the label of a
    fluorescence column; no morphological label is one of them. *)
Lemma pivot_labels_fluor (df : DataFrame) (index : list string) (col : string)
  (values : list string) (p : Frame (string * value)) :
  pivot df index col values = Ok p ->
  Forall (fun n => In (fst n) values) (labels p).
Proof.
  unfold pivot. intros H. inv_bind H. inv_bind H. inv_bind H.
  destruct (has_duplicate same_record _); [discriminate |].
  inversion H; subst; clear H. simpl.
  apply Forall_forall. intros n Hn.
  apply in_flat_map in Hn. destruct Hn as [v [Hv Hn]].
  apply in_map_iff in Hn. destruct Hn as [f [<- _]]. exact Hv.
Qed.

Lemma renamed_labels_fluor (chanels : list (value * string))
  (ls : list (string * value)) (names : list string) :
  Forall (fun n => is_fluor (fst n) = true) ls ->
  mapM (fun n => c <- dict_get chanels (snd n) ;; Ok (fst n ++ "_" ++ c)%string) ls
    = Ok names ->
  Forall (fun name => is_fluor name = true) names.
Proof.
  intros Hls H. apply mapM_Ok_Forall2 in H.
  induction H as [| n name ls names Hn _ IH]; constructor.
  - inv_bind Hn as c Hc. inversion Hn; subst.
    apply startswith_app. inversion Hls; assumption.
  - apply IH. inversion Hls; assumption.
Qed.

Lemma merge_labels_keeps (l r : list string) (c : string) :
  In c l -> ~ In c r -> In c (merge_labels l r).
Proof.
  intros Hl Hr. unfold merge_labels. apply in_or_app. left.
  apply in_map_iff. exists c. split; [| exact Hl].
  destruct (mem c r) eqn:E; [| reflexivity].
  apply mem_In in E. contradiction.
Qed.

Lemma select_columns (df : DataFrame) (cs : list string) (out : DataFrame) :
  select df cs = Ok out -> columns out = cs.
Proof. unfold select. intros H. inv_bind H. inversion H. reflexivity. Qed.

Lemma set_index_labels (df : DataFrame) (keys : list string) (f : Frame string) :
  set_index df keys = Ok f ->
  labels f = filter (fun c => negb (mem c keys)) (columns df)
  /\ index_names f = keys.
Proof. unfold set_index. intros H. inv_bind H. inversion H. split; reflexivity. Qed.

Lemma reset_index_columns (f : Frame string) (df : DataFrame) :
  reset_index f = Ok df -> columns df = index_names f ++ labels f.
Proof.
  unfold reset_index. destruct (filter _ _); [| discriminate].
  intros H. inversion H. reflexivity.
Qed.

Lemma drop_columns_columns (df : DataFrame) (cs : list string) (out : DataFrame) :
  drop_columns df cs = Ok out ->
  columns out = filter (fun c => negb (mem c cs)) (columns df).
Proof. unfold drop_columns. intros H. inv_bind H. inversion H. reflexivity. Qed.

(** The columns of a reshaped table, from those of the table given. *)
Lemma make_cols_chan_columns (df df_map out : DataFrame) :
  _make_cols_chan df df_map = Ok out ->
  exists p chanels names,
    pivot df ["ucid"; "t_frame"] "flag" (filter is_fluor (columns df)) = Ok p
    /\ chanels_of df_map = Ok chanels
    /\ mapM (fun n => c <- dict_get chanels (snd n) ;; Ok (fst n ++ "_" ++ c)%string)
            (labels p) = Ok names
    /\ Forall (fun name => is_fluor name = true) names
    /\ columns out =
       relevant ++
       filter (fun c => negb (mem c relevant))
         (["ucid"; "t_frame"] ++
          merge_labels
            (filter (fun c => negb (mem c ["ucid"; "t_frame"]))
                    (filter (fun name => negb (is_fluor name)) (columns df)))
            names).
Proof.
  unfold _make_cols_chan. intros H.
  inv_bind H as df_flag Hpivot.
  inv_bind H as chanels Hchanels. inv_bind H as names Hnames.
  inv_bind H as fpos Hfpos. inv_bind H as sel Hsel.
  inv_bind H as df_morf Hidx. inv_bind H as merged Hreset.
  inv_bind H as left Hleft. inv_bind H as rest Hrest.
  inversion H; subst; clear H.
  exists df_flag, chanels, names.
  split; [exact Hpivot |]. split; [exact Hchanels |]. split; [exact Hnames |].
  split.
  - eapply renamed_labels_fluor; [| exact Hnames].
    apply pivot_labels_fluor in Hpivot.
    eapply Forall_impl; [| exact Hpivot].
    intros n Hn. simpl in Hn. apply filter_In in Hn. apply Hn.
  - simpl. rewrite (select_columns _ _ _ Hleft).
    rewrite (drop_columns_columns _ _ _ Hrest).
    rewrite (reset_index_columns _ _ Hreset). simpl.
    destruct (set_index_labels _ _ _ Hidx) as [Hl Hi].
    rewrite Hl, Hi. rewrite (select_columns _ _ _ Hsel). reflexivity.
Qed.

(** C2.  The reshaped table keeps a column named flag: the morphological
    columns are all those whose label does not start with f_, and flag is
    one of them; nothing drops it afterwards. *)
Theorem flag_column_is_kept (df df_map out : DataFrame) :
  _make_cols_chan df df_map = Ok out -> In "flag" (columns out).
Proof.
  intros H.
  assert (Hflag : In "flag" (columns df)).
  { unfold _make_cols_chan in H. inv_bind H as p Hp. unfold pivot in Hp.
    inv_bind Hp as ipos Hipos. inv_bind Hp as fpos Hfpos.
    eapply pos_of_Ok_In, Hfpos. }
  destruct (make_cols_chan_columns _ _ _ H)
    as [p [chanels [names [_ [_ [_ [Hnames ->]]]]]]].
  apply in_or_app. right. apply filter_In. split; [| reflexivity].
  apply in_or_app. right. apply merge_labels_keeps.
  - apply filter_In. split; [| reflexivity].
    apply filter_In. split; [exact Hflag | reflexivity].
  - intros Hin. rewrite Forall_forall in Hnames.
    specialize (Hnames _ Hin). discriminate Hnames.
Qed.

Lemma flag_column_is_kept_witness :
  _make_cols_chan made_table mapping_table = Ok merged_table
  /\ In "flag" (columns merged_table).
Proof.
  split.
  - vm_compute. reflexivity.
  - apply (flag_column_is_kept made_table mapping_table merged_table).
    vm_compute. reflexivity.
Defined.

(** C7.  A table without a [t_frame] column is not reshaped: the pivot
    indexes by ucid and t_frame and raises on the missing label, whatever
    the metadata table. *)
Theorem missing_t_frame_raises (df df_map : DataFrame) :
  In "ucid" (columns df) -> ~ In "t_frame" (columns df) ->
  _make_cols_chan df df_map = Error (KeyError (VStr "t_frame")).
Proof.
  intros Hu Ht. unfold _make_cols_chan, pivot. simpl.
  destruct (pos_of_present _ _ Hu) as [i ->]. simpl.
  rewrite (pos_of_missing _ _ Ht). reflexivity.
Qed.

Lemma missing_t_frame_raises_witness :
  In "ucid" (columns no_frame_table)
  /\ In "flag" (columns no_frame_table)
  /\ _make_cols_chan no_frame_table mapping_table = Error (KeyError (VStr "t_frame")).
Proof.
  split; [simpl; tauto |]. split; [simpl; tauto |].
  apply (missing_t_frame_raises no_frame_table mapping_table).
  - simpl. tauto.
  - simpl. intros H.
    repeat (destruct H as [H | H]; [discriminate H |]). exact H.
Defined.

(** *** Strings *)

Lemma sapp_nil_r (s : string) : (s ++ "")%string = s.
Proof. induction s; simpl; congruence. Qed.

Lemma sapp_assoc (a b c : string) : ((a ++ b) ++ c)%string = (a ++ (b ++ c))%string.
Proof. induction a; simpl; congruence. Qed.

Lemma slength_app (a b : string) :
  String.length (a ++ b) = (String.length a + String.length b)%nat.
Proof. induction a; simpl; congruence. Qed.

Lemma take_app (a b : string) : take (String.length a) (a ++ b) = a.
Proof. induction a; simpl; [destruct b; reflexivity | congruence]. Qed.

Lemma take_consumed (a b : string) :
  take (String.length (a ++ b) - String.length b) (a ++ b) = a.
Proof.
  rewrite slength_app.
  replace (String.length a + String.length b - String.length b)%nat
    with (String.length a) by lia.
  apply take_app.
Qed.

Lemma occurs_app (c : ascii) (a b : string) :
  occurs c (a ++ b) = (occurs c a || occurs c b)%bool.
Proof.
  induction a as [| c' a IH]; simpl; [reflexivity |].
  rewrite IH. apply orb_assoc.
Qed.

Lemma startswith_char (c : ascii) (s : string) :
  startswith (String c "") s =
  match s with String c' _ => Ascii.eqb c c' | EmptyString => false end.
Proof.
  unfold startswith. destruct s as [| c' s]; simpl; [reflexivity |].
  destruct (ascii_dec c c') as [-> | n].
  - rewrite Ascii.eqb_refl. destruct s; reflexivity.
  - symmetry. apply Ascii.eqb_neq, n.
Qed.

(** [c in s], for a string of one character, is an occurrence of it. *)
Lemma str_in_char (c : ascii) (s : string) :
  str_in (String c "") s = occurs c s.
Proof.
  induction s as [| c' s IH].
  - reflexivity.
  - cbn [str_in occurs]. rewrite startswith_char, IH. reflexivity.
Qed.

Lemma rev_string_rev_string (s a b : string) :
  rev_string a (rev_string b s) = rev_string (s ++ a) b.
Proof.
  revert a b. induction s as [| c s IH]; intros a b; simpl.
  - reflexivity.
  - rewrite IH. reflexivity.
Qed.

Lemma rev_string_involutive (s : string) :
  rev_string "" (rev_string "" s) = s.
Proof. rewrite rev_string_rev_string. simpl. apply sapp_nil_r. Qed.

Lemma rev_string_acc (s acc : string) :
  rev_string acc s = (rev_string "" s ++ acc)%string.
Proof.
  revert acc. induction s as [| c s IH]; intros acc; simpl.
  - reflexivity.
  - rewrite (IH (String c acc)), (IH (String c "")), sapp_assoc. reflexivity.
Qed.

Lemma rev_string_app (a b : string) :
  rev_string "" (a ++ b) = (rev_string "" b ++ rev_string "" a)%string.
Proof.
  induction a as [| c a IH]; simpl.
  - symmetry. apply sapp_nil_r.
  - rewrite (rev_string_acc (a ++ b) (String c "")), IH.
    rewrite (rev_string_acc a (String c "")), sapp_assoc. reflexivity.
Qed.

Lemma all_chars_app (p : ascii -> bool) (a b : string) :
  all_chars p (a ++ b) = (all_chars p a && all_chars p b)%bool.
Proof.
  induction a as [| c a IH]; simpl; [reflexivity |].
  rewrite IH. apply andb_assoc.
Qed.

Lemma all_chars_rev (p : ascii -> bool) (s : string) :
  all_chars p (rev_string "" s) = all_chars p s.
Proof.
  induction s as [| c s IH]; simpl; [reflexivity |].
  rewrite rev_string_acc, all_chars_app, IH. simpl.
  rewrite andb_true_r. apply andb_comm.
Qed.

(** Splitting at a character: the text before its first occurrence is the
    first piece. *)
Lemma split_from_no_sep (c : ascii) (x cur rest : string) :
  occurs c x = false ->
  split_from (String c "") 0 cur (x ++ rest)
  = split_from (String c "") 0 (rev_string cur x) rest.
Proof.
  revert cur. induction x as [| c' x IH]; intros cur H.
  - reflexivity.
  - cbn [occurs] in H. apply orb_false_iff in H. destruct H as [Hc Hx].
    cbn [String.append split_from rev_string].
    rewrite startswith_char, Hc. apply IH, Hx.
Qed.

Lemma split_one_sep (c : ascii) (x d : string) :
  occurs c x = false -> occurs c d = false ->
  str_split (String c "") (x ++ String c d) = [x; d].
Proof.
  intros Hx Hd. unfold str_split.
  rewrite split_from_no_sep by exact Hx.
  cbn [split_from]. rewrite startswith_char, Ascii.eqb_refl.
  rewrite rev_string_involutive. f_equal.
  cbn [String.length Nat.sub].
  rewrite <- (sapp_nil_r d) at 1.
  rewrite split_from_no_sep by exact Hd.
  cbn [split_from]. rewrite rev_string_involutive. reflexivity.
Qed.

(** *** The matcher *)

Lemma orelse_Some {A : Type} (x y : option A) (a : A) :
  orelse x y = Some a -> x = Some a \/ y = Some a.
Proof. destruct x; simpl; intros H; [left | right]; exact H. Qed.

Section Soundness.
Context {A : Type}.

Lemma star_loop_sound (m : string -> (string -> option A) -> option A)
  (r : regex) (Hm : sound m r) (k : string -> option A) (n : nat) :
  forall s x, star_loop m k n s = Some x ->
  exists a s', s = (a ++ s')%string /\ matches (Star r) a /\ k s' = Some x.
Proof.
  induction n as [| n IH]; intros s x H; simpl in H.
  - exists "", s. repeat split; [constructor | exact H].
  - apply orelse_Some in H. destruct H as [H | H].
    + apply Hm in H. destruct H as [a [s1 [-> [Ha H]]]].
      destruct (Nat.ltb _ _); [| discriminate].
      apply IH in H. destruct H as [b [s2 [-> [Hb H]]]].
      exists (a ++ b)%string, s2. rewrite sapp_assoc.
      repeat split; [constructor; assumption | exact H].
    + exists "", s. repeat split; [constructor | exact H].
Qed.

(** What the matcher consumes is a string of the pattern. *)
Lemma rmatch_sound (r : regex) : sound (A := A) (rmatch r) r.
Proof.
  induction r as [| p | r1 IH1 r2 IH2 | r1 IH1 r2 IH2 | r1 IH1];
    intros s k x H; simpl in H.
  - exists "", s. repeat split; [constructor | exact H].
  - destruct s as [| c s]; [discriminate |].
    destruct (p c) eqn:E; [| discriminate].
    exists (String c ""), s. repeat split; [constructor; exact E | exact H].
  - apply IH1 in H. destruct H as [a [s1 [-> [Ha H]]]].
    apply IH2 in H. destruct H as [b [s2 [-> [Hb H]]]].
    exists (a ++ b)%string, s2. rewrite sapp_assoc.
    repeat split; [constructor; assumption | exact H].
  - apply orelse_Some in H. destruct H as [H | H].
    + apply IH1 in H. destruct H as [a [s1 [-> [Ha H]]]].
      exists a, s1. repeat split; [apply M_AltL; exact Ha | exact H].
    + apply IH2 in H. destruct H as [a [s1 [-> [Ha H]]]].
      exists a, s1. repeat split; [apply M_AltR; exact Ha | exact H].
  - eapply star_loop_sound; [exact IH1 | exact H].
Qed.
End Soundness.

Lemma matches_Seq (r1 r2 : regex) (s : string) :
  matches (Seq r1 r2) s ->
  exists a b, s = (a ++ b)%string /\ matches r1 a /\ matches r2 b.
Proof. intros H. inversion H; subst. eauto. Qed.

Lemma matches_Alt (r1 r2 : regex) (s : string) :
  matches (Alt r1 r2) s -> matches r1 s \/ matches r2 s.
Proof. intros H. inversion H; subst; auto. Qed.

Lemma matches_Chr (p : ascii -> bool) (s : string) :
  matches (Chr p) s -> exists c, s = String c "" /\ p c = true.
Proof. intros H. inversion H; subst. eauto. Qed.

Lemma matches_Eps (s : string) : matches Eps s -> s = "".
Proof. intros H. inversion H. reflexivity. Qed.

(** A character that every class of the pattern refuses is in no string
    of the pattern. *)
Lemma rejects_occurs (c : ascii) (r : regex) (s : string) :
  rejects c r = true -> matches r s -> occurs c s = false.
Proof.
  intros Hr Hm. induction Hm; simpl in *;
    try (apply andb_true_iff in Hr; destruct Hr as [Hr1 Hr2]).
  - reflexivity.
  - rewrite orb_false_r. apply negb_true_iff in Hr.
    destruct (Ascii.eqb_spec c c0); [subst; congruence | reflexivity].
  - rewrite occurs_app, IHHm1, IHHm2 by assumption. reflexivity.
  - auto.
  - auto.
  - reflexivity.
  - rewrite occurs_app, IHHm1, IHHm2 by assumption. reflexivity.
Qed.

Lemma search_Some {G : Type} (m : string -> option (G * string)) (s : string)
  (g : G) (rest : string) :
  search m s = Some (g, rest) ->
  exists pre t, s = (pre ++ t)%string /\ m t = Some (g, rest).
Proof.
  induction s as [| c s IH]; simpl; intros H.
  - apply orelse_Some in H. destruct H as [H | H]; [| discriminate].
    exists "", "". split; [reflexivity | exact H].
  - apply orelse_Some in H. destruct H as [H | H].
    + exists "", (String c s). split; [reflexivity | exact H].
    + destruct (IH H) as [pre [t [-> Ht]]].
      exists (String c pre), t. split; [reflexivity | exact Ht].
Qed.

Lemma findall_head {G : Type} (m : string -> option (G * string)) (s : string)
  (g : G) (gs : list G) :
  findall m s = g :: gs ->
  exists pre t rest, s = (pre ++ t)%string /\ m t = Some (g, rest).
Proof.
  unfold findall. simpl. destruct (search m s) as [[g' rest] |] eqn:E.
  - intros H. inversion H; subst.
    destruct (search_Some _ _ _ _ E) as [pre [t [Hs Ht]]].
    exists pre, t, rest. split; assumption.
  - discriminate.
Qed.

Lemma findall_nil {G : Type} (m : string -> option (G * string)) (s : string) :
  findall m s = [] <-> search m s = None.
Proof.
  unfold findall. simpl. destruct (search m s) as [[g rest] |]; split;
    intros H; try discriminate; reflexivity.
Qed.

(** A match of [POSITION_REX] is a string of [POS] followed by the
    captured literal, a string of the group. *)
Lemma POSITION_REX_match_sound (s lit rest : string) :
  POSITION_REX_match s = Some (lit, rest) ->
  exists a, s = (a ++ lit ++ rest)%string
            /\ matches POS a /\ matches POSITION_GROUP lit.
Proof.
  unfold POSITION_REX_match. intros H.
  apply rmatch_sound in H. destruct H as [a [s1 [-> [Ha H]]]].
  apply rmatch_sound in H. destruct H as [b [s2 [-> [Hb H]]]].
  rewrite take_consumed in H. inversion H; subst.
  exists a. auto.
Qed.

Lemma POSITION_REX_findall_head (path lit : string) (others : list string) :
  POSITION_REX_findall path = lit :: others -> matches POSITION_GROUP lit.
Proof.
  intros H. apply findall_head in H. destruct H as [pre [t [rest [_ H]]]].
  apply POSITION_REX_match_sound in H. destruct H as [a [_ [_ H]]]. exact H.
Qed.

(** The captured literal holds at most one "+": it is either free of it,
    or a scientific term and an offset around it. *)
Lemma position_literal_shape (lit : string) :
  matches POSITION_GROUP lit ->
  occurs "+" lit = false
  \/ exists sc_num num, lit = (sc_num ++ String "+" num)%string
       /\ occurs "+" sc_num = false /\ occurs "+" num = false.
Proof.
  intros H. apply matches_Alt in H. destruct H as [H | H].
  - unfold SC_NOTATION in H.
    apply matches_Seq in H. destruct H as [a [s1 [-> [Ha H]]]].
    apply matches_Seq in H. destruct H as [b [s2 [-> [Hb H]]]].
    apply matches_Seq in H. destruct H as [c [o [-> [Hc H]]]].
    apply (rejects_occurs "+") in Ha; [| reflexivity].
    apply (rejects_occurs "+") in Hb; [| reflexivity].
    apply (rejects_occurs "+") in Hc; [| reflexivity].
    apply matches_Alt in H. destruct H as [H | H].
    + right. apply matches_Seq in H. destruct H as [p [d [-> [Hp Hd]]]].
      apply matches_Chr in Hp. destruct Hp as [c0 [-> Hp]].
      unfold char in Hp. apply Ascii.eqb_eq in Hp. subst c0.
      apply (rejects_occurs "+") in Hd; [| reflexivity].
      exists (a ++ b ++ c)%string, d. split; [| split].
      * simpl. rewrite !sapp_assoc. reflexivity.
      * rewrite !occurs_app, Ha, Hb, Hc. reflexivity.
      * exact Hd.
    + left. apply matches_Eps in H. subst o.
      rewrite !occurs_app, Ha, Hb, Hc. reflexivity.
  - left. apply (rejects_occurs "+") in H; [exact H | reflexivity].
Qed.

(** *** The position of a path *)

Example position_plain : position_of_path "exp/Position001/out_all" = Ok 1.
Proof. vm_compute. reflexivity. Qed.

Example position_scientific : position_of_path "exp/pos2.5e3/out_all" = Ok 2500.
Proof. vm_compute. reflexivity. Qed.

Example position_offset : position_of_path "exp/pos2.5e3+100/out_all" = Ok 2600.
Proof. vm_compute. reflexivity. Qed.

Example position_negative_exponent : position_of_path "p_1999e-3" = Ok 1.
Proof. vm_compute. reflexivity. Qed.

Example position_two_dots :
  position_of_path "pos1.2.3e4" = Error (FloatValueError "1.2.3e4").
Proof. vm_compute. reflexivity. Qed.

(** C4, as the code has it.  When the first literal that [POSITION_REX]
    captures holds a "+", it is a scientific term and an offset around
    exactly one "+", the split yields these two, and the position is the
    sum of their conversions through float to int; when it holds none, the
    position is the conversion of the whole literal.  A conversion that
    raises makes the codec raise. *)
Theorem position_from_literal (path lit : string) (others : list string) :
  POSITION_REX_findall path = lit :: others ->
  (str_in "+" lit = true ->
   exists sc_num num,
     lit = (sc_num ++ "+" ++ num)%string
     /\ str_split "+" lit = [sc_num; num]
     /\ position_of_path path
        = (a <- int_float sc_num ;; b <- int_float num ;; Ok (a + b)))
  /\ (str_in "+" lit = false -> position_of_path path = int_float lit).
Proof.
  intros Hfind. pose proof (POSITION_REX_findall_head _ _ _ Hfind) as Hlit.
  unfold position_of_path. rewrite Hfind. split; intros Hplus; rewrite Hplus.
  - rewrite str_in_char in Hplus.
    destruct (position_literal_shape _ Hlit) as [Hno | [sc_num [num [-> [Hsc Hnum]]]]].
    + congruence.
    + exists sc_num, num.
      rewrite (split_one_sep "+" sc_num num Hsc Hnum).
      repeat split; reflexivity.
  - reflexivity.
Qed.

Lemma position_from_literal_witness :
  POSITION_REX_findall "exp/pos2.5e3+100/out_all" = ["2.5e3+100"]
  /\ str_in "+" "2.5e3+100" = true
  /\ (exists sc_num num,
        "2.5e3+100" = (sc_num ++ "+" ++ num)%string
        /\ str_split "+" "2.5e3+100" = [sc_num; num]
        /\ position_of_path "exp/pos2.5e3+100/out_all"
           = (a <- int_float sc_num ;; b <- int_float num ;; Ok (a + b)))
  /\ int_float "2.5e3" = Ok 2500
  /\ int_float "100" = Ok 100.
Proof.
  split; [vm_compute; reflexivity |].
  split; [vm_compute; reflexivity |].
  split.
  - apply (proj1 (position_from_literal "exp/pos2.5e3+100/out_all" "2.5e3+100" []
                    eq_refl)).
    vm_compute. reflexivity.
  - split; vm_compute; reflexivity.
Defined.

(** C4, the example of the specification.  In the path pos2.5e+3-100 the
    pattern captures the literal 2 alone: an exponent admits a minus and
    no plus.  There is no split and no sum, the position is 2; the text
    2.5e+3-100 split at its plus gives two pieces that are not numbers. *)
Lemma offset_example_is_not_an_offset :
  POSITION_REX_findall "pos2.5e+3-100" = ["2"]
  /\ str_in "+" "2" = false
  /\ position_of_path "pos2.5e+3-100" = Ok 2
  /\ str_split "+" "2.5e+3-100" = ["2.5e"; "3-100"]
  /\ int_float "2.5e" = Error (FloatValueError "2.5e")
  /\ int_float "3-100" = Error (FloatValueError "3-100").
Proof. repeat split; vm_compute; reflexivity. Qed.

(** *** The unique cell identifier *)

Example ucid_base_small : ucid_base 3 = Ok 300000000000.
Proof. vm_compute. reflexivity. Qed.

(** C1.  [calc = int(pos * 1e11)] is a product of floats, and at position
    184467441 the product 18446744100000000000 is not a binary64 number:
    it is rounded to 18446744099999997952, and every ucid of that file is
    2048 below position * 100000000000 + cellID. *)
Theorem ucid_is_rounded_at_position_184467441 :
  position_of_path "exp/Position184467441/out_all" = Ok 184467441
  /\ ucid_base 184467441 = Ok 18446744099999997952
  /\ 184467441 * 100000000000 = 18446744100000000000
  /\ exists df,
       make_df far_position "exp/Position184467441/out_all" = Ok df
       /\ getcol df "cellID" = Ok [VInt 0; VInt 0; VInt 1; VInt 1; VInt 2]
       /\ getcol df "pos"
          = Ok [VInt 184467441; VInt 184467441; VInt 184467441;
                VInt 184467441; VInt 184467441]
       /\ getcol df "ucid"
          = Ok [VInt 18446744099999997952; VInt 18446744099999997952;
                VInt 18446744099999997953; VInt 18446744099999997953;
                VInt 18446744099999997954].
Proof.
  split; [vm_compute; reflexivity |].
  split; [vm_compute; reflexivity |].
  split; [reflexivity |].
  eexists. split; [vm_compute; reflexivity |].
  repeat split; vm_compute; reflexivity.
Qed.

(** *** Keys *)

Lemma key_eqb_eq (a b : key) : key_eqb a b = true <-> a = b.
Proof.
  destruct a, b; simpl; split; intros H; try discriminate; try reflexivity.
  - apply andb_true_iff in H. destruct H as [H1 H2].
    apply Z.eqb_eq in H1, H2. congruence.
  - inversion H; subst. rewrite !Z.eqb_refl. reflexivity.
  - apply String.eqb_eq in H. congruence.
  - inversion H. apply String.eqb_refl.
Qed.

Lemma same_key_eq (a b : value) : same_key a b = true <-> key_of a = key_of b.
Proof. apply key_eqb_eq. Qed.

Lemma same_key_congr (a b b' : value) :
  key_of b = key_of b' -> same_key a b = same_key a b'.
Proof. unfold same_key. intros ->. reflexivity. Qed.

Lemma py_eq_congr (a b b' : value) :
  key_of b = key_of b' -> py_eq a b = py_eq a b'.
Proof. unfold py_eq. intros H. rewrite (same_key_congr a b b' H). reflexivity. Qed.

Lemma py_eq_same_key (a b : value) : py_eq a b = true -> key_of a = key_of b.
Proof.
  unfold py_eq. intros H. apply andb_true_iff in H. apply same_key_eq, H.
Qed.

Lemma same_tuple_eq (a b : list value) :
  same_tuple a b = true <-> map key_of a = map key_of b.
Proof.
  revert b. induction a as [| x a IH]; intros [| y b]; simpl;
    split; intros H; try discriminate; try reflexivity.
  - apply andb_true_iff in H. destruct H as [H1 H2].
    apply same_key_eq in H1. apply IH in H2. congruence.
  - inversion H. apply andb_true_iff. split.
    + apply same_key_eq. assumption.
    + apply IH. assumption.
Qed.

Section Unique.
Context {A K : Type} (eqb : A -> A -> bool) (f : A -> K).
Hypothesis eqb_eq : forall a b, eqb a b = true <-> f a = f b.

(** Every element has a representative among the distinct ones. *)
Lemma unique_by_represents (l : list A) (x : A) :
  In x l -> exists y, In y (unique_by eqb l) /\ f y = f x.
Proof.
  induction l as [| x0 l IH]; simpl; intros H.
  - contradiction.
  - destruct H as [-> | H].
    + exists x. split; [left; reflexivity | reflexivity].
    + destruct (IH H) as [y [Hy Hf]].
      destruct (eqb x0 y) eqn:E.
      * exists x0. split; [left; reflexivity |].
        apply eqb_eq in E. congruence.
      * exists y. split; [| exact Hf].
        right. apply filter_In. split; [exact Hy |]. rewrite E. reflexivity.
Qed.

Lemma unique_by_incl (l : list A) (x : A) : In x (unique_by eqb l) -> In x l.
Proof.
  revert x. induction l as [| x0 l IH]; simpl; intros x H.
  - contradiction.
  - destruct H as [H | H]; [left; exact H |].
    apply filter_In in H. right. apply IH, H.
Qed.
End Unique.

Lemma insert_sorted_In (k x : list value) (l : list (list value)) :
  In x (insert_sorted k l) <-> x = k \/ In x l.
Proof.
  induction l as [| y l IH]; simpl.
  - intuition congruence.
  - destruct (tuple_cmp k y); simpl; rewrite ?IH; intuition congruence.
Qed.

Lemma sort_keys_In (x : list value) (l : list (list value)) :
  In x (sort_keys l) <-> In x l.
Proof.
  unfold sort_keys. induction l as [| y l IH]; simpl.
  - tauto.
  - rewrite insert_sorted_In, IH. intuition congruence.
Qed.

(** *** The channel of a flag *)

Example decod_chanel_yfp : _decod_chanel mapping_table (VInt 1) = Ok "yfp".
Proof. vm_compute. reflexivity. Qed.

Example cellID_is_no_channel : CHANNEL_REX_findall "cellID" = [].
Proof. vm_compute. reflexivity. Qed.

Lemma descriptor_congr (df_mapping : DataFrame) (flag flag' : value) :
  key_of flag = key_of flag' ->
  descriptor df_mapping flag = descriptor df_mapping flag'.
Proof.
  intros H. unfold descriptor.
  destruct (pos_of df_mapping "flag") as [fpos |]; simpl; [| reflexivity].
  rewrite (filter_ext _ (fun row => py_eq (cell fpos row) flag'));
    [reflexivity |].
  intros row. apply py_eq_congr, H.
Qed.

(** A flag with a descriptor stands in the flag column. *)
Lemma descriptor_Ok_flag (df_mapping : DataFrame) (flag v : value) :
  descriptor df_mapping flag = Ok v ->
  exists flags c,
    getcol df_mapping "flag" = Ok flags /\ In c flags /\ key_of c = key_of flag.
Proof.
  unfold descriptor, getcol. intros H. inv_bind H as fpos Hfpos. rewrite Hfpos.
  inv_bind H as fluor Hfluor. inv_bind Hfluor as i Hi.
  inversion Hfluor; subst; clear Hfluor. simpl in H.
  destruct (filter _ (rows df_mapping)) as [| row sel] eqn:E; [discriminate |].
  assert (Hrow : In row (filter (fun row => py_eq (cell fpos row) flag)
                                (rows df_mapping))).
  { rewrite E. left. reflexivity. }
  apply filter_In in Hrow. destruct Hrow as [Hin Heq].
  exists (map (cell fpos) (rows df_mapping)), (cell fpos row). simpl.
  split; [reflexivity |]. split.
  - apply in_map, Hin.
  - apply py_eq_same_key, Heq.
Qed.

Lemma decod_chanel_unmatched (df_mapping : DataFrame) (flag : value) (d : string) :
  descriptor df_mapping flag = Ok (VStr d) -> d <> "" ->
  CHANNEL_REX_findall d = [] ->
  _decod_chanel df_mapping flag = Error IndexError.
Proof.
  intros Hd Hne Hre. unfold _decod_chanel. rewrite Hd. simpl.
  apply String.eqb_neq in Hne. rewrite Hne. simpl. rewrite Hre. reflexivity.
Qed.

(** A flag of the metadata table whose decoding raises makes the
    reshaping raise, whatever the data table. *)
Lemma make_cols_chan_decoding_fails (df df_map : DataFrame) (flag v : value) :
  descriptor df_map flag = Ok v ->
  (forall flag', key_of flag' = key_of flag ->
                 exists e', _decod_chanel df_map flag' = Error e') ->
  exists e', _make_cols_chan df df_map = Error e'.
Proof.
  intros Hd Hfail. unfold _make_cols_chan, chanels_of.
  destruct (pivot df _ _ _) as [df_flag | e0]; simpl; [| eauto].
  destruct (descriptor_Ok_flag _ _ _ Hd) as [flags [c [-> [Hc Hkey]]]]. simpl.
  destruct (unique_by_represents same_key key_of same_key_eq flags c Hc)
    as [y [Hy Hyc]].
  destruct (Hfail y) as [e1 He1]; [congruence |].
  destruct (mapM_fails (fun fg => c0 <- _decod_chanel df_map fg ;; Ok (fg, c0))
              (unique_by same_key flags) y e1 Hy) as [e2 ->].
  - rewrite He1. reflexivity.
  - simpl. eauto.
Qed.

(** C9.  A flag whose descriptor is a non-empty string that
    [CHANNEL_REX] does not match makes the decoder raise [IndexError]
    (the first element of an empty list of matches), and then no data
    table is reshaped with that metadata table: every flag of the
    metadata table is decoded, whether the data use it or not. *)
Theorem unmatched_descriptor_fails (df_map : DataFrame) (flag : value) (d : string) :
  descriptor df_map flag = Ok (VStr d) -> d <> "" ->
  CHANNEL_REX_findall d = [] ->
  _decod_chanel df_map flag = Error IndexError
  /\ forall df, exists e, _make_cols_chan df df_map = Error e.
Proof.
  intros Hd Hne Hre. split.
  - apply (decod_chanel_unmatched _ _ d); assumption.
  - intros df. apply (make_cols_chan_decoding_fails df df_map flag (VStr d)).
    + exact Hd.
    + intros flag' Hkey. exists IndexError.
      apply (decod_chanel_unmatched _ _ d); try assumption.
      rewrite (descriptor_congr _ flag' flag Hkey). exact Hd.
Qed.

Lemma unmatched_descriptor_fails_witness :
  descriptor cellID_mapping_table (VInt 0) = Ok (VStr "cellID")
  /\ CHANNEL_REX_findall "cellID" = []
  /\ _decod_chanel cellID_mapping_table (VInt 0) = Error IndexError
  /\ (forall df, exists e, _make_cols_chan df cellID_mapping_table = Error e)
  /\ _make_cols_chan made_table cellID_mapping_table = Error IndexError.
Proof.
  split; [vm_compute; reflexivity |].
  split; [vm_compute; reflexivity |].
  assert (H := unmatched_descriptor_fails cellID_mapping_table (VInt 0) "cellID").
  assert (Hne : "cellID" <> "") by discriminate.
  destruct (H eq_refl Hne eq_refl) as [H1 H2].
  split; [exact H1 |]. split; [exact H2 |].
  vm_compute. reflexivity.
Defined.

(** *** Flags without a channel *)

Lemma dyadic_not_nan (m e : Z) : dyadic m e <> KNaN.
Proof.
  unfold dyadic. destruct m as [| p | p]; try destruct (odd_part p); discriminate.
Qed.

Lemma is_nan_key (v : value) : is_nan v = true <-> key_of v = KNaN.
Proof.
  destruct v as [z | x | s]; simpl.
  - split; [discriminate |]. intros H. exfalso. exact (dyadic_not_nan _ _ H).
  - destruct x as [b | b | | b m e]; simpl; try destruct b;
      split; intros H; try discriminate; try reflexivity;
      exfalso; exact (dyadic_not_nan _ _ H).
  - split; discriminate.
Qed.

Lemma is_nan_congr (a a' : value) : key_of a = key_of a' -> is_nan a = is_nan a'.
Proof.
  intros H. destruct (is_nan a) eqn:Ea; symmetry.
  - apply is_nan_key. rewrite <- H. apply is_nan_key, Ea.
  - destruct (is_nan a') eqn:Ea'; [| reflexivity].
    apply is_nan_key in Ea'. rewrite <- H in Ea'. apply is_nan_key in Ea'.
    congruence.
Qed.

Lemma py_eq_congr_l (a a' b : value) :
  key_of a = key_of a' -> py_eq a b = py_eq a' b.
Proof.
  intros H. unfold py_eq, same_key. rewrite H, (is_nan_congr a a' H). reflexivity.
Qed.

Lemma mapM_Error_In {A B : Type} (f : A -> result B) (l : list A) (e : exn) :
  mapM f l = Error e -> exists x, In x l /\ f x = Error e.
Proof.
  induction l as [| a l IH]; simpl; intros H.
  - discriminate.
  - destruct (f a) as [b | e0] eqn:Ea; simpl in H.
    + destruct (mapM f l) as [bs | e1]; simpl in H; [discriminate |].
      destruct (IH H) as [x [Hx Hf]]. exists x. split; [right; exact Hx | exact Hf].
    + exists a. split; [left; reflexivity | congruence].
Qed.

Lemma dict_get_Error (d : list (value * string)) (fg : value) (e : exn) :
  dict_get d fg = Error e ->
  e = KeyError fg /\ Forall (fun kc => py_eq (fst kc) fg = false) d.
Proof.
  induction d as [| [k c] d IH]; simpl; intros H.
  - inversion H. split; [reflexivity | constructor].
  - destruct (py_eq k fg) eqn:E; [discriminate |].
    destruct (IH H) as [He Hd]. split; [exact He |].
    constructor; [exact E | exact Hd].
Qed.

Lemma dict_get_misses (d : list (value * string)) (fg : value) :
  Forall (fun kc => py_eq (fst kc) fg = false) d ->
  dict_get d fg = Error (KeyError fg).
Proof.
  induction 1 as [| [k c] d Hk _ IH]; simpl; [reflexivity |].
  simpl in Hk. rewrite Hk. exact IH.
Qed.

(** The keys of the dictionary are the distinct flags of the metadata
    table. *)
Lemma chanels_of_keys (df_map : DataFrame) (chanels : list (value * string)) :
  chanels_of df_map = Ok chanels ->
  exists flags, getcol df_map "flag" = Ok flags
                /\ map fst chanels = unique_by same_key flags.
Proof.
  unfold chanels_of. intros H. inv_bind H as flags Hflags.
  exists flags. split; [exact Hflags |].
  apply mapM_Ok_Forall2 in H.
  induction H as [| fg kc l ch Hfg _ IH]; simpl; [reflexivity |].
  inv_bind Hfg as c Hc. inversion Hfg; subst. simpl. congruence.
Qed.

(** A flag the metadata table does not list is no key of the dictionary. *)
Lemma unlisted_flag_misses (df_map : DataFrame) (chanels : list (value * string))
  (flags : list value) (fg : value) :
  chanels_of df_map = Ok chanels ->
  getcol df_map "flag" = Ok flags ->
  (forall c, In c flags -> py_eq c fg = false) ->
  dict_get chanels fg = Error (KeyError fg).
Proof.
  intros Hch Hflags Hmiss. apply dict_get_misses.
  destruct (chanels_of_keys _ _ Hch) as [flags' [Hflags' Hkeys]].
  assert (flags' = flags) by congruence. subst flags'.
  apply Forall_forall. intros kc Hkc. apply Hmiss.
  apply (unique_by_incl same_key). rewrite <- Hkeys. apply in_map, Hkc.
Qed.

(** ... and a key the dictionary lacks is a flag the table does not list. *)
Lemma missed_flag_unlisted (df_map : DataFrame) (chanels : list (value * string))
  (flags : list value) (fg : value) :
  chanels_of df_map = Ok chanels ->
  getcol df_map "flag" = Ok flags ->
  Forall (fun kc => py_eq (fst kc) fg = false) chanels ->
  forall c, In c flags -> py_eq c fg = false.
Proof.
  intros Hch Hflags Hall c Hc.
  destruct (chanels_of_keys _ _ Hch) as [flags' [Hflags' Hkeys]].
  assert (flags' = flags) by congruence. subst flags'.
  destruct (unique_by_represents same_key key_of same_key_eq flags c Hc)
    as [y [Hy Hyc]].
  rewrite <- Hkeys in Hy. apply in_map_iff in Hy. destruct Hy as [kc [<- Hkc]].
  rewrite Forall_forall in Hall. rewrite <- (py_eq_congr_l _ _ fg Hyc).
  apply Hall, Hkc.
Qed.

(** The flags in the labels of a pivot are those of the flag column, and
    every flag of the column is there with every value column. *)
Lemma pivot_labels_flags (df : DataFrame) (index : list string) (col : string)
  (values : list string) (p : Frame (string * value)) :
  pivot df index col values = Ok p ->
  exists flags,
    getcol df col = Ok flags
    /\ (forall n, In n (labels p) -> In (snd n) flags)
    /\ (forall v fg, In v values -> In fg flags ->
        exists fg', In (v, fg') (labels p) /\ key_of fg' = key_of fg).
Proof.
  unfold pivot, getcol. intros H.
  inv_bind H as ipos Hipos. inv_bind H as fpos Hfpos. rewrite Hfpos.
  inv_bind H as vpos Hvpos.
  destruct (has_duplicate same_record _); [discriminate |].
  inversion H; subst; clear H. simpl.
  exists (map (cell fpos) (rows df)). split; [reflexivity |].
  rewrite map_map. simpl. split.
  - intros n Hn. apply in_flat_map in Hn. destruct Hn as [v [_ Hn]].
    apply in_map_iff in Hn. destruct Hn as [f [<- Hf]]. simpl.
    apply in_map_iff in Hf. destruct Hf as [t [<- Ht]].
    apply (proj1 (sort_keys_In _ _)) in Ht. apply (unique_by_incl same_tuple) in Ht.
    apply in_map_iff in Ht. destruct Ht as [row [<- Hrow]]. simpl.
    apply in_map, Hrow.
  - intros v fg Hv Hfg. apply in_map_iff in Hfg. destruct Hfg as [row [<- Hrow]].
    destruct (unique_by_represents same_tuple (map key_of) same_tuple_eq
                (map (fun row => [cell fpos row]) (rows df)) [cell fpos row])
      as [t [Ht Hkey]].
    { apply in_map_iff. exists row. split; [reflexivity | exact Hrow]. }
    destruct t as [| fg' [| ? ?]]; try discriminate Hkey.
    simpl in Hkey. injection Hkey as Hk.
    exists fg'. split; [| exact Hk].
    apply in_flat_map. exists v. split; [exact Hv |].
    apply in_map. apply in_map_iff. exists [fg']. split; [reflexivity |].
    apply sort_keys_In, Ht.
Qed.

(** The entry of a flag: the descriptor of the first row that holds it. *)
Lemma descriptor_first (df_mapping : DataFrame) (before after : list (list value))
  (row : list value) (fpos lpos : nat) (flag : value) :
  position "flag" (columns df_mapping) = Some fpos ->
  position "fluor" (columns df_mapping) = Some lpos ->
  rows df_mapping = before ++ row :: after ->
  (forall r, In r before -> py_eq (cell fpos r) flag = false) ->
  py_eq (cell fpos row) flag = true ->
  descriptor df_mapping flag = Ok (cell lpos row).
Proof.
  intros Hf Hl Hrows Hbefore Hrow. unfold descriptor, getcol, pos_of.
  rewrite Hf. simpl. rewrite Hl. simpl. rewrite Hrows, filter_app.
  assert (Hnil : filter (fun r => py_eq (cell fpos r) flag) before = []).
  { clear Hrows. induction before as [| r before IH]; simpl; [reflexivity |].
    rewrite (Hbefore r) by (left; reflexivity).
    apply IH. intros r' Hr'. apply Hbefore. right. exact Hr'. }
  rewrite Hnil. simpl. rewrite Hrow. reflexivity.
Qed.

(** C5.  (1) A data table with a fluorescence column and a flag that the
    metadata table does not list is not reshaped: the call raises, and
    when the pivot and the decoding of the listed flags go through, what
    is raised is the [KeyError] of a flag of the data that the metadata do
    not list.  (2) An entry of the metadata table (the first row of its
    flag) whose descriptor is empty or zero makes the decoder raise the
    [ValueError] that carries the flag and the metadata table. *)
Theorem flag_without_channel_raises :
  (forall (df df_map : DataFrame) (v : string) (flags mflags : list value) (fg : value),
     In v (columns df) -> is_fluor v = true ->
     getcol df "flag" = Ok flags -> In fg flags ->
     getcol df_map "flag" = Ok mflags ->
     (forall c, In c mflags -> py_eq c fg = false) ->
     exists e,
       _make_cols_chan df df_map = Error e
       /\ forall p chanels,
            pivot df ["ucid"; "t_frame"] "flag" (filter is_fluor (columns df)) = Ok p ->
            chanels_of df_map = Ok chanels ->
            exists fg', e = KeyError fg' /\ In fg' flags
                        /\ forall c, In c mflags -> py_eq c fg' = false)
  /\ (forall (df_mapping : DataFrame) (before after : list (list value))
        (row : list value) (fpos lpos : nat),
     position "flag" (columns df_mapping) = Some fpos ->
     position "fluor" (columns df_mapping) = Some lpos ->
     rows df_mapping = before ++ row :: after ->
     (forall r, In r before -> py_eq (cell fpos r) (cell fpos row) = false) ->
     is_nan (cell fpos row) = false ->
     truthy (cell lpos row) = false ->
     _decod_chanel df_mapping (cell fpos row)
     = Error (NotEncodingValueError (cell fpos row) df_mapping)).
Proof.
  split.
  - intros df df_map v flags mflags fg Hv Hfluor Hflags Hfg Hmflags Hmiss.
    unfold _make_cols_chan.
    destruct (pivot df _ _ _) as [p | e0] eqn:Hp; cbn [bind].
    2:{ exists e0. split; [reflexivity |]. intros p ch H. discriminate H. }
    destruct (chanels_of df_map) as [chanels | e1] eqn:Hch; cbn [bind].
    2:{ exists e1. split; [reflexivity |]. intros p' ch _ H. discriminate H. }
    destruct (pivot_labels_flags _ _ _ _ _ Hp) as [flags' [Hflags' [Hsub Hall]]].
    assert (flags' = flags) by congruence. subst flags'.
    destruct (Hall v fg) as [fg1 [Hlabel Hkey]]; [| exact Hfg |].
    { apply filter_In. split; assumption. }
    assert (Hmiss1 : dict_get chanels fg1 = Error (KeyError fg1)).
    { apply (unlisted_flag_misses df_map chanels mflags fg1 Hch Hmflags).
      intros c0 Hc0. rewrite <- (py_eq_congr c0 fg fg1) by (symmetry; exact Hkey).
      apply Hmiss, Hc0. }
    destruct (mapM_fails
                (fun n => c <- dict_get chanels (snd n) ;; Ok (fst n ++ "_" ++ c)%string)
                (labels p) (v, fg1) (KeyError fg1) Hlabel) as [e2 Hnames].
    { simpl. rewrite Hmiss1. reflexivity. }
    rewrite Hnames. cbn [bind].
    exists e2. split; [reflexivity |]. intros p' ch Hp' Hch'.
    apply mapM_Error_In in Hnames. destruct Hnames as [n [Hn He]].
    destruct (dict_get chanels (snd n)) as [c |] eqn:Hd; simpl in He;
      [discriminate |].
    inversion He; subst e2.
    apply dict_get_Error in Hd. destruct Hd as [-> Hd].
    exists (snd n). split; [reflexivity |]. split; [apply Hsub, Hn |].
    apply (missed_flag_unlisted df_map chanels); assumption.
  - intros df_mapping before after row fpos lpos Hf Hl Hrows Hbefore Hnan Hfalsy.
    unfold _decod_chanel.
    rewrite (descriptor_first df_mapping before after row fpos lpos (cell fpos row));
      try assumption.
    + simpl. rewrite Hfalsy. reflexivity.
    + unfold py_eq, same_key. rewrite Hnan.
      rewrite (proj2 (key_eqb_eq _ _) eq_refl). reflexivity.
Qed.

Lemma flag_without_channel_raises_witness :
  (exists e,
     _make_cols_chan made_table flag0_only_table = Error e
     /\ forall p chanels,
          pivot made_table ["ucid"; "t_frame"] "flag"
                (filter is_fluor (columns made_table)) = Ok p ->
          chanels_of flag0_only_table = Ok chanels ->
          exists fg', e = KeyError fg'
                      /\ In fg' [VInt 0; VInt 1; VInt 0; VInt 1; VInt 1]
                      /\ forall c, In c [VInt 0] -> py_eq c fg' = false)
  /\ _make_cols_chan made_table flag0_only_table = Error (KeyError (VInt 1))
  /\ _decod_chanel empty_descriptor_table (VInt 1)
     = Error (NotEncodingValueError (VInt 1) empty_descriptor_table).
Proof.
  split; [| split].
  - apply (proj1 flag_without_channel_raises made_table flag0_only_table "f_tot"
                 [VInt 0; VInt 1; VInt 0; VInt 1; VInt 1] [VInt 0] (VInt 1)).
    + simpl. tauto.
    + reflexivity.
    + reflexivity.
    + simpl. tauto.
    + reflexivity.
    + intros c [<- | []]. reflexivity.
  - vm_compute. reflexivity.
  - apply (proj2 flag_without_channel_raises empty_descriptor_table
                 [[VStr "BFP_Position1"; VInt 0]] [] [VStr ""; VInt 1] 1%nat 0%nat).
    + reflexivity.
    + reflexivity.
    + reflexivity.
    + intros r [<- | []]. reflexivity.
    + reflexivity.
    + reflexivity.
Defined.

(** *** The merge of a directory *)

Lemma make_df_without_position (fs : FileSystem) (bad : string) :
  POSITION_REX_findall bad = [] ->
  exists e, make_df fs bad = Error e.
Proof.
  intros H. unfold make_df, position_of_path. rewrite H.
  destruct (read_df fs bad); simpl; eauto.
Qed.

Lemma make_df_readable_without_position (fs : FileSystem) (bad : string)
  (t : DataFrame) :
  POSITION_REX_findall bad = [] -> read_table fs bad = Ok t ->
  make_df fs bad = Error (FileNotFoundError bad).
Proof.
  intros H Hread. unfold make_df, read_df, position_of_path.
  rewrite H, Hread. reflexivity.
Qed.

Lemma merge_loop_aborts (fs : FileSystem) (bad : string) (data_tables : list string) :
  POSITION_REX_findall bad = [] -> In bad data_tables ->
  forall file_mapping df, exists e,
    merge_loop fs data_tables file_mapping df = Error e.
Proof.
  intros Hbad. induction data_tables as [| d data_tables IH]; intros Hin fm df.
  - contradiction.
  - simpl. unfold merge_one at 1.
    destruct (make_df fs d) as [t | e] eqn:Hd; cbn [bind]; [| eauto].
    destruct Hin as [-> | Hin].
    { destruct (make_df_without_position fs bad Hbad) as [e He]. congruence. }
    destruct (next fm) as [[m fm'] | e]; cbn [bind]; [| eauto].
    destruct (read_table fs m) as [df_map | e]; cbn [bind]; [| eauto].
    destruct (_make_cols_chan t df_map) as [df_i | e]; cbn [bind]; [| eauto].
    destruct (pd_concat df df_i) as [df' | e]; cbn [bind]; [| eauto].
    apply IH, Hin.
Qed.

(** C6.  A path in which [POSITION_REX] finds no match: the codec raises
    the error that carries the path; so does [make_df] once the file is
    read, and [merge_tables] when it comes to that file, first or later;
    and a directory that holds such a data file is never merged, no table
    is returned for it. *)
Theorem path_without_position_aborts (fs : FileSystem)
  (path n_data n_mdata bad : string) :
  POSITION_REX_findall bad = [] ->
  position_of_path bad = Error (FileNotFoundError bad)
  /\ (forall t, read_table fs bad = Ok t ->
        make_df fs bad = Error (FileNotFoundError bad)
        /\ (forall data_tables file_mapping df,
              merge_loop fs (bad :: data_tables) file_mapping df
              = Error (FileNotFoundError bad))
        /\ (forall data_tables,
              path_exists fs path = true ->
              rglob fs path n_data = bad :: data_tables ->
              merge_tables fs path n_data n_mdata = Error (FileNotFoundError bad)))
  /\ (In bad (rglob fs path n_data) ->
      exists e, merge_tables fs path n_data n_mdata = Error e).
Proof.
  intros Hbad. split; [| split].
  - unfold position_of_path. rewrite Hbad. reflexivity.
  - intros t Hread.
    pose proof (make_df_readable_without_position fs bad t Hbad Hread) as Hmake.
    split; [exact Hmake |]. split.
    + intros data_tables fm df. simpl. unfold merge_one. rewrite Hmake. reflexivity.
    + intros data_tables Hex Hglob. unfold merge_tables.
      rewrite Hex, Hglob. simpl. unfold merge_one. rewrite Hmake. reflexivity.
  - intros Hin. unfold merge_tables.
    destruct (path_exists fs path); simpl; [| eauto].
    destruct (rglob fs path n_data) as [| d data_tables]; simpl; [eauto |].
    unfold merge_one at 1.
    destruct (make_df fs d) as [t | e] eqn:Hd; cbn [bind]; [| eauto].
    destruct Hin as [-> | Hin].
    { destruct (make_df_without_position fs bad Hbad) as [e He]. congruence. }
    destruct (next _) as [[m fm'] | e]; cbn [bind]; [| eauto].
    destruct (read_table fs m) as [df_map | e]; cbn [bind]; [| eauto].
    destruct (_make_cols_chan t df_map) as [df_i | e]; cbn [bind]; [| eauto].
    apply (merge_loop_aborts fs bad); assumption.
Qed.

Lemma path_without_position_aborts_witness :
  POSITION_REX_findall "exp/out_all" = []
  /\ position_of_path "exp/out_all" = Error (FileNotFoundError "exp/out_all")
  /\ make_df unnamed_position "exp/out_all" = Error (FileNotFoundError "exp/out_all")
  /\ merge_tables unnamed_position "exp" "out_all" "*mapping"
     = Error (FileNotFoundError "exp/out_all").
Proof.
  pose proof (path_without_position_aborts unnamed_position "exp" "out_all"
                "*mapping" "exp/out_all" eq_refl) as [H1 [H2 _]].
  destruct (H2 out_all_table eq_refl) as [H3 [_ H4]].
  split; [reflexivity |]. split; [exact H1 |]. split; [exact H3 |].
  apply (H4 []); reflexivity.
Defined.

(** One turn consumes one metadata file, whatever follows it. *)
Lemma merge_one_Ok (fs : FileSystem) (d : string) (fm fm' : list string)
  (t : DataFrame) :
  merge_one fs d fm = Ok (t, fm') ->
  exists m, fm = m :: fm'
            /\ forall rest, merge_one fs d (m :: rest) = Ok (t, rest).
Proof.
  unfold merge_one. intros H. inv_bind H as df Hdf.
  destruct fm as [| m fm]; simpl in H; [discriminate |].
  inv_bind H as df_map Hmap. inv_bind H as df' Hdf'.
  inversion H; subst. exists m. split; [reflexivity |].
  intros rest. rewrite Hdf. cbn [bind next]. rewrite Hmap. cbn [bind].
  rewrite Hdf'. reflexivity.
Qed.

Lemma pd_concat_same (t : DataFrame) :
  pd_concat t t = Ok (mkDF (columns t) (rows t ++ rows t)).
Proof.
  unfold pd_concat. destruct (list_eq_dec string_dec (columns t) (columns t));
    [reflexivity | contradiction].
Qed.

(** C8.  A pair of files that is merged to a table [t], found twice:
    [merge_tables] concatenates [t] with itself, which gives twice the
    rows of [t] under the columns of [t]. *)
Theorem same_pair_twice_doubles_rows (fs : FileSystem)
  (path n_data n_mdata d m : string) (t : DataFrame) :
  path_exists fs path = true ->
  rglob fs path n_data = [d; d] ->
  rglob fs path n_mdata = [m; m] ->
  merge_one fs d [m] = Ok (t, []) ->
  exists t2,
    pd_concat t t = Ok t2
    /\ merge_tables fs path n_data n_mdata = Ok t2
    /\ List.length (rows t2) = (2 * List.length (rows t))%nat
    /\ columns t2 = columns t.
Proof.
  intros Hex Hdata Hmap Hone.
  exists (mkDF (columns t) (rows t ++ rows t)).
  split; [apply pd_concat_same |]. split; [| split].
  - destruct (merge_one_Ok _ _ _ _ _ Hone) as [m' [Hm Hrest]].
    inversion Hm; subst m'.
    unfold merge_tables. rewrite Hex, Hdata, Hmap. simpl.
    rewrite (Hrest [m]). simpl. rewrite Hone. simpl.
    rewrite pd_concat_same. reflexivity.
  - simpl. rewrite length_app. lia.
  - reflexivity.
Qed.

Lemma same_pair_twice_doubles_rows_witness :
  merge_one same_position_twice "exp/Position001/out_all"
            ["exp/Position001/out_bf_fl_mapping"] = Ok (merged_table, [])
  /\ exists t2,
       pd_concat merged_table merged_table = Ok t2
       /\ merge_tables same_position_twice "exp" "out_all" "*mapping" = Ok t2
       /\ List.length (rows t2) = (2 * List.length (rows merged_table))%nat
       /\ columns t2 = columns merged_table.
Proof.
  split; [vm_compute; reflexivity |].
  apply (same_pair_twice_doubles_rows same_position_twice "exp" "out_all" "*mapping"
           "exp/Position001/out_all" "exp/Position001/out_bf_fl_mapping"
           merged_table); vm_compute; reflexivity.
Defined.

(** *** Exhausted generators *)

Lemma merge_loop_ext (fs fs' : FileSystem) :
  (forall p, read_table fs' p = read_table fs p) ->
  forall data_tables file_mapping df,
    merge_loop fs' data_tables file_mapping df
    = merge_loop fs data_tables file_mapping df.
Proof.
  intros Hread. induction data_tables as [| d data_tables IH]; intros fm df.
  - reflexivity.
  - simpl. unfold merge_one, make_df, read_df. rewrite Hread.
    destruct (read_table fs d) as [t |]; simpl; [| reflexivity].
    destruct (position_of_path d); simpl; [| reflexivity].
    destruct (_create_ucid _ _); simpl; [| reflexivity].
    destruct (linspace_int _ _); simpl; [| reflexivity].
    destruct fm as [| m fm]; simpl; [reflexivity |].
    rewrite Hread. destruct (read_table fs m); simpl; [| reflexivity].
    destruct (_make_cols_chan _ _); simpl; [| reflexivity].
    destruct (pd_concat _ _); simpl; [| reflexivity].
    apply IH.
Qed.

(** The loop over the paired files, then over the others with no
    metadata file left. *)
Lemma merge_loop_app (fs : FileSystem) (paired others : list string) :
  forall file_mapping df0 df,
    List.length file_mapping = List.length paired ->
    merge_loop fs paired file_mapping df0 = Ok df ->
    merge_loop fs (paired ++ others) file_mapping df0 = merge_loop fs others [] df.
Proof.
  induction paired as [| d paired IH]; intros fm df0 df Hlen H.
  - destruct fm; [| discriminate]. simpl in H. inversion H. reflexivity.
  - simpl in H. simpl.
    destruct (merge_one fs d fm) as [[df_i fm'] |] eqn:Hone; simpl in *;
      [| discriminate].
    destruct (merge_one_Ok _ _ _ _ _ Hone) as [m [-> _]].
    destruct (pd_concat df0 df_i) as [df1 |]; simpl in *; [| discriminate].
    apply IH; [simpl in Hlen; lia | exact H].
Qed.

Lemma merge_loop_no_mapping (fs : FileSystem) (d : string) (others : list string)
  (t df : DataFrame) :
  make_df fs d = Ok t ->
  merge_loop fs (d :: others) [] df = Error StopIteration.
Proof. intros H. simpl. unfold merge_one. rewrite H. reflexivity. Qed.

(** C10, as the code has it.  Under an existing root: with no data file
    the first [next] raises [StopIteration]; with fewer metadata files
    than data files, [StopIteration] is raised at the first data file
    that has no metadata file, provided that file passes [make_df] and
    the data files before it, taken alone, are merged without error. *)
Theorem exhausted_generator_raises_StopIteration (fs : FileSystem)
  (path n_data n_mdata : string) :
  path_exists fs path = true ->
  (rglob fs path n_data = [] ->
   merge_tables fs path n_data n_mdata = Error StopIteration)
  /\ (forall paired d others t,
        rglob fs path n_data = paired ++ d :: others ->
        List.length (rglob fs path n_mdata) = List.length paired ->
        make_df fs d = Ok t ->
        (paired = [] \/
         exists df, merge_tables (only_data_files fs n_data paired)
                                 path n_data n_mdata = Ok df) ->
        merge_tables fs path n_data n_mdata = Error StopIteration).
Proof.
  intros Hex. split.
  - intros Hdata. unfold merge_tables. rewrite Hex, Hdata. reflexivity.
  - intros paired d others t Hdata Hlen Hmake Hpaired.
    unfold merge_tables. rewrite Hex, Hdata. simpl.
    destruct paired as [| d0 paired].
    + destruct (rglob fs path n_mdata); [| discriminate]. simpl.
      unfold merge_one. rewrite Hmake. reflexivity.
    + destruct Hpaired as [Hp | [df Hdf]]; [discriminate |].
      assert (Hne : String.eqb n_mdata n_data = false).
      { apply String.eqb_neq. intros ->. rewrite Hdata in Hlen.
        rewrite length_app in Hlen. simpl in Hlen. lia. }
      unfold merge_tables in Hdf. simpl in Hdf.
      rewrite Hex, String.eqb_refl, Hne in Hdf. simpl in Hdf.
      change (merge_one (only_data_files fs n_data (d0 :: paired)))
        with (merge_one fs) in Hdf.
      destruct (merge_one fs d0 (rglob fs path n_mdata)) as [[df0 fm] |] eqn:Hone;
        simpl in Hdf; [| discriminate].
      simpl. rewrite (merge_loop_ext fs) in Hdf by (intros; reflexivity).
      destruct (merge_one_Ok _ _ _ _ _ Hone) as [m0 [Hfm _]].
      rewrite Hfm in Hlen. simpl in Hlen.
      rewrite Hone. cbn [bind].
      rewrite (merge_loop_app fs paired (d :: others) fm df0 df) by
        (try lia; exact Hdf).
      apply (merge_loop_no_mapping fs d others t), Hmake.
Qed.

Lemma exhausted_generator_raises_StopIteration_witness :
  merge_tables one_mapping_missing "exp" "out_all" "*mapping" = Error StopIteration
  /\ merge_tables (only_data_files one_mapping_missing "out_all"
                     ["exp/Position001/out_all"]) "exp" "out_all" "*mapping"
     = Ok merged_table.
Proof.
  split.
  - apply (proj2 (exhausted_generator_raises_StopIteration one_mapping_missing
                    "exp" "out_all" "*mapping" eq_refl)
             ["exp/Position001/out_all"] "exp/Position002/out_all" []
             made_table_002).
    + reflexivity.
    + reflexivity.
    + vm_compute. reflexivity.
    + right. exists merged_table. vm_compute. reflexivity.
  - vm_compute. reflexivity.
Defined.

(** C10, as stated, fails on a directory with one data file whose path
    encodes no position and no metadata file: the root exists, the
    metadata pattern finds fewer files than the data pattern, and what is
    raised is the error of the position codec, raised before the
    generator of metadata files is advanced. *)
Lemma fewer_mappings_other_error :
  path_exists unnamed_position "exp" = true
  /\ rglob unnamed_position "exp" "out_all" = ["exp/out_all"]
  /\ rglob unnamed_position "exp" "*mapping" = []
  /\ merge_tables unnamed_position "exp" "out_all" "*mapping"
     = Error (FileNotFoundError "exp/out_all").
Proof. repeat split; vm_compute; reflexivity. Qed.

(** *** Headers *)

Example normalize_header_example : normalize_header "  x.pos.nucl " = "x_pos_nucl".
Proof. vm_compute. reflexivity. Qed.

Lemma lstrip_spec (s : string) :
  exists l, s = (l ++ lstrip s)%string
            /\ all_chars isspace l = true
            /\ forall c s', lstrip s = String c s' -> isspace c = false.
Proof.
  induction s as [| c s [l [Hs [Hl Hhead]]]]; simpl.
  - exists "". repeat split. discriminate.
  - destruct (isspace c) eqn:E.
    + exists (String c l). simpl. rewrite E, Hl. repeat split.
      * congruence.
      * exact Hhead.
    + exists "". repeat split. intros c' s' H. inversion H; subst. exact E.
Qed.

Lemma rstrip_spec (s : string) :
  exists r, s = (rstrip s ++ r)%string
            /\ all_chars isspace r = true
            /\ forall s' c, rstrip s = (s' ++ String c "")%string -> isspace c = false.
Proof.
  unfold rstrip.
  destruct (lstrip_spec (rev_string "" s)) as [l [Hs [Hl Hhead]]].
  exists (rev_string "" l). repeat split.
  - rewrite <- rev_string_app, <- Hs. symmetry. apply rev_string_involutive.
  - rewrite all_chars_rev. exact Hl.
  - intros s' c H. apply (f_equal (rev_string "")) in H.
    rewrite rev_string_involutive, rev_string_app in H. simpl in H.
    eapply Hhead, H.
Qed.

(** [strip] removes white space at both ends and nothing else. *)
Lemma strip_spec (s : string) :
  exists l r, s = (l ++ strip s ++ r)%string
              /\ all_chars isspace l = true /\ all_chars isspace r = true
              /\ (forall c s', strip s = String c s' -> isspace c = false)
              /\ (forall s' c, strip s = (s' ++ String c "")%string -> isspace c = false).
Proof.
  unfold strip.
  destruct (lstrip_spec s) as [l [Hs [Hl Hhead]]].
  destruct (rstrip_spec (lstrip s)) as [r [Hs' [Hr Hlast]]].
  exists l, r. repeat split; try assumption.
  - rewrite <- Hs'. exact Hs.
  - intros c s' H. rewrite H in Hs'. simpl in Hs'. eapply Hhead, Hs'.
Qed.

(** Replacing the pattern of one character "." changes the dots and
    nothing else. *)
Lemma replace_dot (s : string) :
  str_replace "." "_" s = map_chars dot_to_underscore s.
Proof.
  unfold str_replace. induction s as [| c s IH].
  - reflexivity.
  - cbn [replace_from map_chars]. rewrite startswith_char.
    unfold dot_to_underscore. rewrite (Ascii.eqb_sym c ".").
    destruct (Ascii.eqb "." c); cbn [String.length Nat.sub]; rewrite IH;
      reflexivity.
Qed.

(** C3.  [read_df] leaves the rows as they were read and rewrites each
    header in two steps: the white space around it is removed, and in
    what remains every "." becomes "_"; the other characters stay. *)
Theorem header_normalization (fs : FileSystem) (path_file : string) (t : DataFrame) :
  read_table fs path_file = Ok t ->
  exists df,
    read_df fs path_file = Ok df
    /\ rows df = rows t
    /\ Forall2
         (fun h h' =>
            exists l core r,
              h = (l ++ core ++ r)%string
              /\ all_chars isspace l = true /\ all_chars isspace r = true
              /\ (forall c s, core = String c s -> isspace c = false)
              /\ (forall s c, core = (s ++ String c "")%string -> isspace c = false)
              /\ h' = map_chars dot_to_underscore core)
         (columns t) (columns df).
Proof.
  intros Hread. unfold read_df. rewrite Hread. simpl.
  eexists. split; [reflexivity |]. split; [reflexivity |]. simpl.
  induction (columns t) as [| h hs IH]; simpl; constructor; [| exact IH].
  destruct (strip_spec h) as [l [r [Hh [Hl [Hr [Hhead Hlast]]]]]].
  exists l, (strip h), r. repeat split; try assumption.
  unfold normalize_header. apply replace_dot.
Qed.

Lemma header_normalization_witness :
  read_table one_position "exp/Position001/out_all" = Ok out_all_table
  /\ exists df,
       read_df one_position "exp/Position001/out_all" = Ok df
       /\ rows df = rows out_all_table
       /\ Forall2
            (fun h h' =>
               exists l core r,
                 h = (l ++ core ++ r)%string
                 /\ all_chars isspace l = true /\ all_chars isspace r = true
                 /\ (forall c s, core = String c s -> isspace c = false)
                 /\ (forall s c, core = (s ++ String c "")%string -> isspace c = false)
                 /\ h' = map_chars dot_to_underscore core)
            (columns out_all_table) (columns df).
Proof.
  split; [reflexivity |].
  apply (header_normalization one_position "exp/Position001/out_all" out_all_table).
  reflexivity.
Defined.

Example read_df_headers :
  option_map columns
    (match read_df one_position "exp/Position001/out_all" with
     | Ok df => Some df
     | Error _ => None
     end)
  = Some ["cellID"; "t_frame"; "flag"; "f_tot"; "a_tot"].
Proof. vm_compute. reflexivity. Qed.

(** *** Exact products in binary64 *)

Lemma digits2_pos_size (p : positive) : digits2_pos p = Pos.size p.
Proof. induction p; simpl; congruence. Qed.

Lemma digits2_bounds (p : positive) :
  2 ^ (Zpos (digits2_pos p) - 1) <= Zpos p < 2 ^ Zpos (digits2_pos p).
Proof.
  rewrite digits2_pos_size. split.
  - pose proof (Pos.size_le p) as H.
    assert (H' : 2 ^ Zpos (Pos.size p) <= 2 * Zpos p).
    { rewrite <- Pos2Z.inj_pow. exact H. }
    replace (Zpos (Pos.size p)) with (Zpos (Pos.size p) - 1 + 1) in H' by lia.
    rewrite Z.pow_add_r in H' by lia. lia.
  - pose proof (Pos.size_gt p) as H. rewrite <- Pos2Z.inj_pow. exact H.
Qed.

(** The number of digits from the bounds. *)
Lemma digits2_unique (p : positive) (d : Z) :
  2 ^ (d - 1) <= Zpos p < 2 ^ d -> Zpos (digits2_pos p) = d.
Proof.
  intros [Hlo Hhi]. destruct (digits2_bounds p) as [Hlo' Hhi'].
  assert (0 < d).
  { destruct (Z_lt_le_dec 0 d); [assumption | exfalso].
    destruct (Z.eq_dec d 0) as [-> | Hd]; [simpl in Hhi; lia |].
    rewrite Z.pow_neg_r in Hhi by lia. lia. }
  assert (d - 1 < Zpos (digits2_pos p)).
  { apply (Z.pow_lt_mono_r_iff 2); lia. }
  assert (Zpos (digits2_pos p) - 1 < d).
  { apply (Z.pow_lt_mono_r_iff 2); lia. }
  lia.
Qed.

Lemma digits2_shift (p q : positive) (n : Z) :
  0 <= n -> Zpos q = Zpos p * 2 ^ n ->
  Zpos (digits2_pos q) = Zpos (digits2_pos p) + n.
Proof.
  intros Hn Hq. apply digits2_unique. destruct (digits2_bounds p) as [Hlo Hhi].
  rewrite Hq.
  replace (Zpos (digits2_pos p) + n - 1) with (Zpos (digits2_pos p) - 1 + n) by lia.
  rewrite !Z.pow_add_r by lia.
  assert (0 < 2 ^ n) by (apply Z.pow_pos_nonneg; lia).
  split; nia.
Qed.

Lemma shr_1_even (x : Z) : shr_1 (exact_record (2 * x)) = exact_record x.
Proof. destruct x; reflexivity. Qed.

(** Shifting out zeros loses nothing. *)
Lemma iter_shr_1_exact (n : positive) :
  forall m, iter_pos shr_1 n (exact_record (m * 2 ^ Zpos n)) = exact_record m.
Proof.
  induction n as [n IH | n IH |]; intros m; cbn [iter_pos].
  - replace (m * 2 ^ Zpos n~1) with (2 * (m * 2 ^ Zpos n * 2 ^ Zpos n)).
    + rewrite shr_1_even, IH. apply IH.
    + rewrite (Pos2Z.inj_xI n).
      replace (2 * Zpos n + 1) with (Zpos n + Zpos n + 1) by lia.
      rewrite !Z.pow_add_r by lia. change (2 ^ 1) with 2. ring.
  - replace (m * 2 ^ Zpos n~0) with (m * 2 ^ Zpos n * 2 ^ Zpos n).
    + rewrite IH. apply IH.
    + rewrite (Pos2Z.inj_xO n).
      replace (2 * Zpos n) with (Zpos n + Zpos n) by lia.
      rewrite Z.pow_add_r by lia. ring.
  - replace (m * 2 ^ 1) with (2 * m) by (change (2 ^ 1) with 2; ring).
    apply shr_1_even.
Qed.

Lemma fexp_normal (e : Z) : -1021 <= e -> fexp prec emax e = e - 53.
Proof. intros H. unfold fexp, emin, prec, emax. lia. Qed.

(** A mantissa of 53 digits is not shifted. *)
Lemma shr_fexp_canonical (m : positive) (e : Z) :
  Zpos (digits2_pos m) = 53 -> -1074 <= e ->
  shr_fexp prec emax (Zpos m) e loc_Exact = (exact_record (Zpos m), e).
Proof.
  intros Hd He. unfold shr_fexp. simpl Zdigits2.
  rewrite Hd. rewrite fexp_normal by lia.
  replace (53 + e - 53 - e) with 0 by lia. reflexivity.
Qed.

Lemma binary_round_aux_canonical (s : bool) (m : positive) (e : Z) :
  Zpos (digits2_pos m) = 53 -> -1074 <= e <= 971 ->
  binary_round_aux prec emax s (Zpos m) e loc_Exact = S754_finite s m e.
Proof.
  intros Hd He. unfold binary_round_aux.
  rewrite shr_fexp_canonical by (try lia; exact Hd).
  cbn [exact_record shr_m loc_of_shr_record round_nearest_even].
  rewrite shr_fexp_canonical by (try lia; exact Hd).
  cbn [exact_record shr_m].
  unfold emax, prec. destruct (Z.leb_spec e (1024 - 53)); [reflexivity | lia].
Qed.

(** A product that fits in 53 digits once its trailing zeros are shifted
    out is not rounded. *)
Lemma binary_round_aux_exact (s : bool) (M m : positive) (E : Z) (n : positive) :
  Zpos M = Zpos m * 2 ^ Zpos n ->
  Zpos (digits2_pos m) = 53 -> -1074 <= E + Zpos n <= 971 ->
  binary_round_aux prec emax s (Zpos M) E loc_Exact = S754_finite s m (E + Zpos n).
Proof.
  intros HM Hd He.
  unfold binary_round_aux. unfold shr_fexp at 1. simpl Zdigits2.
  rewrite (digits2_shift m M (Zpos n)) by (try lia; exact HM).
  rewrite Hd. rewrite fexp_normal by lia.
  replace (53 + Zpos n + E - 53 - E) with (Zpos n) by lia.
  cbn [shr shr_record_of_loc]. fold (exact_record (Zpos M)).
  rewrite HM, iter_shr_1_exact.
  cbn [exact_record shr_m loc_of_shr_record round_nearest_even].
  rewrite shr_fexp_canonical by (try lia; exact Hd).
  cbn [exact_record shr_m].
  unfold emax, prec. destruct (Z.leb_spec (E + Zpos n) (1024 - 53)); [reflexivity | lia].
Qed.

Lemma digits2_le_bound (p : positive) (d : Z) :
  Zpos p < 2 ^ d -> Zpos (digits2_pos p) <= d.
Proof.
  intros H. destruct (digits2_bounds p) as [Hlo _].
  assert (0 <= d).
  { destruct (Z_lt_le_dec d 0); [| assumption].
    rewrite Z.pow_neg_r in H by lia. lia. }
  assert (Zpos (digits2_pos p) - 1 < d); [| lia].
  apply (Z.pow_lt_mono_r_iff 2); lia.
Qed.

Lemma digits2_monotone (p q : positive) :
  Zpos p <= Zpos q -> Zpos (digits2_pos p) <= Zpos (digits2_pos q).
Proof.
  intros H. apply digits2_le_bound. destruct (digits2_bounds q). lia.
Qed.

Lemma iter_xO (p k : positive) : Zpos (Pos.iter xO p k) = Zpos p * 2 ^ Zpos k.
Proof.
  induction k as [| k IH] using Pos.peano_ind.
  - change (Zpos p~0 = Zpos p * 2). lia.
  - rewrite Pos.iter_succ, Pos2Z.inj_xO, IH, Pos2Z.inj_succ, Z.pow_succ_r by lia.
    ring.
Qed.

(** An integer of at most 53 digits is a binary64 number: its mantissa
    is the integer shifted to 53 digits. *)
Lemma binary_round_int (s : bool) (a : positive) :
  Zpos a < 2 ^ 53 ->
  exists m e,
    binary_round prec emax s a 0 = S754_finite s m e
    /\ Zpos (digits2_pos m) = 53
    /\ e = Zpos (digits2_pos a) - 53
    /\ Zpos m = Zpos a * 2 ^ (- e).
Proof.
  intros Ha. pose proof (digits2_le_bound a 53 Ha) as Hd.
  assert (0 < Zpos (digits2_pos a)) by lia.
  unfold binary_round. rewrite Z.add_0_r, fexp_normal by lia.
  unfold shl_align. rewrite Z.sub_0_r.
  destruct (Zpos (digits2_pos a) - 53) as [| k | k] eqn:Hk; try lia.
  - exists a, 0. rewrite binary_round_aux_canonical by lia.
    repeat split; lia.
  - exists (Pos.iter xO a k), (Zneg k).
    assert (Hm : Zpos (Pos.iter xO a k) = Zpos a * 2 ^ Zpos k) by apply iter_xO.
    assert (Hdm : Zpos (digits2_pos (Pos.iter xO a k)) = 53).
    { rewrite (digits2_shift a _ (Zpos k)) by (try lia; exact Hm). lia. }
    rewrite binary_round_aux_canonical by (try exact Hdm; lia).
    repeat split; try assumption; try lia.
Qed.

Lemma trunc_pos_exact (m : positive) (e v j : Z) :
  0 <= v -> 0 <= j -> Zpos m = v * 2 ^ j -> 0 <= j + e ->
  trunc_pos m e = v * 2 ^ (j + e).
Proof.
  intros Hv Hj Hm Hje. unfold trunc_pos. destruct (Z.leb_spec 0 e).
  - rewrite Z.shiftl_mul_pow2, Hm, Z.pow_add_r by lia. ring.
  - rewrite Z.shiftr_div_pow2, Hm by lia.
    replace j with (j + e + - e) at 1 by lia.
    rewrite Z.pow_add_r, Z.mul_assoc by lia.
    apply Z.div_mul. apply Z.pow_nonzero; lia.
Qed.

(** [int(float(z))] is [z] for an integer of at most 53 digits. *)
Lemma int_of_float_of_int (z : Z) :
  Z.abs z < 2 ^ 53 ->
  (x <- float_of_int z ;; int_of_float x) = Ok z.
Proof.
  intros Hz. unfold float_of_int, b64_of_Z, binary_normalize.
  destruct z as [| a | a]; [reflexivity | |].
  - destruct (binary_round_int false a Hz) as [m [e [-> [Hd [He Hm]]]]]. simpl.
    rewrite (trunc_pos_exact m e (Zpos a) (- e)); try lia.
    + replace (- e + e) with 0 by lia. simpl. f_equal. lia.
    + pose proof (digits2_le_bound a 53 Hz). lia.
  - destruct (binary_round_int true a Hz) as [m [e [-> [Hd [He Hm]]]]]. simpl.
    rewrite (trunc_pos_exact m e (Zpos a) (- e)); try lia.
    + replace (- e + e) with 0 by lia. simpl. f_equal. lia.
    + pose proof (digits2_le_bound a 53 Hz). lia.
Qed.

Lemma float_1e11_value : float_1e11 = S754_finite false 6553600000000000 (-16).
Proof. vm_compute. reflexivity. Qed.

Lemma mul_1e11_exact (s : bool) (a : positive) :
  Zpos a * 48828125 < 2 ^ 53 ->
  exists m1 e1,
    binary_round prec emax s a 0 = S754_finite s m1 e1
    /\ int_of_float (SFmul prec emax (S754_finite s m1 e1) float_1e11)
       = Ok (cond_Zopp s (Zpos a * 100000000000)).
Proof.
  intros Hpos.
  destruct (binary_round_int s a) as [m1 [e1 [Hr [Hd1 [He1 Hm1]]]]]; [lia |].
  exists m1, e1. split; [exact Hr |].
  rewrite float_1e11_value. cbn [SFmul xorb]. rewrite xorb_false_r.
  pose proof (digits2_bounds a) as Hda.
  pose proof (digits2_le_bound (a * 48828125) 53) as Hdc53.
  pose proof (digits2_monotone a (a * 48828125)) as Hmono.
  rewrite Pos2Z.inj_mul in Hdc53, Hmono.
  specialize (Hdc53 Hpos). assert (Hle : Zpos a <= Zpos a * 48828125) by lia.
  specialize (Hmono Hle).
  destruct (binary_round_int false (a * 48828125)) as [m [e [_ [Hd [He Hm]]]]];
    [rewrite Pos2Z.inj_mul; exact Hpos |].
  rewrite Pos2Z.inj_mul in Hm.
  set (da := Zpos (digits2_pos a)) in *.
  set (dc := Zpos (digits2_pos (a * 48828125))) in *.
  assert (Hn : 0 < 27 - da + dc) by lia.
  rewrite (binary_round_aux_exact s (m1 * 6553600000000000) m (e1 + -16)
             (Z.to_pos (27 - da + dc))).
  - cbn [int_of_float]. f_equal. f_equal.
    rewrite Z2Pos.id by lia.
    rewrite (trunc_pos_exact m _ (Zpos a * 48828125) (- e)); try lia.
    replace (- e + (e1 + -16 + (27 - da + dc))) with 11 by lia.
    change (2 ^ 11) with 2048. lia.
  - rewrite Z2Pos.id by lia. rewrite Pos2Z.inj_mul, Hm1, Hm.
    replace (- e1) with (53 - da) by lia. replace (- e) with (53 - dc) by lia.
    change (Zpos 6553600000000000) with (48828125 * 2 ^ 27).
    rewrite <- !Z.mul_assoc. f_equal. rewrite (Z.mul_comm (2 ^ (53 - da))).
    rewrite <- !Z.mul_assoc. f_equal.
    rewrite <- !Z.pow_add_r by lia. f_equal. lia.
  - exact Hd.
  - rewrite Z2Pos.id by lia. lia.
Qed.

(** [int(pos * 1e11)] is [pos * 10^11] as long as [pos * 5^11] has at
    most 53 digits, that is for [pos] up to 184467440 in absolute value. *)
Lemma ucid_base_exact (pos : Z) :
  Z.abs pos * 48828125 < 2 ^ 53 ->
  ucid_base pos = Ok (pos * 100000000000).
Proof.
  intros Hpos. unfold ucid_base, int_times_float, float_of_int, b64_of_Z,
    binary_normalize.
  destruct pos as [| a | a]; [reflexivity | |].
  - destruct (mul_1e11_exact false a Hpos) as [m1 [e1 [-> H]]]. exact H.
  - destruct (mul_1e11_exact true a Hpos) as [m1 [e1 [-> H]]]. exact H.
Qed.

(** *** Columns that are set and read back *)

Lemma cell_set_nth_same (i : nat) (v : value) (row : list value) :
  cell i (set_nth i v row) = v.
Proof.
  unfold cell. revert row. induction i as [| i IH]; intros [| x row]; simpl;
    try reflexivity; apply IH.
Qed.

Lemma cell_set_nth_other (i j : nat) (v : value) (row : list value) :
  i <> j -> cell j (set_nth i v row) = cell j row.
Proof.
  unfold cell. revert j row.
  induction i as [| i IH]; intros [| j] [| x row] H; simpl; try reflexivity;
    try contradiction.
  - destruct j; reflexivity.
  - rewrite IH by congruence. destruct j; reflexivity.
  - apply IH. congruence.
Qed.

Lemma position_app_new (c : string) (cols : list string) :
  ~ In c cols -> position c (cols ++ [c]) = Some (List.length cols).
Proof.
  induction cols as [| c' cols IH]; simpl; intros H.
  - rewrite String.eqb_refl. reflexivity.
  - destruct (String.eqb c c') eqn:E.
    + apply String.eqb_eq in E. exfalso. apply H. left. congruence.
    + rewrite IH by tauto. reflexivity.
Qed.

Lemma position_app_other (c c' : string) (cols : list string) :
  c' <> c -> position c' (cols ++ [c]) = position c' cols.
Proof.
  intros H. induction cols as [| x cols IH]; simpl.
  - apply String.eqb_neq in H. rewrite H. reflexivity.
  - destruct (String.eqb c' x); [reflexivity | rewrite IH; reflexivity].
Qed.

Lemma position_lt (c : string) (cols : list string) (i : nat) :
  position c cols = Some i -> (i < List.length cols)%nat.
Proof.
  revert i. induction cols as [| x cols IH]; simpl; intros i H; [discriminate |].
  destruct (String.eqb c x).
  - inversion H. lia.
  - destruct (position c cols) as [j |]; [| discriminate].
    inversion H. specialize (IH j eq_refl). lia.
Qed.

Lemma position_injective (c c' : string) (cols : list string) (i : nat) :
  position c cols = Some i -> position c' cols = Some i -> c = c'.
Proof.
  revert i. induction cols as [| x cols IH]; simpl; intros i H H'; [discriminate |].
  destruct (String.eqb c x) eqn:E, (String.eqb c' x) eqn:E'.
  - apply String.eqb_eq in E, E'. congruence.
  - destruct (position c' cols); inversion H; inversion H'; congruence.
  - destruct (position c cols); inversion H; inversion H'; congruence.
  - destruct (position c cols) as [j |], (position c' cols) as [j' |];
      try discriminate.
    inversion H; inversion H'; subst. apply (IH j'); [f_equal; lia | reflexivity].
Qed.

Lemma map_combine_snd {A B C : Type} (f : A -> B -> C) (g : B -> C)
  (l : list A) (l' : list B) :
  (forall a b, f a b = g b) -> List.length l = List.length l' ->
  map (fun ab => f (fst ab) (snd ab)) (combine l l') = map g l'.
Proof.
  intros Hf. revert l'. induction l as [| a l IH]; intros [| b l'] H; simpl in *;
    try discriminate; try reflexivity.
  rewrite Hf, IH by lia. reflexivity.
Qed.

Lemma map_combine_fst {A B C : Type} (f : A -> B -> C) (g : A -> C)
  (l : list A) (l' : list B) :
  (forall a b, f a b = g a) -> List.length l = List.length l' ->
  map (fun ab => f (fst ab) (snd ab)) (combine l l') = map g l.
Proof.
  intros Hf. revert l'. induction l as [| a l IH]; intros [| b l'] H; simpl in *;
    try discriminate; try reflexivity.
  rewrite Hf, IH by lia. reflexivity.
Qed.

(** The column just set holds the values given. *)
Lemma getcol_setcol_same (df : DataFrame) (c : string) (vals : list value) :
  List.length (rows df) = List.length vals ->
  getcol (setcol df c vals) c = Ok vals.
Proof.
  intros Hlen. unfold getcol, setcol, pos_of.
  destruct (position c (columns df)) as [i |] eqn:E; simpl.
  - rewrite E. simpl. rewrite map_map. f_equal.
    rewrite (map_combine_snd (fun row v => cell i (set_nth i v row)) (fun v => v))
      by (try exact Hlen; intros; apply cell_set_nth_same).
    apply map_id.
  - rewrite position_app_new.
    + simpl. rewrite map_map. f_equal.
      rewrite (map_combine_snd
                 (fun row v => cell (List.length (columns df))
                                    (set_nth (List.length (columns df)) v row))
                 (fun v => v))
        by (try exact Hlen; intros; apply cell_set_nth_same).
      apply map_id.
    + intros Hin. destruct (position_In_Some _ _ Hin) as [i Hi]. congruence.
Qed.

(** The other columns are as they were. *)
Lemma getcol_setcol_other (df : DataFrame) (c c' : string) (vals : list value) :
  c' <> c -> List.length (rows df) = List.length vals ->
  getcol (setcol df c vals) c' = getcol df c'.
Proof.
  intros Hne Hlen. unfold getcol, setcol, pos_of.
  destruct (position c (columns df)) as [i |] eqn:E; simpl.
  - destruct (position c' (columns df)) as [j |] eqn:E'; simpl; [| reflexivity].
    rewrite map_map. f_equal.
    apply (map_combine_fst (fun row v => cell j (set_nth i v row)) (cell j));
      [| exact Hlen].
    intros row v. apply cell_set_nth_other. intros ->.
    apply Hne. apply (position_injective c' c (columns df) j); assumption.
  - rewrite position_app_other by exact Hne.
    destruct (position c' (columns df)) as [j |] eqn:E'; simpl; [| reflexivity].
    rewrite map_map. f_equal.
    apply (map_combine_fst
             (fun row v => cell j (set_nth (List.length (columns df)) v row))
             (cell j)); [| exact Hlen].
    intros row v. apply cell_set_nth_other.
    pose proof (position_lt _ _ _ E'). lia.
Qed.

Lemma setcol_rows_length (df : DataFrame) (c : string) (vals : list value) :
  List.length (rows df) = List.length vals ->
  List.length (rows (setcol df c vals)) = List.length (rows df).
Proof.
  intros Hlen. unfold setcol.
  destruct (position c (columns df)); simpl;
    rewrite length_map, length_combine; lia.
Qed.

Lemma getcol_length (df : DataFrame) (c : string) (vals : list value) :
  getcol df c = Ok vals -> List.length vals = List.length (rows df).
Proof.
  unfold getcol. intros H. inv_bind H as i Hi. inversion H.
  apply length_map.
Qed.

Lemma mapM_add_calc (calc : Z) (ids : list Z) :
  mapM (add_calc calc) (map VInt ids) = Ok (map (fun c => VInt (calc + c)) ids).
Proof.
  induction ids as [| c ids IH]; simpl; [reflexivity |].
  rewrite IH. reflexivity.
Qed.




(** *** The columns of a reshaped table *)

Lemma filter_filter {A : Type} (p q : A -> bool) (l : list A) :
  filter p (filter q l) = filter (fun x => (q x && p x)%bool) l.
Proof.
  induction l as [| x l IH]; simpl; [reflexivity |].
  destruct (q x); simpl; [destruct (p x) |]; rewrite IH; reflexivity.
Qed.

Lemma filter_all {A : Type} (p : A -> bool) (l : list A) :
  Forall (fun x => p x = true) l -> filter p l = l.
Proof.
  induction 1 as [| x l Hx _ IH]; simpl; [reflexivity |].
  rewrite Hx, IH. reflexivity.
Qed.

Lemma map_same {A : Type} (f : A -> A) (l : list A) :
  Forall (fun x => f x = x) l -> map f l = l.
Proof.
  induction 1 as [| x l Hx _ IH]; simpl; [reflexivity |].
  rewrite Hx, IH. reflexivity.
Qed.

(** Morphological labels and renamed fluorescence labels never meet, so
    a merge gives no label a suffix. *)
Lemma merge_labels_disjoint (morf names : list string) :
  Forall (fun c => is_fluor c = false) morf ->
  Forall (fun c => is_fluor c = true) names ->
  merge_labels morf names = morf ++ names.
Proof.
  intros Hm Hn. unfold merge_labels. f_equal; apply map_same.
  - rewrite Forall_forall in *. intros c Hc.
    destruct (mem c names) eqn:E; [| reflexivity].
    apply mem_In in E. specialize (Hm c Hc). specialize (Hn c E). congruence.
  - rewrite Forall_forall in *. intros c Hc.
    destruct (mem c morf) eqn:E; [| reflexivity].
    apply mem_In in E. specialize (Hm c E). specialize (Hn c Hc). congruence.
Qed.

Lemma renamed_labels (chanels : list (value * string))
  (ls : list (string * value)) (names : list string) :
  mapM (fun n => c <- dict_get chanels (snd n) ;; Ok (fst n ++ "_" ++ c)%string) ls
    = Ok names ->
  Forall2 (fun n name => exists c, dict_get chanels (snd n) = Ok c
                                   /\ name = (fst n ++ "_" ++ c)%string)
          ls names.
Proof.
  intros H. apply mapM_Ok_Forall2 in H.
  induction H as [| n name ls names Hn _ IH]; constructor; [| exact IH].
  inv_bind Hn as c Hc. inversion Hn. exists c. split; [exact Hc | reflexivity].
Qed.

(** The columns of the table [_make_cols_chan] returns: pos, t_frame,
    ucid and cellID first; then the other columns of the data table whose
    label does not start with f_, in their order; then, for each column
    whose label starts with f_ and each flag of the data, in the order of
    the pivot, the label followed by "_" and the channel of the flag. *)
Theorem reshaped_columns (df df_map out : DataFrame) :
  _make_cols_chan df df_map = Ok out ->
  exists p chanels names,
    pivot df ["ucid"; "t_frame"] "flag" (filter is_fluor (columns df)) = Ok p
    /\ chanels_of df_map = Ok chanels
    /\ Forall2 (fun n name => exists c, dict_get chanels (snd n) = Ok c
                                        /\ name = (fst n ++ "_" ++ c)%string)
               (labels p) names
    /\ columns out
       = relevant
         ++ filter (fun c => negb (mem c relevant))
                   (filter (fun c => negb (is_fluor c)) (columns df))
         ++ names.
Proof.
  intros H.
  destruct (make_cols_chan_columns _ _ _ H)
    as [p [chanels [names [Hpivot [Hchanels [Hnames [Hfluor ->]]]]]]].
  exists p, chanels, names.
  split; [exact Hpivot |]. split; [exact Hchanels |].
  split; [apply renamed_labels, Hnames |].
  f_equal. cbn [app filter mem existsb relevant String.eqb Ascii.eqb Bool.eqb orb negb].
  rewrite merge_labels_disjoint.
  - rewrite filter_app, filter_filter. f_equal.
    + apply filter_ext. intros c. unfold relevant, mem. simpl.
      destruct (String.eqb c "ucid"), (String.eqb c "t_frame"),
        (String.eqb c "pos"), (String.eqb c "cellID"); reflexivity.
    + apply filter_all. eapply Forall_impl; [| exact Hfluor].
      intros c Hc. simpl in Hc.
      destruct (String.eqb_spec c "pos") as [-> |]; [discriminate Hc |].
      destruct (String.eqb_spec c "t_frame") as [-> |]; [discriminate Hc |].
      destruct (String.eqb_spec c "ucid") as [-> |]; [discriminate Hc |].
      destruct (String.eqb_spec c "cellID") as [-> |]; [discriminate Hc |].
      reflexivity.
  - apply Forall_forall. intros c Hc. apply filter_In in Hc.
    destruct Hc as [Hc _]. apply filter_In in Hc. destruct Hc as [_ Hc].
    apply negb_true_iff, Hc.
  - exact Hfluor.
Qed.

Lemma reshaped_columns_witness :
  _make_cols_chan made_table mapping_table = Ok merged_table
  /\ exists p chanels names,
       pivot made_table ["ucid"; "t_frame"] "flag"
             (filter is_fluor (columns made_table)) = Ok p
       /\ chanels_of mapping_table = Ok chanels
       /\ Forall2 (fun n name => exists c, dict_get chanels (snd n) = Ok c
                                           /\ name = (fst n ++ "_" ++ c)%string)
                  (labels p) names
       /\ columns merged_table
          = relevant
            ++ filter (fun c => negb (mem c relevant))
                      (filter (fun c => negb (is_fluor c)) (columns made_table))
            ++ names.
Proof.
  split; [vm_compute; reflexivity |].
  apply (reshaped_columns made_table mapping_table merged_table).
  vm_compute. reflexivity.
Defined.

(** *** Headers that are already normalised *)

Lemma lstrip_head (c : ascii) (s : string) :
  isspace c = false -> lstrip (String c s) = String c s.
Proof. intros H. simpl. rewrite H. reflexivity. Qed.

Lemma lstrip_idempotent (s : string) : lstrip (lstrip s) = lstrip s.
Proof.
  induction s as [| c s IH]; [reflexivity |].
  simpl. destruct (isspace c) eqn:Hc; [exact IH |].
  simpl. rewrite Hc. reflexivity.
Qed.

Lemma rstrip_idempotent (s : string) : rstrip (rstrip s) = rstrip s.
Proof.
  unfold rstrip. rewrite rev_string_involutive, lstrip_idempotent. reflexivity.
Qed.

Lemma strip_idempotent (s : string) : strip (strip s) = strip s.
Proof.
  unfold strip.
  assert (H : lstrip (rstrip (lstrip s)) = rstrip (lstrip s)).
  { destruct (rstrip_spec (lstrip s)) as [r [Hr [_ _]]].
    destruct (lstrip_spec s) as [l [_ [_ Hhead]]].
    destruct (rstrip (lstrip s)) as [| c u] eqn:Hu; [reflexivity |].
    apply lstrip_head. apply (Hhead c (u ++ r)%string). exact Hr. }
  rewrite H. apply rstrip_idempotent.
Qed.

Lemma isspace_dot_to_underscore (c : ascii) :
  isspace (dot_to_underscore c) = isspace c.
Proof.
  unfold dot_to_underscore. destruct (Ascii.eqb_spec c "."%char) as [-> |];
    reflexivity.
Qed.

Lemma lstrip_map_chars (s : string) :
  lstrip (map_chars dot_to_underscore s) = map_chars dot_to_underscore (lstrip s).
Proof.
  induction s as [| c s IH]; [reflexivity |].
  simpl. rewrite isspace_dot_to_underscore.
  destruct (isspace c); [exact IH | reflexivity].
Qed.

Lemma rev_string_map_chars (s acc : string) :
  rev_string (map_chars dot_to_underscore acc) (map_chars dot_to_underscore s)
  = map_chars dot_to_underscore (rev_string acc s).
Proof.
  revert acc. induction s as [| c s IH]; intros acc; [reflexivity |].
  simpl. rewrite <- IH. reflexivity.
Qed.

Lemma strip_map_chars (s : string) :
  strip (map_chars dot_to_underscore s) = map_chars dot_to_underscore (strip s).
Proof.
  assert (Hrev : forall u, rev_string "" (map_chars dot_to_underscore u)
                           = map_chars dot_to_underscore (rev_string "" u)).
  { intros u. exact (rev_string_map_chars u ""). }
  unfold strip, rstrip.
  rewrite lstrip_map_chars, Hrev, lstrip_map_chars, Hrev. reflexivity.
Qed.

Lemma map_chars_dot_idempotent (s : string) :
  map_chars dot_to_underscore (map_chars dot_to_underscore s)
  = map_chars dot_to_underscore s.
Proof.
  induction s as [| c s IH]; [reflexivity |].
  simpl. rewrite IH. f_equal.
  unfold dot_to_underscore. destruct (Ascii.eqb_spec c "."%char) as [-> | Hc].
  - reflexivity.
  - destruct (Ascii.eqb_spec c "."%char); [contradiction | reflexivity].
Qed.

Lemma map_chars_no_dot (s : string) :
  occurs "." (map_chars dot_to_underscore s) = false.
Proof.
  induction s as [| c s IH]; [reflexivity |].
  cbn [map_chars occurs]. rewrite IH, orb_false_r. unfold dot_to_underscore.
  destruct (Ascii.eqb_spec c "."%char) as [-> | Hc]; [reflexivity |].
  destruct (Ascii.eqb_spec "."%char c) as [E | _]; [| reflexivity].
  symmetry in E. contradiction.
Qed.

(** [read_df], headers: normalising a header twice is normalising it
    once; a normalised header holds no dot and no white space at either
    end.  A table written back with its normalised headers is read with
    the same headers. *)
Theorem normalized_headers_are_stable (h : string) :
  normalize_header (normalize_header h) = normalize_header h
  /\ occurs "." (normalize_header h) = false
  /\ strip (normalize_header h) = normalize_header h.
Proof.
  unfold normalize_header. rewrite !replace_dot.
  rewrite !strip_map_chars, !strip_idempotent.
  split; [apply map_chars_dot_idempotent |].
  split; [apply map_chars_no_dot | reflexivity].
Qed.

(** *** The exceptions of the position codec *)

Lemma float_of_str_Error (s : string) (e : exn) :
  float_of_str s = Error e -> e = FloatValueError s.
Proof.
  unfold float_of_str.
  destruct (read_sign s) as [neg s1].
  destruct (read_digits 0 0 s1) as [[m1 n1] s2].
  destruct (match s2 with
            | String "." s2' => read_digits m1 0 s2'
            | _ => (m1, O, s2)
            end) as [[m n2] s3].
  destruct (n1 + n2)%nat; [intros H; congruence |].
  destruct (read_exponent s3) as [[ex [| c r]] |]; try (intros H; congruence).
  destruct m; intros H; discriminate H.
Qed.

Lemma int_of_float_Error (x : spec_float) (e : exn) :
  int_of_float x = Error e -> e = OverflowError \/ e = FloatValueError "nan".
Proof.
  destruct x; simpl; intros H; try discriminate H.
  - left. congruence.
  - right. congruence.
Qed.

Lemma int_float_Error (s : string) (e : exn) :
  int_float s = Error e -> e = OverflowError \/ exists s', e = FloatValueError s'.
Proof.
  unfold int_float. destruct (float_of_str s) as [x | e'] eqn:Hx; cbn [bind].
  - intros H. apply int_of_float_Error in H. destruct H as [H | H].
    + left. exact H.
    + right. eexists. exact H.
  - intros H. injection H as <-. right. exists s. apply (float_of_str_Error _ _ Hx).
Qed.

(** [make_df], the position of a path: the only exceptions are the
    [FileNotFoundError] of a path without a match, the [ValueError] of
    [float] on a literal it cannot read, and the [OverflowError] of [int]
    on an infinite float.  The unpacking of [pos[0].split("+")] into two
    names never fails: a captured literal holds at most one "+". *)
Theorem position_of_path_exceptions (path_file : string) (e : exn) :
  position_of_path path_file = Error e ->
  (e = FileNotFoundError path_file /\ POSITION_REX_findall path_file = [])
  \/ e = OverflowError
  \/ exists literal, e = FloatValueError literal.
Proof.
  unfold position_of_path.
  destruct (POSITION_REX_findall path_file) as [| lit others] eqn:Hfind.
  - intros H. left. split; congruence.
  - pose proof (POSITION_REX_findall_head _ _ _ Hfind) as Hlit.
    rewrite str_in_char.
    destruct (position_literal_shape _ Hlit) as [Hno | [sc_num [num [-> [Hsc Hnum]]]]].
    + rewrite Hno. intros H. right. apply (int_float_Error _ _ H).
    + rewrite occurs_app. cbn [occurs]. rewrite Ascii.eqb_refl, orb_true_r.
      replace (str_split "+" (sc_num ++ String "+" num)) with [sc_num; num]
        by (symmetry; apply (split_one_sep "+" sc_num num Hsc Hnum)).
      destruct (int_float sc_num) as [a | e1] eqn:Ha; cbn [bind].
      * destruct (int_float num) as [b | e2] eqn:Hb; cbn [bind].
        -- discriminate.
        -- intros H. injection H as <-. right. apply (int_float_Error _ _ Hb).
      * intros H. injection H as <-. right. apply (int_float_Error _ _ Ha).
Qed.

Lemma position_of_path_exceptions_witness :
  position_of_path "pos1.2.3e4" = Error (FloatValueError "1.2.3e4")
  /\ ((FloatValueError "1.2.3e4" = FileNotFoundError "pos1.2.3e4"
       /\ POSITION_REX_findall "pos1.2.3e4" = [])
      \/ FloatValueError "1.2.3e4" = OverflowError
      \/ exists literal, FloatValueError "1.2.3e4" = FloatValueError literal).
Proof.
  split; [vm_compute; reflexivity |].
  apply (position_of_path_exceptions "pos1.2.3e4"). vm_compute. reflexivity.
Defined.

(** *** The position of a numbered folder *)

(** A greedy repetition of one character class takes every character of
    the class when the continuation accepts what follows. *)
Lemma star_chr_greedy {A : Type} (p : ascii -> bool) (k : string -> option A)
  (x : A) (rest : string) :
  match rest with String c _ => p c = false | EmptyString => True end ->
  k rest = Some x ->
  forall cs n,
    all_chars p cs = true -> (String.length cs <= n)%nat ->
    star_loop (rmatch (Chr p)) k n (cs ++ rest) = Some x.
Proof.
  intros Hrest Hk. induction cs as [| c cs IH]; intros n Hcs Hn.
  - cbn [String.append]. destruct n as [| n]; cbn [star_loop]; [exact Hk |].
    destruct rest as [| r rest]; cbn [rmatch orelse]; [exact Hk |].
    rewrite Hrest. exact Hk.
  - cbn [all_chars] in Hcs. apply andb_true_iff in Hcs. destruct Hcs as [Hc Hcs].
    destruct n as [| n]; [simpl in Hn; lia |].
    cbn [String.append star_loop rmatch]. rewrite Hc.
    cbn [String.length]. rewrite (proj2 (Nat.ltb_lt _ _) (Nat.lt_succ_diag_r _)).
    rewrite IH; [reflexivity | exact Hcs | simpl in Hn; lia].
Qed.

Lemma rmatch_star_chr {A : Type} (p : ascii -> bool) (k : string -> option A)
  (x : A) (cs rest : string) :
  all_chars p cs = true ->
  match rest with String c _ => p c = false | EmptyString => True end ->
  k rest = Some x ->
  rmatch (Star (Chr p)) (cs ++ rest) k = Some x.
Proof.
  intros Hcs Hrest Hk. cbn [rmatch].
  apply (star_chr_greedy p k x rest Hrest Hk cs _ Hcs).
  rewrite slength_app. lia.
Qed.

(** The classes of [POSITION_REX] that exclude one another. *)
Lemma digit_not_letter (c : ascii) : digit c = true -> letter c = false.
Proof.
  destruct c as [b0 b1 b2 b3 b4 b5 b6 b7];
    destruct b0, b1, b2, b3, b4, b5, b6, b7; intros H;
    try discriminate H; reflexivity.
Qed.

Lemma digit_not_dash (c : ascii) : digit c = true -> cls_dash c = false.
Proof.
  destruct c as [b0 b1 b2 b3 b4 b5 b6 b7];
    destruct b0, b1, b2, b3, b4, b5, b6, b7; intros H;
    try discriminate H; reflexivity.
Qed.

Lemma dash_not_letter (c : ascii) : cls_dash c = true -> letter c = false.
Proof.
  destruct c as [b0 b1 b2 b3 b4 b5 b6 b7];
    destruct b0, b1, b2, b3, b4, b5, b6, b7; intros H;
    try discriminate H; reflexivity.
Qed.

Lemma digit_read_sign (c : ascii) (s : string) :
  digit c = true -> read_sign (String c s) = (false, String c s).
Proof.
  destruct c as [b0 b1 b2 b3 b4 b5 b6 b7];
    destruct b0, b1, b2, b3, b4, b5, b6, b7; intros H;
    try discriminate H; reflexivity.
Qed.

Lemma digit_is_digit_or_dot (c : ascii) : digit c = true -> digit_or_dot c = true.
Proof. unfold digit_or_dot. intros ->. reflexivity. Qed.

Lemma matches_Plus_Chr (p : ascii -> bool) (s : string) :
  matches (Plus (Chr p)) s ->
  exists c s', s = String c s' /\ p c = true.
Proof.
  unfold Plus. intros H. apply matches_Seq in H. destruct H as [a [b [-> [Ha _]]]].
  apply matches_Chr in Ha. destruct Ha as [c [-> Hc]].
  exists c, b. split; [reflexivity | exact Hc].
Qed.

Lemma matches_Star_Chr (p : ascii -> bool) (s : string) :
  matches (Star (Chr p)) s -> all_chars p s = true.
Proof.
  intros H. remember (Star (Chr p)) as r eqn:Er.
  induction H as [| | | | | r0 | r0 a b Ha _ Hb IHb]; try discriminate Er.
  - reflexivity.
  - injection Er as ->. apply matches_Chr in Ha. destruct Ha as [c [-> Hc]].
    cbn [String.append all_chars]. rewrite Hc. apply IHb. reflexivity.
Qed.

(** A literal in scientific notation: an optional minus, digits or dots,
    and the letter e. *)
Lemma SC_NOTATION_shape (a : string) :
  matches SC_NOTATION a ->
  exists sgn b t,
    a = (sgn ++ b ++ String "e" t)%string
    /\ (sgn = "" \/ sgn = "-")
    /\ all_chars digit_or_dot b = true
    /\ b <> "".
Proof.
  unfold SC_NOTATION. intros H.
  apply matches_Seq in H. destruct H as [sgn [r1 [-> [Hsgn H]]]].
  apply matches_Seq in H. destruct H as [b [r2 [-> [Hb H]]]].
  apply matches_Seq in H. destruct H as [e1 [o [-> [He _]]]].
  unfold Plus in He. apply matches_Seq in He. destruct He as [e0 [e2 [-> [He0 _]]]].
  apply matches_Seq in He0. destruct He0 as [ce [t0 [-> [Hce _]]]].
  apply matches_Chr in Hce. destruct Hce as [c [-> Hc]].
  unfold char in Hc. apply Ascii.eqb_eq in Hc. subst c.
  exists sgn, b, ((t0 ++ e2) ++ o)%string. split; [| split; [| split]].
  - cbn [String.append]. rewrite !sapp_assoc. reflexivity.
  - apply matches_Alt in Hsgn. destruct Hsgn as [Hs | Hs].
    + right. apply matches_Chr in Hs. destruct Hs as [c [-> Hc]].
      unfold char in Hc. apply Ascii.eqb_eq in Hc. subst c. reflexivity.
    + left. apply matches_Eps in Hs. exact Hs.
  - unfold Plus in Hb. apply matches_Seq in Hb. destruct Hb as [b0 [b1 [-> [Hb0 Hb1]]]].
    apply matches_Chr in Hb0. destruct Hb0 as [c [-> Hc]].
    cbn [String.append all_chars]. rewrite Hc. apply matches_Star_Chr, Hb1.
  - unfold Plus in Hb. apply matches_Seq in Hb. destruct Hb as [b0 [b1 [-> [Hb0 _]]]].
    apply matches_Chr in Hb0. destruct Hb0 as [c [-> _]]. discriminate.
Qed.

Lemma digits_then_e (ds rest b t : string) :
  all_chars digit ds = true -> ends_number rest = true ->
  all_chars digit_or_dot b = true ->
  (ds ++ rest)%string = (b ++ String "e" t)%string -> False.
Proof.
  intros Hds Hrest. revert b. induction ds as [| d ds IH]; intros b Hb E.
  - cbn [String.append] in E. destruct rest as [| r rest].
    + destruct b; discriminate E.
    + unfold ends_number in Hrest. apply negb_true_iff, orb_false_iff in Hrest.
      destruct Hrest as [Hr1 Hr2].
      destruct b as [| c b]; cbn [String.append] in E; injection E as -> _.
      * discriminate Hr2.
      * cbn [all_chars] in Hb. rewrite Hr1 in Hb. discriminate Hb.
  - cbn [all_chars] in Hds. apply andb_true_iff in Hds. destruct Hds as [Hd Hds].
    destruct b as [| c b]; cbn [String.append] in E; injection E as -> E.
    + discriminate Hd.
    + cbn [all_chars] in Hb. apply andb_true_iff in Hb.
      apply (IH Hds b (proj2 Hb) E).
Qed.

(** The scientific alternative does not match at the head of digits that
    no e follows. *)
Lemma SC_NOTATION_fails {A : Type} (d : ascii) (ds rest : string)
  (k : string -> option A) :
  digit d = true -> all_chars digit ds = true -> ends_number rest = true ->
  rmatch SC_NOTATION (String d ds ++ rest) k = None.
Proof.
  intros Hd Hds Hrest.
  destruct (rmatch SC_NOTATION (String d ds ++ rest) k) as [x |] eqn:E;
    [| reflexivity].
  exfalso. apply rmatch_sound in E. destruct E as [a [s' [E [Ha _]]]].
  apply SC_NOTATION_shape in Ha. destruct Ha as [sgn [b [t [-> [Hsgn [Hb _]]]]]].
  destruct Hsgn as [-> | ->].
  - cbn [String.append] in E. rewrite sapp_assoc in E. cbn [String.append] in E.
    apply (digits_then_e (String d ds) rest b (t ++ s')%string); try assumption.
    cbn [all_chars]. rewrite Hd. exact Hds.
  - cbn [String.append] in E. injection E as -> _. discriminate Hd.
Qed.

Lemma head_of_app (p : ascii -> bool) (a b : string) :
  match a with String c _ => p c = false | EmptyString => True end ->
  (a = "" -> match b with String c _ => p c = false | EmptyString => True end) ->
  match (a ++ b)%string with String c _ => p c = false | EmptyString => True end.
Proof.
  destruct a as [| c a]; cbn [String.append]; intros Ha Hb.
  - apply Hb. reflexivity.
  - exact Ha.
Qed.

Lemma all_chars_head (p q : ascii -> bool) (s : string) :
  (forall c, p c = true -> q c = false) -> all_chars p s = true ->
  match s with String c _ => q c = false | EmptyString => True end.
Proof.
  intros Hpq. destruct s as [| c s]; cbn [all_chars]; intros H; [exact I |].
  apply andb_true_iff in H. apply Hpq, H.
Qed.

(** A marker, letters, separators and digits at the head of a subject:
    the match captures the digits. *)
Lemma POSITION_REX_match_plain (c d : ascii) (ls ss ds rest : string) :
  cls_p c = true -> all_chars letter ls = true -> all_chars cls_dash ss = true ->
  digit d = true -> all_chars digit ds = true -> ends_number rest = true ->
  POSITION_REX_match (String c (ls ++ ss ++ String d ds ++ rest))
  = Some (String d ds, rest).
Proof.
  intros Hc Hls Hss Hd Hds Hrest.
  assert (Hnum : all_chars digit (String d ds) = true)
    by (cbn [all_chars]; rewrite Hd; exact Hds).
  assert (Hstop : match rest with
                  | String r _ => digit r = false
                  | EmptyString => True
                  end).
  { destruct rest as [| r rest]; [exact I |].
    unfold ends_number, digit_or_dot in Hrest.
    apply negb_true_iff, orb_false_iff in Hrest. destruct Hrest as [Hr _].
    apply orb_false_iff in Hr. apply Hr. }
  unfold POSITION_REX_match, POS. cbn [rmatch]. rewrite Hc.
  fold (rmatch (A := string * string) (Star (Chr letter))).
  change (star_loop (rmatch (Chr letter)) ?k (String.length ?s) ?s)
    with (rmatch (Star (Chr letter)) s k).
  apply rmatch_star_chr; [exact Hls | |].
  - apply head_of_app.
    + apply (all_chars_head cls_dash letter ss dash_not_letter Hss).
    + intros _. cbn [String.append]. apply digit_not_letter, Hd.
  - apply rmatch_star_chr; [exact Hss | |].
    + cbn [String.append]. apply digit_not_dash, Hd.
    + unfold POSITION_GROUP. cbn [rmatch].
      change (rmatch (Seq (Opt (Chr (char "-"))) ?r) ?s ?k)
        with (rmatch SC_NOTATION s k).
      rewrite (SC_NOTATION_fails d ds rest) by assumption.
      cbn [orelse String.append]. unfold Plus. cbn [rmatch]. rewrite Hd.
      change (star_loop (rmatch (Chr digit)) ?k (String.length ?s) ?s)
        with (rmatch (Star (Chr digit)) s k).
      apply rmatch_star_chr; [exact Hds | exact Hstop |].
      f_equal. f_equal.
      change (String d (ds ++ rest)) with (String d ds ++ rest)%string.
      apply take_consumed.
Qed.

(** No match starts in a directory name without digit and dot that a
    character foreign to the pattern closes. *)
Lemma split_at_absent (x : ascii) (u v w r : string) :
  (u ++ String x v)%string = (w ++ r)%string -> occurs x w = false ->
  exists w', u = (w ++ w')%string.
Proof.
  revert w. induction u as [| c u IH]; intros w E Hw.
  - destruct w as [| c w]; [exists ""; reflexivity |].
    cbn [String.append] in E. injection E as -> _.
    cbn [occurs] in Hw. rewrite Ascii.eqb_refl in Hw. discriminate Hw.
  - destruct w as [| c' w]; [exists (String c u); reflexivity |].
    cbn [String.append] in E. injection E as -> E.
    cbn [occurs] in Hw. apply orb_false_iff in Hw.
    destruct (IH w E (proj2 Hw)) as [w' ->]. exists w'. reflexivity.
Qed.

Lemma POSITION_GROUP_has_digit_or_dot (lit : string) :
  matches POSITION_GROUP lit ->
  all_chars (fun c => negb (digit_or_dot c)) lit = false.
Proof.
  intros H. apply matches_Alt in H. destruct H as [H | H].
  - apply SC_NOTATION_shape in H. destruct H as [sgn [b [t [-> [_ [Hb Hne]]]]]].
    rewrite !all_chars_app. destruct b as [| c b]; [contradiction |].
    cbn [all_chars] in *. apply andb_true_iff in Hb. rewrite (proj1 Hb).
    cbn [negb andb]. apply andb_false_r.
  - apply matches_Plus_Chr in H. destruct H as [c [s' [-> Hc]]].
    cbn [all_chars]. rewrite (digit_is_digit_or_dot c Hc). reflexivity.
Qed.

Lemma no_match_in_dir (dir : string) (sep : ascii) (t a b : string) :
  all_chars (fun c => negb (digit_or_dot c)) dir = true ->
  rejects sep POS = true -> rejects sep POSITION_GROUP = true ->
  dir = (a ++ b)%string ->
  POSITION_REX_match (b ++ String sep t) = None.
Proof.
  intros Hdir Hpos Hgroup ->.
  destruct (POSITION_REX_match (b ++ String sep t)) as [[lit r] |] eqn:E;
    [| reflexivity].
  exfalso. apply POSITION_REX_match_sound in E.
  destruct E as [m [E [Hm Hlit]]].
  pose proof (rejects_occurs sep POS m Hpos Hm) as H1.
  pose proof (rejects_occurs sep POSITION_GROUP lit Hgroup Hlit) as H2.
  rewrite <- sapp_assoc in E.
  destruct (split_at_absent sep b t (m ++ lit) r E) as [w' ->].
  { rewrite occurs_app, H1, H2. reflexivity. }
  rewrite !all_chars_app in Hdir.
  rewrite (POSITION_GROUP_has_digit_or_dot lit Hlit) in Hdir.
  rewrite !andb_false_r, ?andb_false_l in Hdir.
  repeat rewrite ?andb_false_r, ?andb_false_l in Hdir. discriminate Hdir.
Qed.

Lemma search_head {G : Type} (m : string -> option (G * string)) (s : string)
  (x : G * string) :
  m s = Some x -> search m s = Some x.
Proof. intros H. destruct s; cbn [search]; rewrite H; reflexivity. Qed.

Lemma search_after_dir {G : Type} (m : string -> option (G * string))
  (sep : ascii) (t : string) :
  forall dir,
    (forall a b, dir = (a ++ b)%string -> m (b ++ String sep t)%string = None) ->
    search m (dir ++ String sep t)%string = search m t.
Proof.
  induction dir as [| c dir IH]; intros H.
  - pose proof (H "" "" eq_refl) as H0. cbn [String.append] in H0.
    cbn [String.append search]. rewrite H0. reflexivity.
  - pose proof (H "" (String c dir) eq_refl) as H0. cbn [String.append] in H0.
    cbn [String.append search]. rewrite H0. cbn [orelse]. apply IH.
    intros a b ->. apply (H (String c a) b). reflexivity.
Qed.

(** Reading digits. *)
Lemma read_digits_count (s : string) :
  forall acc k n m r, read_digits acc k s = (n, m, r) -> (k <= m)%nat.
Proof.
  induction s as [| c s IH]; cbn [read_digits]; intros acc k n m r H.
  - injection H as _ <- _. lia.
  - destruct (digit c).
    + apply IH in H. lia.
    + injection H as _ <- _. lia.
Qed.

Lemma read_digits_nonneg (s : string) :
  forall acc k n m r, 0 <= acc -> read_digits acc k s = (n, m, r) -> 0 <= n.
Proof.
  induction s as [| c s IH]; cbn [read_digits]; intros acc k n m r Hacc H.
  - injection H as <- _ _. exact Hacc.
  - destruct (digit c).
    + apply IH in H; [exact H | lia].
    + injection H as <- _ _. exact Hacc.
Qed.

Lemma read_digits_all (s : string) :
  forall acc k n m, read_digits acc k s = (n, m, "") -> all_chars digit s = true.
Proof.
  induction s as [| c s IH]; cbn [read_digits all_chars]; intros acc k n m H.
  - reflexivity.
  - destruct (digit c); [| discriminate H]. apply (IH _ _ _ _ H).
Qed.

Lemma digits_no_plus (s : string) :
  all_chars digit s = true -> occurs "+" s = false.
Proof.
  induction s as [| c s IH]; cbn [all_chars occurs]; intros H; [reflexivity |].
  apply andb_true_iff in H. destruct H as [Hc Hs]. rewrite (IH Hs), orb_false_r.
  destruct (Ascii.eqb_spec "+"%char c) as [<- | _]; [discriminate Hc | reflexivity].
Qed.

(** [int(float(s))] for digits that spell a number below 2^53. *)
Lemma int_float_digits (ds : string) (n : Z) (k : nat) :
  ds <> "" -> read_digits 0 0 ds = (n, k, "") -> n < 2 ^ 53 ->
  int_float ds = Ok n.
Proof.
  intros Hne Hread Hn.
  pose proof (read_digits_all _ _ _ _ _ Hread) as Hall.
  pose proof (read_digits_nonneg _ _ _ _ _ _ (Z.le_refl 0) Hread) as Hpos.
  destruct ds as [| d ds]; [contradiction |].
  cbn [all_chars] in Hall. apply andb_true_iff in Hall. destruct Hall as [Hd _].
  assert (Hk : exists k', k = S k').
  { cbn [read_digits] in Hread. rewrite Hd in Hread.
    apply read_digits_count in Hread. destruct k; [lia | eexists; reflexivity]. }
  destruct Hk as [k' ->].
  unfold int_float, float_of_str.
  rewrite (digit_read_sign d ds Hd), Hread.
  cbn [Nat.add read_exponent].
  destruct n as [| p | p]; [reflexivity | | lia].
  cbn [bind]. unfold b64_of_decimal. cbn [Z.of_nat Z.sub Z.leb Z.compare Z.opp Z.add].
  change (10 ^ 0) with 1. rewrite Z.mul_1_r. cbn [Z.to_pos].
  pose proof (int_of_float_of_int (Zpos p)) as H.
  unfold float_of_int, b64_of_Z, binary_normalize in H.
  destruct (binary_round prec emax false p 0) eqn:E; cbn [bind] in H;
    apply H; simpl; lia.
Qed.

(** [make_df], the position of a numbered folder.  Take a path made of a
    directory name without digit and dot, a separator that no class of
    [POSITION_REX] accepts (a slash), a marker that starts with p, P or |
    and goes on with letters and then with characters among -, | and _,
    digits, and a rest that starts with no digit, no dot and no e.  The
    position is the number the digits spell, leading zeros included, when
    it is below 2^53: Position001 is position 1. *)
Theorem position_of_a_numbered_folder (dir : string) (sep c : ascii)
  (ls ss ds rest : string) (n : Z) (k : nat) :
  all_chars (fun x => negb (digit_or_dot x)) dir = true ->
  rejects sep POS = true -> rejects sep POSITION_GROUP = true ->
  cls_p c = true -> all_chars letter ls = true -> all_chars cls_dash ss = true ->
  ds <> "" -> read_digits 0 0 ds = (n, k, "") -> n < 2 ^ 53 ->
  ends_number rest = true ->
  position_of_path (dir ++ String sep (String c (ls ++ ss ++ ds ++ rest))) = Ok n.
Proof.
  intros Hdir Hsep1 Hsep2 Hc Hls Hss Hne Hread Hn Hrest.
  pose proof (read_digits_all _ _ _ _ _ Hread) as Hall.
  destruct ds as [| d ds]; [contradiction |].
  cbn [all_chars] in Hall. apply andb_true_iff in Hall. destruct Hall as [Hd Hds].
  pose proof (POSITION_REX_match_plain c d ls ss ds rest Hc Hls Hss Hd Hds Hrest)
    as Hmatch.
  assert (Hsearch :
            search POSITION_REX_match
              (dir ++ String sep (String c (ls ++ ss ++ String d ds ++ rest)))
            = Some (String d ds, rest)).
  { rewrite search_after_dir.
    - apply search_head, Hmatch.
    - intros a b E. apply (no_match_in_dir dir sep _ a b Hdir Hsep1 Hsep2 E). }
  unfold position_of_path, POSITION_REX_findall, findall.
  cbn [findall_fuel]. rewrite Hsearch.
  rewrite str_in_char, digits_no_plus
    by (cbn [all_chars]; rewrite Hd; exact Hds).
  apply (int_float_digits (String d ds) n k Hne Hread Hn).
Qed.

Lemma position_of_a_numbered_folder_witness :
  position_of_path "exp/Position001/out_all" = Ok 1
  /\ position_of_path "my_data/pos_-07" = Ok 7.
Proof.
  split.
  - apply (position_of_a_numbered_folder "exp" "/" "P" "osition" "" "001"
             "/out_all" 1 3); try reflexivity; discriminate.
  - apply (position_of_a_numbered_folder "my_data" "/" "p" "os" "_-" "07" "" 7 2);
      try reflexivity; discriminate.
Defined.

(** *** The shape of a channel name *)

Lemma CHANNEL_REX_match_sound (s g1 g2 rest : string) :
  CHANNEL_REX_match s = Some (g1, g2, rest) ->
  s = (g1 ++ g2 ++ rest)%string
  /\ matches CHANNEL_GROUP1 g1 /\ matches CHANNEL_GROUP2 g2.
Proof.
  unfold CHANNEL_REX_match. intros H.
  apply rmatch_sound in H. destruct H as [a [s1 [-> [Ha H]]]].
  apply rmatch_sound in H. destruct H as [b [s2 [-> [Hb H]]]].
  rewrite !take_consumed in H. injection H as <- <- <-.
  repeat split; assumption.
Qed.

Lemma lower_char_idempotent (c : ascii) : lower_char (lower_char c) = lower_char c.
Proof.
  destruct c as [b0 b1 b2 b3 b4 b5 b6 b7];
    destruct b0, b1, b2, b3, b4, b5, b6, b7; reflexivity.
Qed.

Lemma lower_idempotent (s : string) : lower (lower s) = lower s.
Proof.
  induction s as [| c s IH]; [reflexivity |].
  simpl. rewrite lower_char_idempotent, IH. reflexivity.
Qed.

Lemma lower_char_cls_f (c : ascii) :
  cls_f c = true -> lower_char c = "f"%char \/ lower_char c = "|"%char.
Proof.
  unfold cls_f, char. intros H.
  apply orb_true_iff in H. destruct H as [H | H];
    [apply orb_true_iff in H; destruct H as [H | H] |];
    apply Ascii.eqb_eq in H; subst c; [left | right | left]; reflexivity.
Qed.

Lemma CHANNEL_GROUP1_shape (g : string) :
  matches CHANNEL_GROUP1 g ->
  exists w f tail,
    g = String w (String f tail) /\ word w = true /\ cls_f f = true
    /\ (tail = "" \/ exists w2, tail = String w2 "" /\ word w2 = true).
Proof.
  unfold CHANNEL_GROUP1. intros H.
  apply matches_Seq in H. destruct H as [a [r1 [-> [Ha H]]]].
  apply matches_Seq in H. destruct H as [b [r2 [-> [Hb H]]]].
  apply matches_Chr in Ha. destruct Ha as [w [-> Hw]].
  apply matches_Chr in Hb. destruct Hb as [f [-> Hf]].
  exists w, f, r2. repeat split; try assumption.
  apply matches_Alt in H. destruct H as [H | H].
  - right. apply matches_Chr in H. destruct H as [w2 [-> Hw2]].
    exists w2. split; [reflexivity | exact Hw2].
  - left. apply matches_Eps in H. exact H.
Qed.

(** [_decod_chanel], the result: a channel name is the lower-cased first
    group of the first match of [CHANNEL_REX] in the descriptor of the
    flag.  It has two or three characters, the second one is f or |, and
    lower-casing it again changes nothing. *)
Theorem decoded_channel_shape (df_mapping : DataFrame) (flag : value) (c : string) :
  _decod_chanel df_mapping flag = Ok c ->
  (exists d before g after,
     descriptor df_mapping flag = Ok (VStr d)
     /\ d = (before ++ g ++ after)%string
     /\ matches CHANNEL_GROUP1 g
     /\ c = lower g)
  /\ (exists w f tail,
        c = String w (String f tail)
        /\ (f = "f"%char \/ f = "|"%char)
        /\ (tail = "" \/ exists w2, tail = String w2 ""))
  /\ lower c = c.
Proof.
  unfold _decod_chanel. intros H. inv_bind H as v Hv.
  destruct (negb (truthy v)); [discriminate H |].
  destruct v as [z | x | d]; try discriminate H.
  destruct (CHANNEL_REX_findall d) as [| [g1 g2] gs] eqn:Hfind; [discriminate H |].
  injection H as <-. cbn [fst].
  apply findall_head in Hfind. destruct Hfind as [before [t [rest [-> Hm]]]].
  apply CHANNEL_REX_match_sound in Hm. destruct Hm as [-> [Hg1 _]].
  split; [| split].
  - exists (before ++ g1 ++ g2 ++ rest)%string, before, g1, (g2 ++ rest)%string.
    repeat split; [exact Hv | exact Hg1].
  - apply CHANNEL_GROUP1_shape in Hg1.
    destruct Hg1 as [w [f [tail [-> [_ [Hf Htail]]]]]].
    exists (lower_char w), (lower_char f), (lower tail).
    split; [reflexivity |]. split; [apply lower_char_cls_f; exact Hf |].
    destruct Htail as [-> | [w2 [-> _]]].
    + left. reflexivity.
    + right. exists (lower_char w2). reflexivity.
  - apply lower_idempotent.
Qed.

Lemma decoded_channel_shape_witness :
  _decod_chanel mapping_table (VInt 1) = Ok "yfp"
  /\ (exists d before g after,
        descriptor mapping_table (VInt 1) = Ok (VStr d)
        /\ d = (before ++ g ++ after)%string
        /\ matches CHANNEL_GROUP1 g
        /\ "yfp" = lower g)
  /\ (exists w f tail,
        "yfp" = String w (String f tail)
        /\ (f = "f"%char \/ f = "|"%char)
        /\ (tail = "" \/ exists w2, tail = String w2 ""))
  /\ lower "yfp" = "yfp".
Proof.
  split; [vm_compute; reflexivity |].
  apply (decoded_channel_shape mapping_table (VInt 1) "yfp").
  vm_compute. reflexivity.
Defined.

(** *** Flags the metadata does not list *)

Lemma filter_none {A : Type} (p : A -> bool) (l : list A) :
  (forall x, In x l -> p x = false) -> filter p l = [].
Proof.
  induction l as [| a l IH]; intros H; [reflexivity |].
  simpl. rewrite (H a (or_introl eq_refl)). apply IH.
  intros x Hx. apply H. right. exact Hx.
Qed.

Lemma py_eq_NaN (c : value) : py_eq c NaN = false.
Proof.
  unfold py_eq. destruct (is_nan c) eqn:Hc.
  - apply andb_false_r.
  - rewrite andb_true_r. destruct (same_key c NaN) eqn:Hk; [| reflexivity].
    apply same_key_eq in Hk. apply is_nan_key in Hk. congruence.
Qed.

Lemma descriptor_absent (df_mapping : DataFrame) (flag : value) (flags : list value) :
  getcol df_mapping "flag" = Ok flags ->
  In "fluor" (columns df_mapping) ->
  (forall c, In c flags -> py_eq c flag = false) ->
  descriptor df_mapping flag = Error IndexError.
Proof.
  intros Hflags Hfluor Hnone. unfold getcol in Hflags.
  inv_bind Hflags as fpos Hfpos. injection Hflags as <-.
  unfold descriptor. rewrite Hfpos. cbn [bind].
  rewrite filter_none.
  - destruct (pos_of_present df_mapping "fluor" Hfluor) as [i Hi].
    unfold getcol, pos_of in *. cbn [columns rows].
    destruct (position "fluor" (columns df_mapping)); [reflexivity | discriminate Hi].
  - intros row Hrow. apply Hnone. apply in_map. exact Hrow.
Qed.

(** [_decod_chanel], lookups that find nothing: a flag that equals no
    cell of the column flag raises [IndexError] (the selection is empty and
    [.values[0]] is out of bounds), and so does every lookup of a missing
    value, which equals nothing; a table without the column flag, or
    without the column fluor, raises [KeyError]. *)
Theorem unlisted_flag_raises_IndexError (df_mapping : DataFrame) (flag : value) :
  (forall flags,
     getcol df_mapping "flag" = Ok flags ->
     In "fluor" (columns df_mapping) ->
     (forall c, In c flags -> py_eq c flag = false) ->
     _decod_chanel df_mapping flag = Error IndexError)
  /\ (In "flag" (columns df_mapping) -> In "fluor" (columns df_mapping) ->
      _decod_chanel df_mapping NaN = Error IndexError)
  /\ (~ In "flag" (columns df_mapping) ->
      _decod_chanel df_mapping flag = Error (KeyError (VStr "flag")))
  /\ (In "flag" (columns df_mapping) -> ~ In "fluor" (columns df_mapping) ->
      _decod_chanel df_mapping flag = Error (KeyError (VStr "fluor"))).
Proof.
  split; [| split; [| split]].
  - intros flags Hflags Hfluor Hnone. unfold _decod_chanel.
    rewrite (descriptor_absent _ _ _ Hflags Hfluor Hnone). reflexivity.
  - intros Hflag Hfluor. unfold _decod_chanel.
    destruct (pos_of_present df_mapping "flag" Hflag) as [i Hi].
    rewrite (descriptor_absent df_mapping NaN (map (cell i) (rows df_mapping))).
    + reflexivity.
    + unfold getcol. rewrite Hi. reflexivity.
    + exact Hfluor.
    + intros c _. apply py_eq_NaN.
  - intros Hflag. unfold _decod_chanel, descriptor.
    rewrite (pos_of_missing _ _ Hflag). reflexivity.
  - intros Hflag Hfluor. unfold _decod_chanel, descriptor.
    destruct (pos_of_present df_mapping "flag" Hflag) as [i Hi].
    rewrite Hi. cbn [bind]. unfold getcol.
    rewrite (pos_of_missing _ "fluor"); [reflexivity | exact Hfluor].
Qed.

Lemma unlisted_flag_raises_IndexError_witness :
  _decod_chanel flag0_only_table (VInt 1) = Error IndexError
  /\ _decod_chanel flag0_only_table NaN = Error IndexError
  /\ _decod_chanel (mkDF ["fluor"] [[VStr "BFP_Position1"]]) (VInt 1)
     = Error (KeyError (VStr "flag"))
  /\ _decod_chanel (mkDF ["flag"] [[VInt 1]]) (VInt 1)
     = Error (KeyError (VStr "fluor")).
Proof.
  split; [| split; [| split]].
  - apply (proj1 (unlisted_flag_raises_IndexError flag0_only_table (VInt 1)) [VInt 0]).
    + reflexivity.
    + simpl. tauto.
    + intros c [<- | []]. reflexivity.
  - apply (proj1 (proj2 (unlisted_flag_raises_IndexError flag0_only_table (VInt 1)))).
    + simpl. tauto.
    + simpl. tauto.
  - apply (proj1 (proj2 (proj2 (unlisted_flag_raises_IndexError
                                  (mkDF ["fluor"] [[VStr "BFP_Position1"]]) (VInt 1))))).
    simpl. intros [H | []]. discriminate H.
  - apply (proj2 (proj2 (proj2 (unlisted_flag_raises_IndexError
                                  (mkDF ["flag"] [[VInt 1]]) (VInt 1))))).
    + simpl. tauto.
    + simpl. intros [H | []]. discriminate H.
Defined.

(** *** What [make_df] changes in a table *)

Lemma position_mem (c : string) (cols : list string) :
  position c cols = None <-> mem c cols = false.
Proof.
  split; intros H.
  - destruct (mem c cols) eqn:E; [| reflexivity].
    apply mem_In in E. destruct (position_In_Some _ _ E) as [i Hi]. congruence.
  - apply position_None_not_In. intros Hin. apply mem_In in Hin. congruence.
Qed.

Lemma setcol_columns (df : DataFrame) (c : string) (vals : list value) :
  columns (setcol df c vals)
  = columns df ++ filter (fun c' => negb (mem c' (columns df))) [c].
Proof.
  unfold setcol. destruct (position c (columns df)) as [i |] eqn:E; cbn [columns filter].
  - destruct (mem c (columns df)) eqn:M.
    + cbn [negb]. symmetry. apply app_nil_r.
    + apply position_mem in M. congruence.
  - apply position_mem in E. rewrite E. reflexivity.
Qed.

Lemma linspace_int_length (pos : Z) (n : nat) (col : list value) :
  linspace_int pos n = Ok col -> List.length col = n.
Proof.
  unfold linspace_int. destruct n as [| n]; intros H.
  - injection H as <-. reflexivity.
  - inv_bind H as x Hx. inv_bind H as z Hz. injection H as <-.
    apply (repeat_length (VInt z) (S n)).
Qed.

Lemma mapM_length {A B : Type} (f : A -> result B) (l : list A) (bs : list B) :
  mapM f l = Ok bs -> List.length bs = List.length l.
Proof.
  intros H. apply mapM_Ok_Forall2 in H. symmetry. apply (Forall2_length H).
Qed.

(** The steps of a call of [make_df] that returns. *)
Lemma make_df_Ok (fs : FileSystem) (path_file : string) (df : DataFrame) :
  make_df fs path_file = Ok df ->
  exists df0 pos calc cellID ucid col,
    read_df fs path_file = Ok df0
    /\ position_of_path path_file = Ok pos
    /\ ucid_base pos = Ok calc
    /\ getcol df0 "cellID" = Ok cellID
    /\ mapM (add_calc calc) cellID = Ok ucid
    /\ linspace_int pos (List.length (rows df0)) = Ok col
    /\ List.length ucid = List.length (rows df0)
    /\ List.length col = List.length (rows df0)
    /\ df = setcol (setcol df0 "ucid" ucid) "pos" col.
Proof.
  unfold make_df, _create_ucid. intros H.
  inv_bind H as df0 Hdf0. inv_bind H as pos Hpos. inv_bind H as df1 Hdf1.
  inv_bind Hdf1 as calc Hcalc. inv_bind Hdf1 as cellID HcellID.
  inv_bind Hdf1 as ucid Hucid. injection Hdf1 as <-.
  inv_bind H as col Hcol. injection H as <-.
  assert (Hlen : List.length ucid = List.length (rows df0)).
  { rewrite (mapM_length _ _ _ Hucid). apply (getcol_length _ _ _ HcellID). }
  rewrite setcol_rows_length in Hcol by (symmetry; exact Hlen).
  exists df0, pos, calc, cellID, ucid, col.
  repeat split; try assumption.
  apply (linspace_int_length _ _ _ Hcol).
Qed.

(** [make_df], what it leaves alone: the table it returns has the rows
    count of the table read; its columns are those read, followed by ucid
    and pos where the file has no such column (a column of that name is
    overwritten in place); every other column holds what was read. *)
Theorem make_df_keeps_the_table (fs : FileSystem) (path_file : string)
  (df0 df : DataFrame) :
  read_df fs path_file = Ok df0 ->
  make_df fs path_file = Ok df ->
  columns df
  = columns df0 ++ filter (fun c => negb (mem c (columns df0))) ["ucid"; "pos"]
  /\ List.length (rows df) = List.length (rows df0)
  /\ forall c, c <> "ucid" -> c <> "pos" -> getcol df c = getcol df0 c.
Proof.
  intros Hread Hmake. apply make_df_Ok in Hmake.
  destruct Hmake as [df0' [pos [calc [cellID [ucid [col
    [Hread' [_ [_ [_ [_ [_ [Hlen1 [Hlen2 ->]]]]]]]]]]]]]].
  assert (df0' = df0) by congruence. subst df0'.
  assert (Hlen3 : List.length (rows (setcol df0 "ucid" ucid)) = List.length col).
  { rewrite setcol_rows_length by (symmetry; exact Hlen1). symmetry. exact Hlen2. }
  split; [| split].
  - rewrite !setcol_columns. cbn [filter]. rewrite <- app_assoc. f_equal.
    unfold mem at 2. rewrite existsb_app. cbn [existsb].
    destruct (negb (mem "ucid" (columns df0))); cbn [existsb app String.eqb Ascii.eqb Bool.eqb orb filter];
      rewrite ?orb_false_r; reflexivity.
  - rewrite setcol_rows_length by exact Hlen3.
    apply setcol_rows_length. symmetry. exact Hlen1.
  - intros c Hu Hp.
    rewrite getcol_setcol_other by (try exact Hp; exact Hlen3).
    apply getcol_setcol_other; [exact Hu | symmetry; exact Hlen1].
Qed.

Lemma make_df_keeps_the_table_witness :
  read_df one_position "exp/Position001/out_all"
  = Ok (mkDF ["cellID"; "t_frame"; "flag"; "f_tot"; "a_tot"] (rows out_all_table))
  /\ make_df one_position "exp/Position001/out_all" = Ok made_table
  /\ columns made_table
     = ["cellID"; "t_frame"; "flag"; "f_tot"; "a_tot"]
       ++ filter (fun c => negb (mem c ["cellID"; "t_frame"; "flag"; "f_tot"; "a_tot"]))
                 ["ucid"; "pos"]
  /\ List.length (rows made_table) = List.length (rows out_all_table)
  /\ forall c, c <> "ucid" -> c <> "pos" ->
       getcol made_table c
       = getcol (mkDF ["cellID"; "t_frame"; "flag"; "f_tot"; "a_tot"]
                      (rows out_all_table)) c.
Proof.
  split; [vm_compute; reflexivity |]. split; [vm_compute; reflexivity |].
  apply (make_df_keeps_the_table one_position "exp/Position001/out_all"
           (mkDF ["cellID"; "t_frame"; "flag"; "f_tot"; "a_tot"] (rows out_all_table))
           made_table).
  - vm_compute. reflexivity.
  - vm_compute. reflexivity.
Defined.

(** *** Identifiers of different positions *)

Lemma map_VInt_injective (l l' : list Z) : map VInt l = map VInt l' -> l = l'.
Proof.
  revert l'. induction l as [| a l IH]; intros [| b l'] H; try discriminate H.
  - reflexivity.
  - injection H as Hab Hl. f_equal; [exact Hab | apply IH, Hl].
Qed.

(** The column ucid of a table made from a file whose position is at
    most 184467440 in absolute value and whose cell ids are integers. *)
Lemma make_df_ucid (fs : FileSystem) (path_file : string) (df : DataFrame)
  (pos : Z) (ids : list Z) :
  make_df fs path_file = Ok df ->
  position_of_path path_file = Ok pos ->
  Z.abs pos <= 184467440 ->
  getcol df "cellID" = Ok (map VInt ids) ->
  getcol df "ucid" = Ok (map (fun c => VInt (pos * 100000000000 + c)) ids).
Proof.
  intros Hmake Hpos Hbound Hids. apply make_df_Ok in Hmake.
  destruct Hmake as [df0 [pos' [calc [cellID [ucid [col
    [Hread [Hpos' [Hcalc [HcellID [Hucid [_ [Hlen1 [Hlen2 ->]]]]]]]]]]]]]].
  assert (pos' = pos) by congruence. subst pos'.
  assert (Hlen3 : List.length (rows (setcol df0 "ucid" ucid)) = List.length col).
  { rewrite setcol_rows_length by (symmetry; exact Hlen1). symmetry. exact Hlen2. }
  rewrite getcol_setcol_other in Hids by (try discriminate; exact Hlen3).
  rewrite getcol_setcol_other in Hids by (try discriminate; symmetry; exact Hlen1).
  rewrite ucid_base_exact in Hcalc
    by (change (2 ^ 53) with 9007199254740992; lia).
  injection Hcalc as <-.
  assert (cellID = map VInt ids) by congruence. subst cellID.
  rewrite mapM_add_calc in Hucid. injection Hucid as <-.
  rewrite getcol_setcol_other by (try discriminate; exact Hlen3).
  apply getcol_setcol_same. symmetry. exact Hlen1.
Qed.

(** [make_df] and [_create_ucid], identifiers across files: take two
    files whose positions differ and are at most 184467440 in absolute
    value, with integer cell ids from 0 to 99999999999.  The position and
    the cell id of a row are the quotient and the remainder of its ucid by
    100000000000, and no ucid of one file is a ucid of the other. *)
Theorem ucid_unique_across_positions (fs : FileSystem) (path1 path2 : string)
  (df1 df2 : DataFrame) (pos1 pos2 : Z) (ids1 ids2 : list Z) :
  make_df fs path1 = Ok df1 ->
  make_df fs path2 = Ok df2 ->
  position_of_path path1 = Ok pos1 ->
  position_of_path path2 = Ok pos2 ->
  Z.abs pos1 <= 184467440 ->
  Z.abs pos2 <= 184467440 ->
  pos1 <> pos2 ->
  getcol df1 "cellID" = Ok (map VInt ids1) ->
  getcol df2 "cellID" = Ok (map VInt ids2) ->
  Forall (fun c => 0 <= c < 100000000000) ids1 ->
  Forall (fun c => 0 <= c < 100000000000) ids2 ->
  exists ucid1 ucid2,
    getcol df1 "ucid" = Ok (map VInt ucid1)
    /\ getcol df2 "ucid" = Ok (map VInt ucid2)
    /\ Forall2 (fun u c => u / 100000000000 = pos1 /\ u mod 100000000000 = c)
               ucid1 ids1
    /\ Forall2 (fun u c => u / 100000000000 = pos2 /\ u mod 100000000000 = c)
               ucid2 ids2
    /\ forall u, In u ucid1 -> ~ In u ucid2.
Proof.
  intros Hm1 Hm2 Hp1 Hp2 Hb1 Hb2 Hne Hc1 Hc2 Hr1 Hr2.
  pose proof (make_df_ucid _ _ _ _ _ Hm1 Hp1 Hb1 Hc1) as Hu1.
  pose proof (make_df_ucid _ _ _ _ _ Hm2 Hp2 Hb2 Hc2) as Hu2.
  assert (Hdecode : forall pos ids,
            Forall (fun c => 0 <= c < 100000000000) ids ->
            Forall2 (fun u c => u / 100000000000 = pos /\ u mod 100000000000 = c)
                    (map (fun c => pos * 100000000000 + c) ids) ids).
  { intros pos ids Hr. induction Hr as [| c ids Hc _ IH]; simpl; constructor.
    - split.
      + rewrite Z.add_comm, Z.div_add by lia. rewrite Z.div_small by lia. lia.
      + rewrite Z.add_comm, Z.mod_add by lia. apply Z.mod_small. lia.
    - exact IH. }
  exists (map (fun c => pos1 * 100000000000 + c) ids1),
         (map (fun c => pos2 * 100000000000 + c) ids2).
  rewrite !map_map. split; [exact Hu1 |]. split; [exact Hu2 |].
  split; [apply Hdecode, Hr1 |]. split; [apply Hdecode, Hr2 |].
  intros u H1 H2. apply in_map_iff in H1. destruct H1 as [c1 [<- Hin1]].
  apply in_map_iff in H2. destruct H2 as [c2 [E Hin2]].
  rewrite Forall_forall in Hr1, Hr2.
  pose proof (Hr1 c1 Hin1). pose proof (Hr2 c2 Hin2). apply Hne. nia.
Qed.

Lemma ucid_unique_across_positions_witness :
  make_df one_mapping_missing "exp/Position001/out_all" = Ok made_table
  /\ make_df one_mapping_missing "exp/Position002/out_all" = Ok made_table_002
  /\ exists ucid1 ucid2,
       getcol made_table "ucid" = Ok (map VInt ucid1)
       /\ getcol made_table_002 "ucid" = Ok (map VInt ucid2)
       /\ Forall2 (fun u c => u / 100000000000 = 1 /\ u mod 100000000000 = c)
                  ucid1 [0; 0; 1; 1; 2]
       /\ Forall2 (fun u c => u / 100000000000 = 2 /\ u mod 100000000000 = c)
                  ucid2 [0; 0; 1; 1; 2]
       /\ forall u, In u ucid1 -> ~ In u ucid2.
Proof.
  split; [vm_compute; reflexivity |]. split; [vm_compute; reflexivity |].
  apply (ucid_unique_across_positions one_mapping_missing
           "exp/Position001/out_all" "exp/Position002/out_all").
  - vm_compute. reflexivity.
  - vm_compute. reflexivity.
  - vm_compute. reflexivity.
  - vm_compute. reflexivity.
  - simpl. lia.
  - simpl. lia.
  - discriminate.
  - vm_compute. reflexivity.
  - vm_compute. reflexivity.
  - repeat constructor; lia.
  - repeat constructor; lia.
Defined.

(** *** Two records of one cell, frame and flag *)

Lemma has_duplicate_intro {A : Type} (eqb : A -> A -> bool)
  (l1 l2 l3 : list A) (a b : A) :
  eqb a b = true -> has_duplicate eqb (l1 ++ a :: l2 ++ b :: l3) = true.
Proof.
  intros H. induction l1 as [| x l1 IH]; cbn [app has_duplicate].
  - apply orb_true_iff. left. apply existsb_exists. exists b.
    split; [| exact H]. apply in_or_app. right. left. reflexivity.
  - rewrite IH. apply orb_true_r.
Qed.

Lemma mapM_pos_of_present (df : DataFrame) (cs : list string) :
  (forall c, In c cs -> In c (columns df)) ->
  exists ps, mapM (pos_of df) cs = Ok ps.
Proof.
  induction cs as [| c cs IH]; intros H.
  - exists []. reflexivity.
  - destruct (pos_of_present df c (H c (or_introl eq_refl))) as [i Hi].
    destruct IH as [ps Hps]; [intros c' Hc'; apply H; right; exact Hc' |].
    exists (i :: ps). cbn [mapM]. rewrite Hi. cbn [bind]. rewrite Hps. reflexivity.
Qed.

(** [_make_cols_chan], records written twice: when two rows of the table
    have the same ucid, the same t_frame and the same flag, the pivot
    raises the [ValueError] of pandas, Index contains duplicate entries,
    whatever the metadata table holds - the pivot comes first. *)
Theorem repeated_record_raises (df df_map : DataFrame) (iu it ifl : nat)
  (before between after : list (list value)) (r1 r2 : list value) :
  position "ucid" (columns df) = Some iu ->
  position "t_frame" (columns df) = Some it ->
  position "flag" (columns df) = Some ifl ->
  rows df = before ++ r1 :: between ++ r2 :: after ->
  same_tuple [cell iu r1; cell it r1; cell ifl r1]
             [cell iu r2; cell it r2; cell ifl r2] = true ->
  _make_cols_chan df df_map = Error DuplicateValueError.
Proof.
  intros Hu Ht Hf Hrows Hsame.
  destruct (mapM_pos_of_present df (filter is_fluor (columns df))) as [vpos Hvpos].
  { intros c Hc. apply filter_In in Hc. apply Hc. }
  unfold _make_cols_chan, pivot. cbn [mapM]. unfold pos_of at 1 2 3.
  rewrite Hu, Ht, Hf. cbn [bind]. rewrite Hvpos. cbn [bind].
  rewrite Hrows, map_app. cbn [map]. rewrite map_app. cbn [map].
  rewrite has_duplicate_intro; [reflexivity |].
  unfold same_record. cbn [fst snd same_tuple] in *.
  apply andb_true_iff in Hsame. destruct Hsame as [H1 Hsame].
  apply andb_true_iff in Hsame. destruct Hsame as [H2 Hsame].
  apply andb_true_iff in Hsame. destruct Hsame as [H3 _].
  rewrite H1, H2, H3. reflexivity.
Qed.

Lemma repeated_record_raises_witness :
  _make_cols_chan repeated_record_table mapping_table = Error DuplicateValueError
  /\ _make_cols_chan repeated_record_table cellID_mapping_table
     = Error DuplicateValueError.
Proof.
  split.
  - apply (repeated_record_raises repeated_record_table mapping_table 5 1 2
             [[VInt 0; VInt 0; VInt 0; VInt 10; VInt 5; VInt 100000000000; VInt 1]]
             [] []
             [VInt 0; VInt 0; VInt 1; VInt 20; VInt 5; VInt 100000000000; VInt 1]
             [VInt 0; VInt 0; VInt 1; VInt 21; VInt 5; VInt 100000000000; VInt 1]);
      reflexivity.
  - apply (repeated_record_raises repeated_record_table cellID_mapping_table 5 1 2
             [[VInt 0; VInt 0; VInt 0; VInt 10; VInt 5; VInt 100000000000; VInt 1]]
             [] []
             [VInt 0; VInt 0; VInt 1; VInt 20; VInt 5; VInt 100000000000; VInt 1]
             [VInt 0; VInt 0; VInt 1; VInt 21; VInt 5; VInt 100000000000; VInt 1]);
      reflexivity.
Defined.

(** *** Lists without two equivalent elements *)

Section Classes.
Context {A K : Type} (eqb : A -> A -> bool) (f : A -> K).
Hypothesis eqb_eq : forall a b, eqb a b = true <-> f a = f b.

Lemma eqb_refl_of (a : A) : eqb a a = true.
Proof. apply eqb_eq. reflexivity. Qed.

Lemma eqb_sym_of (a b : A) : eqb a b = eqb b a.
Proof.
  destruct (eqb a b) eqn:E1, (eqb b a) eqn:E2; try reflexivity.
  - apply eqb_eq in E1. symmetry in E1. apply eqb_eq in E1. congruence.
  - apply eqb_eq in E2. symmetry in E2. apply eqb_eq in E2. congruence.
Qed.

Lemma eqb_trans_of (a b c : A) : eqb a b = true -> eqb b c = true -> eqb a c = true.
Proof. rewrite !eqb_eq. congruence. Qed.

Lemma existsb_filter_le (p q : A -> bool) (l : list A) :
  existsb p l = false -> existsb p (filter q l) = false.
Proof.
  induction l as [| x l IH]; simpl; intros H; [reflexivity |].
  apply orb_false_iff in H. destruct H as [Hx Hl].
  destruct (q x); simpl; [rewrite Hx |]; apply IH, Hl.
Qed.

Lemma has_duplicate_filter (p : A -> bool) (l : list A) :
  has_duplicate eqb l = false -> has_duplicate eqb (filter p l) = false.
Proof.
  induction l as [| x l IH]; simpl; intros H; [reflexivity |].
  apply orb_false_iff in H. destruct H as [Hx Hl].
  destruct (p x); simpl.
  - rewrite (existsb_filter_le _ _ _ Hx). apply IH, Hl.
  - apply IH, Hl.
Qed.

Lemma existsb_filter_negb (x : A) (l : list A) :
  existsb (eqb x) (filter (fun y => negb (eqb x y)) l) = false.
Proof.
  induction l as [| y l IH]; [reflexivity |].
  simpl. destruct (eqb x y) eqn:E; simpl; [exact IH |].
  rewrite E. exact IH.
Qed.

Lemma unique_by_has_no_duplicate (l : list A) :
  has_duplicate eqb (unique_by eqb l) = false.
Proof.
  induction l as [| x l IH]; [reflexivity |].
  cbn [unique_by has_duplicate]. apply orb_false_iff. split.
  - apply existsb_filter_negb.
  - apply has_duplicate_filter, IH.
Qed.

(** A list without duplicates holds at most one element of a class. *)
Lemma one_in_class (l : list A) (k : A) :
  has_duplicate eqb l = false ->
  (List.length (filter (fun y => eqb y k) l) <= 1)%nat.
Proof.
  induction l as [| x l IH]; simpl; intros H; [lia |].
  apply orb_false_iff in H. destruct H as [Hx Hl].
  destruct (eqb x k) eqn:E; [| apply IH, Hl].
  rewrite filter_none; [simpl; lia |].
  intros y Hy. destruct (eqb y k) eqn:Ey; [| reflexivity].
  assert (Hxy : eqb x y = true).
  { apply (eqb_trans_of x k y E). rewrite eqb_sym_of. exact Ey. }
  assert (Hex : existsb (eqb x) l = true).
  { apply existsb_exists. exists y. split; assumption. }
  congruence.
Qed.

Lemma filter_length_lt (p : A -> bool) (l : list A) (b : A) :
  In b l -> p b = false -> (List.length (filter p l) < List.length l)%nat.
Proof.
  induction l as [| x l IH]; simpl; intros Hin Hp; [contradiction |].
  pose proof (filter_length_le p l) as Hle.
  destruct Hin as [-> | Hin].
  - rewrite Hp. lia.
  - specialize (IH Hin Hp). destruct (p x); simpl; lia.
Qed.

(** A list without duplicates is not longer than a list that holds an
    element of each of its classes. *)
Lemma classes_le (l : list A) :
  forall l',
    has_duplicate eqb l = false ->
    (forall a, In a l -> exists b, In b l' /\ eqb a b = true) ->
    (List.length l <= List.length l')%nat.
Proof.
  induction l as [| a l IH]; intros l' Hdup Hrep; [simpl; lia |].
  simpl in Hdup. apply orb_false_iff in Hdup. destruct Hdup as [Ha Hl].
  destruct (Hrep a (or_introl eq_refl)) as [b [Hb Hab]].
  assert (Hlt : (List.length (filter (fun y => negb (eqb a y)) l')
                 < List.length l')%nat).
  { apply (filter_length_lt _ l' b Hb). rewrite Hab. reflexivity. }
  assert (Hle : (List.length l
                 <= List.length (filter (fun y => negb (eqb a y)) l'))%nat).
  { apply IH; [exact Hl |].
    intros a' Ha'. destruct (Hrep a' (or_intror Ha')) as [b' [Hb' Hab']].
    exists b'. split; [| exact Hab'].
    apply filter_In. split; [exact Hb' |].
    destruct (eqb a b') eqn:E; [| reflexivity].
    assert (eqb a a' = true).
    { apply (eqb_trans_of a b' a' E). rewrite eqb_sym_of. exact Hab'. }
    assert (existsb (eqb a) l = true).
    { apply existsb_exists. exists a'. split; assumption. }
    congruence. }
  simpl. lia.
Qed.
End Classes.

Lemma same_tuple_refl (a : list value) : same_tuple a a = true.
Proof. apply same_tuple_eq. reflexivity. Qed.

Lemma same_tuple_sym (a b : list value) : same_tuple a b = same_tuple b a.
Proof. apply (eqb_sym_of same_tuple (map key_of) same_tuple_eq). Qed.

(** Sorting keeps the elements, with their number of occurrences. *)
Lemma insert_sorted_filter (p : list value -> bool) (k : list value)
  (l : list (list value)) :
  List.length (filter p (insert_sorted k l)) = List.length (filter p (k :: l)).
Proof.
  induction l as [| x l IH]; [reflexivity |].
  cbn [insert_sorted]. destruct (tuple_cmp k x); try reflexivity.
  cbn [filter] in *. destruct (p x), (p k); simpl in *; lia.
Qed.

Lemma sort_keys_filter (p : list value -> bool) (l : list (list value)) :
  List.length (filter p (sort_keys l)) = List.length (filter p l).
Proof.
  unfold sort_keys. induction l as [| x l IH]; [reflexivity |].
  cbn [fold_right]. rewrite insert_sorted_filter. cbn [filter].
  destruct (p x); simpl; rewrite IH; reflexivity.
Qed.

Lemma sort_keys_length (l : list (list value)) :
  List.length (sort_keys l) = List.length l.
Proof.
  pose proof (sort_keys_filter (fun _ => true) l) as H.
  rewrite !filter_all in H by (apply Forall_forall; reflexivity). exact H.
Qed.

Lemma existsb_insert_sorted (p : list value -> bool) (k : list value)
  (l : list (list value)) :
  existsb p (insert_sorted k l) = existsb p (k :: l).
Proof.
  induction l as [| x l IH]; [reflexivity |].
  cbn [insert_sorted]. destruct (tuple_cmp k x); try reflexivity.
  cbn [existsb] in *. rewrite IH. destruct (p x), (p k); reflexivity.
Qed.

Lemma has_duplicate_insert_sorted (k : list value) (l : list (list value)) :
  has_duplicate same_tuple (insert_sorted k l) = has_duplicate same_tuple (k :: l).
Proof.
  induction l as [| x l IH]; [reflexivity |].
  cbn [insert_sorted]. destruct (tuple_cmp k x); try reflexivity.
  cbn [has_duplicate] in *. rewrite IH, existsb_insert_sorted. cbn [existsb].
  rewrite (same_tuple_sym x k).
  destruct (same_tuple k x), (existsb (same_tuple x) l),
    (existsb (same_tuple k) l), (has_duplicate same_tuple l); reflexivity.
Qed.

Lemma existsb_sort_keys (p : list value -> bool) (l : list (list value)) :
  existsb p (sort_keys l) = existsb p l.
Proof.
  unfold sort_keys. induction l as [| x l IH]; [reflexivity |].
  cbn [fold_right]. rewrite existsb_insert_sorted. cbn [existsb].
  rewrite IH. reflexivity.
Qed.

Lemma has_duplicate_sort_keys (l : list (list value)) :
  has_duplicate same_tuple (sort_keys l) = has_duplicate same_tuple l.
Proof.
  induction l as [| x l IH]; [reflexivity |].
  change (sort_keys (x :: l)) with (insert_sorted x (sort_keys l)).
  rewrite has_duplicate_insert_sorted. cbn [has_duplicate].
  rewrite IH, existsb_sort_keys. reflexivity.
Qed.

(** *** One row for each cell and frame *)

Lemma filter_map_length {A B : Type} (p : B -> bool) (h : A -> B) (l : list A) :
  List.length (filter p (map h l)) = List.length (filter (fun x => p (h x)) l).
Proof.
  induction l as [| x l IH]; [reflexivity |].
  simpl. destruct (p (h x)); simpl; rewrite IH; reflexivity.
Qed.

Lemma map_fst_flat_map_single {A B : Type} (g : A -> list (A * B)) (l : list A) :
  (forall k, In k l -> exists b, g k = [(k, b)]) ->
  map fst (flat_map g l) = l.
Proof.
  induction l as [| k l IH]; intros H; [reflexivity |].
  cbn [flat_map]. rewrite map_app, IH by (intros k' Hk'; apply H; right; exact Hk').
  destruct (H k (or_introl eq_refl)) as [b ->]. reflexivity.
Qed.

(** The keys of an outer merge when the right table has one row for every
    key of either table and the left table has at most one row for a
    key: one row for each key, in sorted order. *)
Lemma merge_outer_keys (left right : Frame string) :
  has_duplicate same_tuple (map fst (entries right)) = false ->
  (forall k, In k (map fst (entries left)) ->
             exists k', In k' (map fst (entries right)) /\ same_tuple k k' = true) ->
  (forall k, (List.length (filter (fun e => same_tuple (fst e) k) (entries left))
              <= 1)%nat) ->
  map fst (entries (merge_outer left right))
  = sort_keys (unique_by same_tuple
                 (map fst (entries left) ++ map fst (entries right))).
Proof.
  intros Hdup Hrep Hleft. unfold merge_outer. cbn [entries].
  apply map_fst_flat_map_single. intros k Hk.
  apply (proj1 (sort_keys_In _ _)) in Hk.
  apply (unique_by_incl same_tuple) in Hk.
  assert (Hright : exists k', In k' (map fst (entries right))
                              /\ same_tuple k' k = true).
  { apply in_app_or in Hk. destruct Hk as [Hk | Hk].
    - destruct (Hrep k Hk) as [k' [Hk' E]]. exists k'. split; [exact Hk' |].
      rewrite same_tuple_sym. exact E.
    - exists k. split; [exact Hk | apply same_tuple_refl]. }
  destruct Hright as [k' [Hk' E]].
  pose proof (one_in_class same_tuple (map key_of) same_tuple_eq
                (map fst (entries right)) k Hdup) as Hone.
  rewrite filter_map_length in Hone.
  assert (Hsome : In k' (filter (fun y => same_tuple y k) (map fst (entries right)))).
  { apply filter_In. split; assumption. }
  destruct (filter (fun e => same_tuple (fst e) k) (entries right))
    as [| r [| r' rs]] eqn:Hrs.
  - exfalso. apply in_map_iff in Hk'. destruct Hk' as [e [<- He]].
    assert (Hin : In e (filter (fun e => same_tuple (fst e) k) (entries right))).
    { apply filter_In. split; assumption. }
    rewrite Hrs in Hin. contradiction.
  - specialize (Hleft k).
    destruct (filter (fun e => same_tuple (fst e) k) (entries left))
      as [| l [| l' ls]] eqn:Hls.
    + cbn [map]. eexists. reflexivity.
    + cbn [map flat_map app]. eexists. reflexivity.
    + simpl in Hleft. lia.
  - simpl in Hone. lia.
Qed.

(** The number of distinct keys of two lists when the second is without
    duplicates and holds every key of the first. *)
Lemma unique_by_app_length (lk kp : list (list value)) :
  has_duplicate same_tuple kp = false ->
  (forall k, In k lk -> exists k', In k' kp /\ same_tuple k k' = true) ->
  List.length (unique_by same_tuple (lk ++ kp)) = List.length kp.
Proof.
  intros Hdup Hrep. apply Nat.le_antisymm.
  - apply (classes_le same_tuple (map key_of) same_tuple_eq).
    + apply (unique_by_has_no_duplicate same_tuple).
    + intros a Ha. apply (unique_by_incl same_tuple) in Ha.
      apply in_app_or in Ha. destruct Ha as [Ha | Ha].
      * apply Hrep, Ha.
      * exists a. split; [exact Ha | apply same_tuple_refl].
  - apply (classes_le same_tuple (map key_of) same_tuple_eq); [exact Hdup |].
    intros a Ha.
    destruct (unique_by_represents same_tuple (map key_of) same_tuple_eq
                (lk ++ kp) a) as [y [Hy Hf]].
    { apply in_or_app. right. exact Ha. }
    exists y. split; [exact Hy |]. apply same_tuple_eq. symmetry. exact Hf.
Qed.

(** A selected cell is the cell of the table selected from. *)
Lemma cell_select (df : DataFrame) (cs : list string) (ps : list nat)
  (c : string) (j i : nat) (row : list value) :
  mapM (pos_of df) cs = Ok ps ->
  position c cs = Some j ->
  pos_of df c = Ok i ->
  cell j (map (fun i => cell i row) ps) = cell i row.
Proof.
  intros Hps. apply mapM_Ok_Forall2 in Hps. revert j.
  induction Hps as [| c' p cs ps Hc' _ IH]; intros j Hj Hi; [discriminate Hj |].
  cbn [position] in Hj. destruct (String.eqb_spec c c') as [-> | Hne].
  - injection Hj as <-. assert (p = i) by congruence. subst p. reflexivity.
  - destruct (position c cs) as [j' |]; [| discriminate Hj].
    injection Hj as <-. cbn [map]. unfold cell at 1. cbn [nth].
    apply (IH j' eq_refl Hi).
Qed.

Lemma mapM_pos_of_two (df : DataFrame) (a b : string) (ps : list nat) :
  mapM (pos_of df) [a; b] = Ok ps ->
  exists i j, ps = [i; j] /\ pos_of df a = Ok i /\ pos_of df b = Ok j.
Proof.
  cbn [mapM]. intros H. inv_bind H as i Hi. inv_bind H as r Hr.
  inv_bind Hr as j Hj. injection Hr as <-. injection H as <-.
  exists i, j. repeat split; assumption.
Qed.

(** The rows whose flag is 0 hold at most one row for a key when no two
    rows have the same key and the same flag. *)
Lemma flag0_rows_one_per_key (key : list value -> list value) (fpos : nat)
  (vals : list value -> list value) (rows : list (list value)) (k : list value) :
  has_duplicate same_record
    (map (fun row => (key row, cell fpos row, vals row)) rows) = false ->
  (List.length
     (filter (fun row => same_tuple (key row) k)
             (filter (fun row => py_eq (cell fpos row) (VInt 0)) rows)) <= 1)%nat.
Proof.
  induction rows as [| row rows IH]; cbn [map has_duplicate filter]; intros H;
    [simpl; lia |].
  apply orb_false_iff in H. destruct H as [Hrow Hrows].
  destruct (py_eq (cell fpos row) (VInt 0)) eqn:Hflag; [| apply IH, Hrows].
  cbn [filter]. destruct (same_tuple (key row) k) eqn:Hkey; [| apply IH, Hrows].
  rewrite filter_none; [simpl; lia |].
  intros row' Hrow'. apply filter_In in Hrow'. destruct Hrow' as [Hin Hflag'].
  destruct (same_tuple (key row') k) eqn:Hkey'; [| reflexivity].
  exfalso.
  assert (Hex : existsb (same_record (key row, cell fpos row, vals row))
                  (map (fun row => (key row, cell fpos row, vals row)) rows) = true).
  { apply existsb_exists. exists (key row', cell fpos row', vals row').
    split;
      [exact (in_map (fun row => (key row, cell fpos row, vals row)) rows row' Hin) |].
    unfold same_record. cbn [fst snd]. apply andb_true_iff. split.
    - apply same_tuple_eq. apply same_tuple_eq in Hkey, Hkey'. congruence.
    - apply same_key_eq. apply py_eq_same_key in Hflag, Hflag'. congruence. }
  congruence.
Qed.

Lemma positions_without_length (cs cols : list string) :
  List.length (positions_without cs cols)
  = List.length (filter (fun c => negb (mem c cs)) cols).
Proof.
  unfold positions_without. rewrite length_map.
  generalize 0%nat. induction cols as [| c cols IH]; intros s; [reflexivity |].
  cbn [List.length seq combine filter snd].
  destruct (negb (mem c cs)); cbn [List.length]; rewrite IH; reflexivity.
Qed.

Lemma combine_map {A B C : Type} (f : A -> B) (g : A -> C) (l : list A) :
  combine (map f l) (map g l) = map (fun x => (f x, g x)) l.
Proof. induction l as [| x l IH]; simpl; [reflexivity | rewrite IH; reflexivity]. Qed.

(** The two sides of the merge of [_make_cols_chan]: the keys of the
    pivoted table are the distinct keys of the table, sorted; the keys of
    the morphological table are those of the rows whose flag is 0, and no
    two of its rows have the same key. *)
Lemma make_cols_chan_sides (df : DataFrame) (p : Frame (string * value))
  (fpos : nat) (sel : DataFrame) (df_morf : Frame string) :
  pivot df ["ucid"; "t_frame"] "flag" (filter is_fluor (columns df)) = Ok p ->
  position "flag" (columns df) = Some fpos ->
  select (mkDF (columns df)
               (filter (fun row => py_eq (cell fpos row) (VInt 0)) (rows df)))
         (filter (fun name => negb (is_fluor name)) (columns df)) = Ok sel ->
  set_index sel ["ucid"; "t_frame"] = Ok df_morf ->
  exists iu it,
    position "ucid" (columns df) = Some iu
    /\ position "t_frame" (columns df) = Some it
    /\ index_names p = ["ucid"; "t_frame"]
    /\ index_names df_morf = ["ucid"; "t_frame"]
    /\ map fst (entries p)
       = sort_keys (unique_by same_tuple
                      (map (fun row => [cell iu row; cell it row]) (rows df)))
    /\ map fst (entries df_morf)
       = map (fun row => [cell iu row; cell it row])
             (filter (fun row => py_eq (cell fpos row) (VInt 0)) (rows df))
    /\ forall k,
         (List.length (filter (fun e => same_tuple (fst e) k) (entries df_morf))
          <= 1)%nat.
Proof.
  intros Hpivot Hfpos Hsel Hidx.
  unfold pivot in Hpivot.
  inv_bind Hpivot as ipos Hipos. inv_bind Hpivot as fpos' Hfpos'.
  inv_bind Hpivot as vpos Hvpos.
  destruct (mapM_pos_of_two _ _ _ _ Hipos) as [iu [it [-> [Hiu Hit]]]].
  assert (fpos' = fpos).
  { unfold pos_of in Hfpos'. rewrite Hfpos in Hfpos'. congruence. }
  subst fpos'.
  destruct (has_duplicate same_record _) eqn:Hdup; [discriminate Hpivot |].
  injection Hpivot as <-. cbn [map] in Hdup.
  unfold select in Hsel. inv_bind Hsel as ps Hps. injection Hsel as <-.
  unfold set_index in Hidx. inv_bind Hidx as kpos Hkpos. injection Hidx as <-.
  destruct (mapM_pos_of_two _ _ _ _ Hkpos) as [ju [jt [-> [Hju Hjt]]]].
  cbn [columns rows entries index_names] in *.
  assert (Hpu : position "ucid" (columns df) = Some iu).
  { unfold pos_of in Hiu. destruct (position "ucid" (columns df)); congruence. }
  assert (Hpt : position "t_frame" (columns df) = Some it).
  { unfold pos_of in Hit. destruct (position "t_frame" (columns df)); congruence. }
  assert (Hqu : position "ucid" (filter (fun name => negb (is_fluor name)) (columns df))
                = Some ju).
  { unfold pos_of in Hju. cbn [columns] in Hju.
    destruct (position "ucid" _); congruence. }
  assert (Hqt : position "t_frame" (filter (fun name => negb (is_fluor name)) (columns df))
                = Some jt).
  { unfold pos_of in Hjt. cbn [columns] in Hjt.
    destruct (position "t_frame" _); congruence. }
  assert (Hkey : forall row,
            [cell ju (map (fun i => cell i row) ps);
             cell jt (map (fun i => cell i row) ps)]
            = [cell iu row; cell it row]).
  { intros row.
    rewrite (cell_select _ _ _ "ucid" ju iu row Hps Hqu Hiu).
    rewrite (cell_select _ _ _ "t_frame" jt it row Hps Hqt Hit).
    reflexivity. }
  exists iu, it.
  split; [exact Hpu |]. split; [exact Hpt |].
  split; [reflexivity |]. split; [reflexivity |].
  split; [| split].
  - rewrite map_map. cbn [fst]. rewrite map_id. rewrite map_map. reflexivity.
  - rewrite !map_map. cbn [fst map]. apply map_ext. exact Hkey.
  - intros k. rewrite map_map.
    rewrite (filter_map_length (fun e : list value * list value => same_tuple (fst e) k)).
    cbn [fst map].
    rewrite (filter_ext _ (fun row => same_tuple [cell iu row; cell it row] k))
      by (intros row; rewrite Hkey; reflexivity).
    apply (flag0_rows_one_per_key (fun row => [cell iu row; cell it row]) fpos
             (fun row => map (fun i => cell i row) vpos)).
    exact Hdup.
Qed.

(** The end of [_make_cols_chan]: the index comes back as columns and the
    relevant columns are put first.  The cells ucid and t_frame of a row
    are its key, and every row has a cell for every column. *)
Lemma make_cols_chan_tail (merged : Frame string) (df2 left rest : DataFrame) :
  index_names merged = ["ucid"; "t_frame"] ->
  Forall (fun k => List.length k = 2%nat) (map fst (entries merged)) ->
  reset_index merged = Ok df2 ->
  select df2 relevant = Ok left ->
  drop_columns df2 relevant = Ok rest ->
  map (fun row => [cell 2 row; cell 1 row]) (rows (concat_columns left rest))
  = map fst (entries merged)
  /\ Forall (fun row => List.length row
                        = List.length (columns (concat_columns left rest)))
            (rows (concat_columns left rest)).
Proof.
  intros Hnames Hkeys Hreset Hleft Hrest.
  unfold reset_index in Hreset. rewrite Hnames in Hreset.
  destruct (filter _ _); [| discriminate Hreset]. injection Hreset as <-.
  unfold select in Hleft. inv_bind Hleft as ps Hps. injection Hleft as <-.
  unfold drop_columns in Hrest. inv_bind Hrest as ps' Hps'. injection Hrest as <-.
  unfold relevant in Hps. cbn [mapM] in Hps.
  inv_bind Hps as pp Hpp. inv_bind Hps as r1 Hr1.
  inv_bind Hr1 as p1 Hp1. inv_bind Hr1 as r2 Hr2.
  inv_bind Hr2 as p0 Hp0. inv_bind Hr2 as r3 Hr3.
  inv_bind Hr3 as pc Hpc. injection Hr3 as <-. injection Hr2 as <-.
  injection Hr1 as <-. injection Hps as <-.
  assert (p1 = 1%nat) by (vm_compute in Hp1; congruence). subst p1.
  assert (p0 = 0%nat) by (vm_compute in Hp0; congruence). subst p0.
  unfold concat_columns. cbn [columns rows].
  rewrite combine_map, !map_map. cbn [fst snd map app]. split.
  - rewrite <- (map_id (map fst (entries merged))), map_map.
    apply map_ext_in. intros e He.
    rewrite Forall_forall in Hkeys. specialize (Hkeys (fst e) (in_map fst _ _ He)).
    destruct (fst e) as [| a [| b [| c k]]]; try discriminate Hkeys.
    reflexivity.
  - apply Forall_forall. intros row Hrow. apply in_map_iff in Hrow.
    destruct Hrow as [e [<- _]].
    cbn [List.length]. rewrite !length_app, !length_map. cbn [List.length].
    rewrite positions_without_length. reflexivity.
Qed.

(** [_make_cols_chan], the rows: a reshaped table has one row for every
    distinct pair (ucid, t_frame) of the table given and no other row - no
    two of its rows have the same ucid and t_frame; its columns ucid and
    t_frame are the third and the second; every row has one cell for every
    column. *)
Theorem reshaped_rows_are_the_distinct_keys (df df_map out : DataFrame) :
  _make_cols_chan df df_map = Ok out ->
  exists iu it,
    position "ucid" (columns df) = Some iu
    /\ position "t_frame" (columns df) = Some it
    /\ position "ucid" (columns out) = Some 2%nat
    /\ position "t_frame" (columns out) = Some 1%nat
    /\ List.length (rows out)
       = List.length
           (unique_by same_tuple
              (map (fun row => [cell iu row; cell it row]) (rows df)))
    /\ has_duplicate same_tuple
         (map (fun row => [cell 2 row; cell 1 row]) (rows out)) = false
    /\ (forall row, In row (rows df) ->
          exists row', In row' (rows out)
                       /\ same_tuple [cell iu row; cell it row]
                                     [cell 2 row'; cell 1 row'] = true)
    /\ Forall (fun row => List.length row = List.length (columns out)) (rows out).
Proof.
  unfold _make_cols_chan. intros H.
  inv_bind H as p Hpivot.
  inv_bind H as chanels Hchanels. inv_bind H as names Hnames.
  inv_bind H as fpos Hfpos. inv_bind H as sel Hsel.
  inv_bind H as df_morf Hidx. inv_bind H as df2 Hreset.
  inv_bind H as left Hleft. inv_bind H as rest Hrest.
  injection H as <-.
  destruct (position "flag" (columns df)) as [fpos' |] eqn:Hflag;
    [| discriminate Hfpos].
  injection Hfpos as ->.
  destruct (make_cols_chan_sides _ _ _ _ _ Hpivot Hflag Hsel Hidx)
    as [iu [it [Hpu [Hpt [Hnp [Hnm [Hkp [Hlk Hone]]]]]]]].
  set (key := fun row : list value => [cell iu row; cell it row]) in *.
  set (right := mkFrame (index_names p) names (entries p)) in *.
  assert (Hdup : has_duplicate same_tuple (map fst (entries right)) = false).
  { cbn [right entries]. rewrite Hkp, has_duplicate_sort_keys.
    apply (unique_by_has_no_duplicate same_tuple). }
  assert (Hrep_all : forall k, In k (map key (rows df)) ->
            exists k', In k' (map fst (entries right)) /\ same_tuple k k' = true).
  { intros k Hk.
    destruct (unique_by_represents same_tuple (map key_of) same_tuple_eq _ k Hk)
      as [y [Hy Hf]].
    exists y. split.
    - cbn [right entries]. rewrite Hkp. apply sort_keys_In. exact Hy.
    - apply same_tuple_eq. symmetry. exact Hf. }
  assert (Hrep : forall k, In k (map fst (entries df_morf)) ->
            exists k', In k' (map fst (entries right)) /\ same_tuple k k' = true).
  { intros k Hk. apply Hrep_all. rewrite Hlk in Hk.
    apply in_map_iff in Hk. destruct Hk as [row [<- Hrow]].
    apply filter_In in Hrow. apply in_map. apply Hrow. }
  pose proof (merge_outer_keys df_morf right Hdup Hrep Hone) as Hkeys.
  assert (Hlen2 : Forall (fun k => List.length k = 2%nat)
                         (map fst (entries (merge_outer df_morf right)))).
  { rewrite Hkeys. apply Forall_forall. intros k Hk.
    apply (proj1 (sort_keys_In _ _)) in Hk.
    apply (unique_by_incl same_tuple) in Hk.
    apply in_app_or in Hk. destruct Hk as [Hk | Hk].
    - rewrite Hlk in Hk. apply in_map_iff in Hk. destruct Hk as [row [<- _]].
      reflexivity.
    - cbn [right entries] in Hk. rewrite Hkp in Hk.
      apply (proj1 (sort_keys_In _ _)) in Hk.
      apply (unique_by_incl same_tuple) in Hk.
      apply in_map_iff in Hk. destruct Hk as [row [<- _]]. reflexivity. }
  assert (Hnames' : index_names (merge_outer df_morf right) = ["ucid"; "t_frame"])
    by exact Hnm.
  destruct (make_cols_chan_tail _ _ _ _ Hnames' Hlen2 Hreset Hleft Hrest)
    as [Hout Hwidth].
  rewrite Hkeys in Hout.
  exists iu, it.
  split; [exact Hpu |]. split; [exact Hpt |].
  split; [| split].
  - cbn [concat_columns columns]. rewrite (select_columns _ _ _ Hleft). reflexivity.
  - cbn [concat_columns columns]. rewrite (select_columns _ _ _ Hleft). reflexivity.
  - split; [| split; [| split]].
    + rewrite <- (length_map (fun row => [cell 2 row; cell 1 row])), Hout.
      rewrite sort_keys_length.
      rewrite (unique_by_app_length _ _ Hdup Hrep).
      cbn [right entries]. rewrite Hkp. apply sort_keys_length.
    + rewrite Hout, has_duplicate_sort_keys.
      apply (unique_by_has_no_duplicate same_tuple).
    + intros row Hrow.
      destruct (Hrep_all (key row) (in_map key _ _ Hrow)) as [k' [Hk' E]].
      destruct (unique_by_represents same_tuple (map key_of) same_tuple_eq
                  (map fst (entries df_morf) ++ map fst (entries right)) k')
        as [y [Hy Hf]].
      { apply in_or_app. right. exact Hk'. }
      apply (proj2 (sort_keys_In _ _)) in Hy. rewrite <- Hout in Hy.
      apply in_map_iff in Hy. destruct Hy as [row' [Hrow' Hin']].
      exists row'. split; [exact Hin' |]. rewrite Hrow'.
      apply same_tuple_eq. apply same_tuple_eq in E. unfold key in E.
      congruence.
    + exact Hwidth.
Qed.

Lemma reshaped_rows_are_the_distinct_keys_witness :
  _make_cols_chan made_table mapping_table = Ok merged_table
  /\ exists iu it,
       position "ucid" (columns made_table) = Some iu
       /\ position "t_frame" (columns made_table) = Some it
       /\ position "ucid" (columns merged_table) = Some 2%nat
       /\ position "t_frame" (columns merged_table) = Some 1%nat
       /\ List.length (rows merged_table)
          = List.length
              (unique_by same_tuple
                 (map (fun row => [cell iu row; cell it row]) (rows made_table)))
       /\ has_duplicate same_tuple
            (map (fun row => [cell 2 row; cell 1 row]) (rows merged_table)) = false
       /\ (forall row, In row (rows made_table) ->
             exists row', In row' (rows merged_table)
                          /\ same_tuple [cell iu row; cell it row]
                                        [cell 2 row'; cell 1 row'] = true)
       /\ Forall (fun row => List.length row = List.length (columns merged_table))
                 (rows merged_table).
Proof.
  split; [vm_compute; reflexivity |].
  apply (reshaped_rows_are_the_distinct_keys made_table mapping_table merged_table).
  vm_compute. reflexivity.
Defined.

(** *** Data files and metadata files are paired in order *)

(** One turn reads the first metadata file and passes the others on. *)
Lemma merge_one_cons (fs : FileSystem) (d m : string) (rest : list string) :
  merge_one fs d (m :: rest)
  = (' (t, _) <- merge_one fs d [m] ;; Ok (t, rest)).
Proof.
  unfold merge_one. destruct (make_df fs d) as [df |]; cbn [bind next]; [| reflexivity].
  destruct (read_table fs m) as [df_map |]; cbn [bind]; [| reflexivity].
  destruct (_make_cols_chan df df_map); reflexivity.
Qed.

Lemma merge_one_single (fs : FileSystem) (d m : string) (t : DataFrame)
  (rest : list string) :
  merge_one fs d [m] = Ok (t, rest) -> rest = [].
Proof.
  intros H. destruct (merge_one_Ok _ _ _ _ _ H) as [m' [E _]]. congruence.
Qed.

Lemma merge_one_ext (fs fs' : FileSystem) (d : string) (fm : list string) :
  (forall p, read_table fs' p = read_table fs p) ->
  merge_one fs' d fm = merge_one fs d fm.
Proof.
  intros Hread. unfold merge_one, make_df, read_df. rewrite Hread.
  destruct (read_table fs d) as [t |]; cbn [bind]; [| reflexivity].
  destruct (position_of_path d); cbn [bind]; [| reflexivity].
  destruct (_create_ucid _ _); cbn [bind]; [| reflexivity].
  destruct (linspace_int _ _); cbn [bind]; [| reflexivity].
  destruct fm as [| m fm]; cbn [bind next]; [reflexivity |].
  rewrite Hread. reflexivity.
Qed.

Lemma merge_loop_surplus (fs : FileSystem) (extra : list string) :
  forall data_tables file_mapping df,
    (List.length data_tables <= List.length file_mapping)%nat ->
    merge_loop fs data_tables (file_mapping ++ extra) df
    = merge_loop fs data_tables file_mapping df.
Proof.
  induction data_tables as [| d ds IH]; intros fm df Hlen; [reflexivity |].
  destruct fm as [| m fm]; [simpl in Hlen; lia |].
  cbn [merge_loop app].
  rewrite (merge_one_cons fs d m (fm ++ extra)), (merge_one_cons fs d m fm).
  destruct (merge_one fs d [m]) as [[t r] | e]; cbn [bind]; [| reflexivity].
  destruct (pd_concat df t) as [df' |]; cbn [bind]; [| reflexivity].
  apply IH. simpl in Hlen. lia.
Qed.

(** [merge_tables], metadata files in excess: the metadata files found
    after as many as there are data files are never read.  A directory
    that differs only by such files gives the same result, table or
    exception. *)
Theorem surplus_metadata_is_ignored (fs fs' : FileSystem)
  (path n_data n_mdata : string) (extra : list string) :
  path_exists fs' path = path_exists fs path ->
  (forall p, read_table fs' p = read_table fs p) ->
  rglob fs' path n_data = rglob fs path n_data ->
  rglob fs' path n_mdata = rglob fs path n_mdata ++ extra ->
  (List.length (rglob fs path n_data) <= List.length (rglob fs path n_mdata))%nat ->
  merge_tables fs' path n_data n_mdata = merge_tables fs path n_data n_mdata.
Proof.
  intros Hex Hread Hdata Hmap Hlen. unfold merge_tables.
  rewrite Hex, Hdata, Hmap.
  destruct (negb (path_exists fs path)); [reflexivity |].
  destruct (rglob fs path n_data) as [| d ds]; [reflexivity |].
  destruct (rglob fs path n_mdata) as [| m ms]; [simpl in Hlen; lia |].
  cbn [next bind app]. rewrite (merge_one_ext fs fs') by exact Hread.
  rewrite (merge_one_cons fs d m (ms ++ extra)), (merge_one_cons fs d m ms).
  destruct (merge_one fs d [m]) as [[t r] | e]; cbn [bind]; [| reflexivity].
  rewrite (merge_loop_ext fs fs') by exact Hread.
  apply merge_loop_surplus. simpl in Hlen. lia.
Qed.

Lemma fold_concat_Error (ts : list DataFrame) (e : exn) :
  fold_left (fun acc t => a <- acc ;; pd_concat a t) ts (Error e) = Error e.
Proof. induction ts as [| t ts IH]; simpl; [reflexivity | exact IH]. Qed.

(** The loop of [merge_tables] returns exactly when every data file and
    the metadata file at the same rank are merged, and the tables obtained
    are concatenated from the left. *)
Lemma merge_loop_pairs (fs : FileSystem) :
  forall data_tables file_mapping df out,
    (List.length data_tables <= List.length file_mapping)%nat ->
    merge_loop fs data_tables file_mapping df = Ok out <->
    exists ts,
      Forall2 (fun dm t => merge_one fs (fst dm) [snd dm] = Ok (t, []))
              (combine data_tables file_mapping) ts
      /\ fold_left (fun acc t => a <- acc ;; pd_concat a t) ts (Ok df) = Ok out.
Proof.
  induction data_tables as [| d ds IH]; intros fm df out Hlen.
  - cbn [merge_loop combine]. split.
    + intros H. exists []. split; [constructor | exact H].
    + intros [ts [Hts H]]. inversion Hts; subst. exact H.
  - destruct fm as [| m fm]; [simpl in Hlen; lia |].
    cbn [merge_loop combine]. rewrite (merge_one_cons fs d m fm). split.
    + intros H. destruct (merge_one fs d [m]) as [[t r] | e] eqn:Hone;
        cbn [bind] in H; [| discriminate H].
      pose proof (merge_one_single _ _ _ _ _ Hone). subst r.
      destruct (pd_concat df t) as [df' |] eqn:Hcat; cbn [bind] in H;
        [| discriminate H].
      apply IH in H; [| simpl in Hlen; lia].
      destruct H as [ts [Hts Hfold]]. exists (t :: ts). split.
      * constructor; [exact Hone | exact Hts].
      * cbn [fold_left bind]. rewrite Hcat. exact Hfold.
    + intros [ts [Hts Hfold]]. inversion Hts as [| dm t l ts' Hone Hts' E1 E2]; subst.
      cbn [fst snd] in Hone. rewrite Hone. cbn [bind].
      cbn [fold_left bind] in Hfold.
      destruct (pd_concat df t) as [df' |] eqn:Hcat.
      * cbn [bind]. apply IH; [simpl in Hlen; lia |].
        exists ts'. split; [exact Hts' | exact Hfold].
      * rewrite fold_concat_Error in Hfold. discriminate Hfold.
Qed.

(** [merge_tables], the pairing: with at least as many metadata files as
    data files, a table is returned exactly when every data file, merged
    with the metadata file of the same rank in the listing, gives a table,
    and these tables are concatenated without error, from the first to
    the last.  The names of the files play no part in the pairing. *)
Theorem files_are_paired_by_rank (fs : FileSystem) (path n_data n_mdata : string)
  (out : DataFrame) :
  path_exists fs path = true ->
  (List.length (rglob fs path n_data) <= List.length (rglob fs path n_mdata))%nat ->
  merge_tables fs path n_data n_mdata = Ok out <->
  exists t ts,
    Forall2 (fun dm t => merge_one fs (fst dm) [snd dm] = Ok (t, []))
            (combine (rglob fs path n_data) (rglob fs path n_mdata)) (t :: ts)
    /\ fold_left (fun acc t => a <- acc ;; pd_concat a t) ts (Ok t) = Ok out.
Proof.
  intros Hex Hlen. unfold merge_tables. rewrite Hex. cbn [negb].
  destruct (rglob fs path n_data) as [| d ds].
  - cbn [next bind combine]. split; [discriminate |].
    intros [t [ts [H _]]]. inversion H.
  - destruct (rglob fs path n_mdata) as [| m ms]; [simpl in Hlen; lia |].
    cbn [next bind combine]. rewrite (merge_one_cons fs d m ms). split.
    + intros H. destruct (merge_one fs d [m]) as [[t r] | e] eqn:Hone;
        cbn [bind] in H; [| discriminate H].
      pose proof (merge_one_single _ _ _ _ _ Hone). subst r.
      apply merge_loop_pairs in H; [| simpl in Hlen; lia].
      destruct H as [ts [Hts Hfold]]. exists t, ts. split.
      * constructor; [exact Hone | exact Hts].
      * exact Hfold.
    + intros [t [ts [Hts Hfold]]].
      inversion Hts as [| dm t' l ts' Hone Hts' E1 E2]; subst.
      cbn [fst snd] in Hone. rewrite Hone. cbn [bind].
      apply merge_loop_pairs; [simpl in Hlen; lia |].
      exists ts. split; [exact Hts' | exact Hfold].
Qed.

Lemma files_are_paired_by_rank_witness :
  path_exists same_position_twice "exp" = true
  /\ merge_tables same_position_twice "exp" "out_all" "*mapping"
     = Ok (mkDF (columns merged_table) (rows merged_table ++ rows merged_table))
  /\ exists t ts,
       Forall2 (fun dm t => merge_one same_position_twice (fst dm) [snd dm] = Ok (t, []))
               (combine (rglob same_position_twice "exp" "out_all")
                        (rglob same_position_twice "exp" "*mapping")) (t :: ts)
       /\ fold_left (fun acc t => a <- acc ;; pd_concat a t) ts (Ok t)
          = Ok (mkDF (columns merged_table) (rows merged_table ++ rows merged_table)).
Proof.
  split; [reflexivity |]. split; [vm_compute; reflexivity |].
  apply (proj1 (files_are_paired_by_rank same_position_twice "exp" "out_all" "*mapping"
                  (mkDF (columns merged_table) (rows merged_table ++ rows merged_table))
                  eq_refl (le_n 2))).
  vm_compute. reflexivity.
Defined.

Lemma surplus_metadata_is_ignored_witness :
  merge_tables one_mapping_in_excess "exp" "out_all" "*mapping"
  = merge_tables one_position "exp" "out_all" "*mapping"
  /\ rglob one_mapping_in_excess "exp" "*mapping"
     = ["exp/Position001/out_bf_fl_mapping"; "exp/notes_mapping"]
  /\ read_table one_mapping_in_excess "exp/notes_mapping"
     = Error (ReadError "exp/notes_mapping").
Proof.
  split; [| split; reflexivity].
  apply (surplus_metadata_is_ignored one_position one_mapping_in_excess
           "exp" "out_all" "*mapping" ["exp/notes_mapping"]).
  - reflexivity.
  - intros p. reflexivity.
  - reflexivity.
  - reflexivity.
  - simpl. lia.
Defined.

(** *** Tables with different columns *)




Lemma pd_concat_shape (a b c : DataFrame) :
  pd_concat a b = Ok c ->
  columns c = columns a ++ filter (fun l => negb (mem l (columns a))) (columns b)
  /\ List.length (rows c) = (List.length (rows a) + List.length (rows b))%nat.
Proof.
  unfold pd_concat.
  destruct (list_eq_dec string_dec (columns a) (columns b)) as [E | _].
  - intros H. injection H as <-. cbn [columns rows]. split.
    + rewrite <- E. rewrite filter_none; [symmetry; apply app_nil_r |].
      intros x Hx. apply mem_In in Hx. rewrite Hx. reflexivity.
    + apply length_app.
  - destruct (has_duplicate String.eqb (columns a)
              || has_duplicate String.eqb (columns b))%bool; [discriminate |].
    intros H. injection H as <-. cbn [columns rows]. split; [reflexivity |].
    rewrite length_app. unfold reindex. rewrite !length_map. reflexivity.
Qed.



(** *** The rows of a merged table *)

Lemma merge_loop_tables (fs : FileSystem) :
  forall data_tables file_mapping df out,
    merge_loop fs data_tables file_mapping df = Ok out ->
    exists ts,
      Forall2 (fun d t => exists m, In m file_mapping
                                    /\ merge_one fs d [m] = Ok (t, []))
              data_tables ts
      /\ fold_left (fun acc t => a <- acc ;; pd_concat a t) ts (Ok df) = Ok out.
Proof.
  induction data_tables as [| d ds IH]; intros fm df out H.
  - exists []. split; [constructor | exact H].
  - cbn [merge_loop] in H.
    destruct (merge_one fs d fm) as [[t fm'] | e] eqn:Hone; cbn [bind] in H;
      [| discriminate H].
    destruct (merge_one_Ok _ _ _ _ _ Hone) as [m [-> Hrest]].
    destruct (pd_concat df t) as [df' |] eqn:Hcat; cbn [bind] in H;
      [| discriminate H].
    apply IH in H. destruct H as [ts [Hts Hfold]].
    exists (t :: ts). split.
    + constructor.
      * exists m. split; [left; reflexivity | apply Hrest].
      * revert Hts. apply Forall2_impl. intros a b [m' [Hin Hm']].
        exists m'. split; [right; exact Hin | exact Hm'].
    + cbn [fold_left bind]. rewrite Hcat. exact Hfold.
Qed.

Lemma fold_concat_rows (ts : list DataFrame) :
  forall df out,
    fold_left (fun acc t => a <- acc ;; pd_concat a t) ts (Ok df) = Ok out ->
    List.length (rows out)
    = (List.length (rows df) + list_sum (map (fun t => List.length (rows t)) ts))%nat
    /\ exists more, columns out = columns df ++ more.
Proof.
  induction ts as [| t ts IH]; intros df out H.
  - injection H as <-. split; [simpl; lia | exists []; symmetry; apply app_nil_r].
  - cbn [fold_left bind] in H.
    destruct (pd_concat df t) as [df' |] eqn:Hcat;
      [| rewrite fold_concat_Error in H; discriminate H].
    destruct (pd_concat_shape _ _ _ Hcat) as [Hcols Hrows].
    destruct (IH _ _ H) as [Hlen [more Hmore]]. split.
    + rewrite Hlen, Hrows. simpl. lia.
    + rewrite Hmore, Hcols, <- app_assoc. eexists. reflexivity.
Qed.

(** [merge_tables], the rows: the table returned has as many rows as the
    tables of the data files together, each data file being merged with
    one metadata file; its first columns are the columns of the table of
    the first data file, in their order. *)
Theorem merged_rows_are_the_rows_of_the_files (fs : FileSystem)
  (path n_data n_mdata : string) (out : DataFrame) :
  merge_tables fs path n_data n_mdata = Ok out ->
  exists t ts,
    Forall2 (fun d t' => exists m, In m (rglob fs path n_mdata)
                                   /\ merge_one fs d [m] = Ok (t', []))
            (rglob fs path n_data) (t :: ts)
    /\ List.length (rows out)
       = list_sum (map (fun t' => List.length (rows t')) (t :: ts))
    /\ exists more, columns out = columns t ++ more.
Proof.
  unfold merge_tables. intros H.
  destruct (negb (path_exists fs path)); [discriminate H |].
  destruct (rglob fs path n_data) as [| d ds]; [discriminate H |].
  cbn [next bind] in H.
  destruct (merge_one fs d (rglob fs path n_mdata)) as [[t fm'] | e] eqn:Hone;
    cbn [bind] in H; [| discriminate H].
  destruct (merge_one_Ok _ _ _ _ _ Hone) as [m [Hfm Hrest]].
  apply merge_loop_tables in H. destruct H as [ts [Hts Hfold]].
  destruct (fold_concat_rows _ _ _ Hfold) as [Hlen Hmore].
  exists t, ts. split; [| split].
  - constructor.
    + exists m. split; [rewrite Hfm; left; reflexivity | apply Hrest].
    + revert Hts. apply Forall2_impl. intros a b [m' [Hin Hm']].
      exists m'. split; [rewrite Hfm; right; exact Hin | exact Hm'].
  - cbn [map list_sum]. exact Hlen.
  - exact Hmore.
Qed.

Lemma merged_rows_are_the_rows_of_the_files_witness :
  merge_tables same_position_twice "exp" "out_all" "*mapping"
  = Ok (mkDF (columns merged_table) (rows merged_table ++ rows merged_table))
  /\ exists t ts,
       Forall2 (fun d t' => exists m, In m (rglob same_position_twice "exp" "*mapping")
                                      /\ merge_one same_position_twice d [m] = Ok (t', []))
               (rglob same_position_twice "exp" "out_all") (t :: ts)
       /\ List.length (rows merged_table ++ rows merged_table)
          = list_sum (map (fun t' => List.length (rows t')) (t :: ts))
       /\ exists more, columns merged_table = columns t ++ more.
Proof.
  split; [vm_compute; reflexivity |].
  apply (merged_rows_are_the_rows_of_the_files same_position_twice
           "exp" "out_all" "*mapping"
           (mkDF (columns merged_table) (rows merged_table ++ rows merged_table))).
  vm_compute. reflexivity.
Defined.

(** *** The table of a [CellData] is built once *)

(** [CellData.df] and the methods that go through it.  A call on an
    object without table runs [merge_tables] on the attributes of the
    object; when it raises, the object is left as it was, so that the next
    call runs [merge_tables] again.  Once a call has returned a table,
    every later call of [df], [len], [iter] and [self[k]] answers from
    that table and leaves the object alone, whatever the directory has
    become: [merge_tables] is not run again. *)
Theorem table_is_built_once (fs : FileSystem) (self self' : core.CellData)
  (o : core.outcome DataFrame) :
  core.df fs self = (o, self') ->
  (core._df self = None ->
   match merge_tables fs (core.path self) (core.name_data self)
                      (core.name_meta_data self) with
   | Ok t => o = core.Returns t /\ core._df self' = Some t
   | Error e => o = core.Raises (core.Raised e) /\ self' = self
   end)
  /\ core.path self' = core.path self
  /\ core.name_data self' = core.name_data self
  /\ core.name_meta_data self' = core.name_meta_data self
  /\ (forall t, o = core.Returns t ->
      forall fs',
        core.df fs' self' = (core.Returns t, self')
        /\ core.__len__ fs' self' = (core.Returns (List.length (rows t)), self')
        /\ core.__iter__ fs' self' = (core.Returns (columns t), self')
        /\ forall k,
             core.__getitem__ fs' self' k
             = (match getcol t k with
                | Ok v => core.Returns v
                | Error e => core.Raises (core.Raised e)
                end, self')).
Proof.
  unfold core.df. intros H.
  destruct (core._df self) as [t0 |] eqn:Hcache.
  - injection H as <- <-.
    split; [discriminate |]. repeat (split; [reflexivity |]).
    intros t Ht fs'. injection Ht as ->.
    unfold core.__len__, core.__iter__, core.__getitem__, core.df.
    rewrite Hcache. repeat split; reflexivity.
  - destruct (merge_tables fs (core.path self) (core.name_data self)
                           (core.name_meta_data self)) as [t0 | e] eqn:Hmerge;
      injection H as <- <-.
    + split; [intros _; split; reflexivity |].
      repeat (split; [reflexivity |]).
      intros t Ht fs'. injection Ht as ->.
      unfold core.__len__, core.__iter__, core.__getitem__, core.df.
      cbn [core._df]. repeat split; reflexivity.
    + split; [intros _; split; reflexivity |].
      repeat (split; [reflexivity |]).
      intros t Ht. discriminate Ht.
Qed.

Lemma table_is_built_once_witness :
  core.__init__ one_position "exp" "out_all" "*mapping"
  = core.Returns (core.mkCellData "exp" "out_all" "*mapping" None)
  /\ core.df one_position (core.mkCellData "exp" "out_all" "*mapping" None)
     = (core.Returns merged_table,
        core.mkCellData "exp" "out_all" "*mapping" (Some merged_table))
  /\ core.df emptied_directory
       (core.mkCellData "exp" "out_all" "*mapping" (Some merged_table))
     = (core.Returns merged_table,
        core.mkCellData "exp" "out_all" "*mapping" (Some merged_table))
  /\ core.__len__ emptied_directory
       (core.mkCellData "exp" "out_all" "*mapping" (Some merged_table))
     = (core.Returns 3%nat,
        core.mkCellData "exp" "out_all" "*mapping" (Some merged_table))
  /\ core.df emptied_directory (core.mkCellData "exp" "out_all" "*mapping" None)
     = (core.Raises (core.Raised (FileExistsError "exp")),
        core.mkCellData "exp" "out_all" "*mapping" None).
Proof.
  assert (H : core.df one_position (core.mkCellData "exp" "out_all" "*mapping" None)
              = (core.Returns merged_table,
                 core.mkCellData "exp" "out_all" "*mapping" (Some merged_table)))
    by (vm_compute; reflexivity).
  destruct (table_is_built_once _ _ _ _ H) as [_ [_ [_ [_ Hlater]]]].
  destruct (Hlater merged_table eq_refl emptied_directory) as [H1 [H2 _]].
  split; [reflexivity |]. split; [exact H |]. split; [exact H1 |].
  split; [exact H2 |]. reflexivity.
Defined.
